(** * duckdb-web-search: predicate pushdown, pagination and retry transport

    A shallow embedding of the core of the [google_search()] table function
    ([src/google_search_function.cpp]) and of its HTTP transport
    ([src/http_client.cpp]), followed by the properties of the specification
    that were checked against it.

    Conventions.
    - C++ [int], [idx_t], [size_t] and [int64_t] values are [Z] (or [nat] for
      container sizes and indices); where the source can leave the range of
      the machine type this is said at the definition.
    - [std::string] is [string]; [std::to_string] on integers is stdpp's
      [pretty].
    - [std::vector] is [list], indexed with stdpp's lookup and insert.
    - Everything outside the repository (the HTTP server, the JSON reader,
      the wall clock, DuckDB's timestamp parser) is an explicit argument. *)

From Stdlib Require Import ZArith QArith Qpower Qreduction Ascii String List Lia Bool.
From stdpp Require Import base tactics option list strings pretty.

Local Open Scope Z_scope.
Local Set Warnings "-register-all".

(* ===================================================================== *)
(** * Part I: the embedding                                               *)
(* ===================================================================== *)

(** ** std::string operations used by the sources *)
Module Str.

(** [s.empty()] *)
Definition empty (s : string) : bool :=
  match s with EmptyString => true | String _ _ => false end.

(** [s] begins with [needle]. *)
Fixpoint starts_with (needle s : string) : bool :=
  match needle, s with
  | EmptyString, _ => true
  | String a needle', String b s' => Ascii.eqb a b && starts_with needle' s'
  | String _ _, EmptyString => false
  end.

(** [s.find(needle)]: index of the first occurrence, [None] for [npos]. *)
Fixpoint find (needle s : string) : option nat :=
  if starts_with needle s then Some 0%nat
  else match s with
       | EmptyString => None
       | String _ s' => S <$> find needle s'
       end.

(** Dropping the first [n] characters. *)
Fixpoint drop (n : nat) (s : string) : string :=
  match n, s with
  | O, _ => s
  | S n', String _ s' => drop n' s'
  | S _, EmptyString => EmptyString
  end.

(** Keeping the first [n] characters. *)
Fixpoint take (n : nat) (s : string) : string :=
  match n, s with
  | S n', String c s' => String c (take n' s')
  | _, _ => EmptyString
  end.

(** [s.find(needle, start)]; [npos] when nothing is found at or after
    [start] (in particular when [start] is past the end). *)
Definition find_from (needle : string) (start : nat) (s : string) : option nat :=
  if (String.length s <? start)%nat then None
  else (fun k => (start + k)%nat) <$> find needle (drop start s).

(** [s.substr(pos, n)] for [pos <= s.length()] (the only way the sources
    call it; past the end the C++ throws [std::out_of_range]). *)
Definition substr (pos n : nat) (s : string) : string := take n (drop pos s).

(** One character occurs in a string. *)
Fixpoint mem (c : ascii) (s : string) : bool :=
  match s with
  | EmptyString => false
  | String a s' => if Ascii.eqb a c then true else mem c s'
  end.

End Str.

(** ** The result record and [ExtractDomain] *)

(** [struct GoogleSearchResult] *)
Record GoogleSearchResult := mkResult {
  title : string;
  link : string;
  snippet : string;
  display_link : string;
  formatted_url : string;
  html_formatted_url : string;
  html_title : string;
  html_snippet : string;
  mime : string;
  file_format : string;
  pagemap : string;
  site : string;
  date : string
}.

(** [static string ExtractDomain(const string &url)] *)
Definition ExtractDomain (url : string) : string :=
  let protocol_end := Str.find "://" url in
  let start := match protocol_end with Some p => (p + 3)%nat | None => 0%nat end in
  let end_ := match Str.find_from "/" start url with
              | Some e => e
              | None => String.length url
              end in
  Str.substr start (end_ - start) url.

(** ** [UrlEncode] (http_client.cpp) *)

(** [isalnum] in the "C" locale. *)
Definition isalnum (c : ascii) : bool :=
  let n := N_of_ascii c in
  ((48 <=? n) && (n <=? 57) || (65 <=? n) && (n <=? 90) || (97 <=? n) && (n <=? 122))%N.

(** One upper-case hexadecimal digit. *)
Definition hex_digit (n : N) : ascii :=
  match n with
  | 0 => "0" | 1 => "1" | 2 => "2" | 3 => "3" | 4 => "4" | 5 => "5"
  | 6 => "6" | 7 => "7" | 8 => "8" | 9 => "9" | 10 => "A" | 11 => "B"
  | 12 => "C" | 13 => "D" | 14 => "E" | _ => "F"
  end%N%char.

(** ['%' << std::setw(2) << int(unsigned char c)] with fill ['0'], in
    upper-case hexadecimal. *)
Definition percent_encode (c : ascii) : string :=
  let n := N_of_ascii c in
  String "%" (String (hex_digit (n / 16)) (String (hex_digit (n mod 16)) EmptyString)).

(** [std::string UrlEncode(const std::string &value)] *)
Fixpoint UrlEncode (value : string) : string :=
  match value with
  | EmptyString => EmptyString
  | String c rest =>
      (if isalnum c || Ascii.eqb c "-" || Ascii.eqb c "_" || Ascii.eqb c "."
          || Ascii.eqb c "~"
       then String c EmptyString
       else percent_encode c) +:+ UrlEncode rest
  end.

(** ** Bind data (google_search_function.hpp / .cpp) *)

(** [struct GoogleSearchFilters] *)
Record GoogleSearchFilters := mkFilters {
  exact_terms : string;
  exclude_terms : string;
  or_terms : string;
  date_restrict : string;
  file_type : string;
  site_search : string;
  site_search_filter : string;
  gl : string;
  hl : string;
  language : string;
  safe : string;
  rights : string;
  sort : string;
  structured_data : string
}.

Definition default_filters : GoogleSearchFilters :=
  mkFilters "" "" "" "" "" "" "" "" "" "" "" "" "" "".

Definition set_sort (f : GoogleSearchFilters) (v : string) : GoogleSearchFilters :=
  mkFilters (exact_terms f) (exclude_terms f) (or_terms f) (date_restrict f)
            (file_type f) (site_search f) (site_search_filter f) (gl f) (hl f)
            (language f) (safe f) (rights f) v (structured_data f).

(** [struct GoogleSearchBindData].  [max_results] is an [idx_t]; the two
    bounds are [timestamp_t] values (microseconds since the epoch), zero
    after value-initialisation by [make_uniq]. *)
Record GoogleSearchBindData := mkBind {
  query : string;
  api_key : string;
  cx : string;
  max_results : Z;
  column_names : list string;
  site_includes : list string;
  site_excludes : list string;
  date_from : Z;
  date_to : Z;
  has_date_filter : bool;
  filters : GoogleSearchFilters
}.

Definition with_max_results (bd : GoogleSearchBindData) (m : Z) : GoogleSearchBindData :=
  mkBind (query bd) (api_key bd) (cx bd) m (column_names bd) (site_includes bd)
         (site_excludes bd) (date_from bd) (date_to bd) (has_date_filter bd) (filters bd).

Definition push_site_include (bd : GoogleSearchBindData) (s : string) : GoogleSearchBindData :=
  mkBind (query bd) (api_key bd) (cx bd) (max_results bd) (column_names bd)
         (site_includes bd ++ [s])
         (site_excludes bd) (date_from bd) (date_to bd) (has_date_filter bd) (filters bd).

Definition push_site_exclude (bd : GoogleSearchBindData) (s : string) : GoogleSearchBindData :=
  mkBind (query bd) (api_key bd) (cx bd) (max_results bd) (column_names bd)
         (site_includes bd)
         (site_excludes bd ++ [s]) (date_from bd) (date_to bd) (has_date_filter bd) (filters bd).

Definition set_date_from (bd : GoogleSearchBindData) (ts : Z) : GoogleSearchBindData :=
  mkBind (query bd) (api_key bd) (cx bd) (max_results bd) (column_names bd)
         (site_includes bd) (site_excludes bd) ts (date_to bd) true (filters bd).

Definition set_date_to (bd : GoogleSearchBindData) (ts : Z) : GoogleSearchBindData :=
  mkBind (query bd) (api_key bd) (cx bd) (max_results bd) (column_names bd)
         (site_includes bd) (site_excludes bd) (date_from bd) ts true (filters bd).

Definition with_filters (bd : GoogleSearchBindData) (f : GoogleSearchFilters) : GoogleSearchBindData :=
  mkBind (query bd) (api_key bd) (cx bd) (max_results bd) (column_names bd)
         (site_includes bd) (site_excludes bd) (date_from bd) (date_to bd)
         (has_date_filter bd) f.

(** The thirteen output columns set by [GoogleSearchBind]. *)
Definition google_search_columns : list string :=
  ["title"; "link"; "snippet"; "display_link"; "formatted_url";
   "html_formatted_url"; "html_title"; "html_snippet"; "mime";
   "file_format"; "pagemap"; "site"; "date"].

(** [GoogleSearchBind]: the query, the credentials of the secret, the named
    parameters collected in [f]; every other member keeps its default, in
    particular [max_results = 100]. *)
Definition GoogleSearchBind (q key cx_ : string) (f : GoogleSearchFilters) : GoogleSearchBindData :=
  mkBind q key cx_ 100 google_search_columns [] [] 0 0 false f.

(** ** The query compiler *)

(** [static string TimestampToDateRestrict(timestamp_t from_ts, timestamp_t to_ts)].

    [now] is what [system_clock::to_time_t(system_clock::now())] returns:
    the function reads the wall clock.  [from_ts.value / 1000000] is an
    [int64_t] division (truncating).  [difftime] and the division by 86400
    are done in [double] and cast to [int]: for an [int64_t] timestamp and a
    clock within a few thousand years of the epoch the difference is below
    [2^53], so it is exact, the quotient is below [2^31], and the rounded
    quotient truncates to the truncated integer quotient; hence [Z.quot]. *)
Definition TimestampToDateRestrict (now : Z) (from_ts to_ts : Z) : string :=
  let from_time_t := Z.quot from_ts 1000000 in
  let diff_seconds := now - from_time_t in
  let diff_days := Z.quot diff_seconds 86400 in
  if diff_days <=? 0 then ""
  else if diff_days <=? 7 then "d" +:+ pretty diff_days
  else if diff_days <=? 31 then
    let weeks := Z.quot (diff_days + 6) 7 in "w" +:+ pretty weeks
  else if diff_days <=? 365 then
    let months := Z.quot (diff_days + 29) 30 in "m" +:+ pretty months
  else
    let years := Z.quot (diff_days + 364) 365 in "y" +:+ pretty years.

(** The body of the [for] loop that writes [site:a OR site:b ...]; [i] is the
    loop index. *)
Fixpoint or_sites_clause (i : nat) (sites : list string) : string :=
  match sites with
  | [] => ""
  | s :: rest =>
      (if (0 <? i)%nat then " OR " else "") +:+ "site:" +:+ s
        +:+ or_sites_clause (S i) rest
  end.

(** The range-[for] that appends [" -site:" + site] for every excluded site. *)
Fixpoint exclude_sites_clause (sites : list string) : string :=
  match sites with
  | [] => ""
  | s :: rest => " -site:" +:+ s +:+ exclude_sites_clause rest
  end.

(** [if (!value.empty()) url += "&name=" + UrlEncode(value);] *)
Definition add_param (url name value : string) : string :=
  if Str.empty value then url else url +:+ name +:+ UrlEncode value.

Definition response_fields : string :=
  "items(title,link,snippet,displayLink,formattedUrl,htmlFormattedUrl,htmlTitle,htmlSnippet,mime,fileFormat,pagemap),queries(nextPage)".

(** [static string BuildGoogleSearchUrl(bind_data, start, site_filter, use_or_sites)];
    [now] is the clock reading used by [TimestampToDateRestrict]. *)
Definition BuildGoogleSearchUrl (now : Z) (bind_data : GoogleSearchBindData) (start : Z)
    (site_filter : string) (use_or_sites : bool) : string :=
  let url := "https://www.googleapis.com/customsearch/v1" in
  let url := url +:+ "?key=" +:+ UrlEncode (api_key bind_data) in
  let url := url +:+ "&cx=" +:+ UrlEncode (cx bind_data) in
  let full_query := query bind_data in
  let full_query :=
    if negb (Str.empty (structured_data (filters bind_data)))
    then structured_data (filters bind_data) +:+ " " +:+ full_query
    else full_query in
  let full_query :=
    if use_or_sites && (1 <? length (site_includes bind_data))%nat then
      full_query +:+ " (" +:+ or_sites_clause 0 (site_includes bind_data) +:+ ")"
    else if use_or_sites && (length (site_includes bind_data) =? 1)%nat then
      match site_includes bind_data with
      | s :: _ => full_query +:+ " site:" +:+ s
      | [] => full_query
      end
    else full_query in
  let full_query := full_query +:+ exclude_sites_clause (site_excludes bind_data) in
  let url := url +:+ "&q=" +:+ UrlEncode full_query in
  let url := url +:+ "&num=10" in
  let url := url +:+ "&start=" +:+ pretty start in
  let url :=
    if negb (Str.empty site_filter)
    then (url +:+ "&siteSearch=" +:+ UrlEncode site_filter) +:+ "&siteSearchFilter=i"
    else url in
  let url :=
    if has_date_filter bind_data && negb (date_from bind_data =? 0) then
      let date_restrict := TimestampToDateRestrict now (date_from bind_data) (date_to bind_data) in
      if negb (Str.empty date_restrict)
      then url +:+ "&dateRestrict=" +:+ UrlEncode date_restrict
      else url
    else url in
  let f := filters bind_data in
  let url := add_param url "&exactTerms=" (exact_terms f) in
  let url := add_param url "&excludeTerms=" (exclude_terms f) in
  let url := add_param url "&orTerms=" (or_terms f) in
  let url := add_param url "&fileType=" (file_type f) in
  let url := add_param url "&gl=" (gl f) in
  let url := add_param url "&hl=" (hl f) in
  let url := add_param url "&lr=" (language f) in
  let url := add_param url "&safe=" (safe f) in
  let url := add_param url "&rights=" (rights f) in
  let url := add_param url "&sort=" (sort f) in
  let url := url +:+ "&fields=" +:+ UrlEncode response_fields in
  url.

(** ** Transport (http_client.hpp / http_client.cpp) *)

(** [struct HttpResponse] *)
Record HttpResponse := mkResponse {
  status_code : Z;
  body : string;
  content_type : string;
  retry_after : string;
  error : string;
  success : bool
}.

Definition default_response : HttpResponse := mkResponse 0 "" "" "" "" false.

Definition with_error (r : HttpResponse) (e : string) : HttpResponse :=
  mkResponse (status_code r) (body r) (content_type r) (retry_after r) e (success r).

(** [struct RetryConfig].  [backoff_multiplier] is a [double]; every finite
    [double] is a rational, so the field is a [Q] (a rational that is not a
    [double] stands for the [double] nearest to it, see [round_double]). *)
Record RetryConfig := mkRetry {
  max_retries : Z;
  initial_backoff_ms : Z;
  backoff_multiplier : Q;
  max_backoff_ms : Z
}.

Definition default_retry_config : RetryConfig := mkRetry 3 100 (2 # 1) 10000.

(** What the [http_request] extension hands back to [ExecuteHttpGet] for one
    GET: the extension cannot be loaded, the query fails, there is no row,
    or there is a row whose four columns may each be NULL. *)
Inductive HttpOutcome :=
| LoadFailed
| QueryError (msg : string)
| NoRow
| Row (status : option Z) (body_ content_type_ retry_after_ : option string).

(** [HttpResponse HttpClient::ExecuteHttpGet(db, url)], as a function of what
    the extension answered. *)
Definition ExecuteHttpGet (o : HttpOutcome) : HttpResponse :=
  match o with
  | LoadFailed =>
      with_error default_response
        "Failed to load http_request extension. Install it with: INSTALL http_request FROM community"
  | QueryError msg => mkResponse 0 "" "" "" msg false
  | NoRow => mkResponse 0 "" "" "" "No response from HTTP request" false
  | Row st b ct ra =>
      let status_code := default 0 st in
      mkResponse status_code (default "" b) (default "" ct) (default "" ra) ""
                 ((200 <=? status_code) && (status_code <? 300))
  end.

(** [bool HttpClient::IsRetryable(int status_code)] *)
Definition IsRetryable (status_code : Z) : bool :=
  if status_code <=? 0 then true
  else if status_code =? 429 then true
  else if (500 <=? status_code) && (status_code <=? 504) then true
  else false.

(** [std::isspace] in the "C" locale. *)
Definition isspace (c : ascii) : bool :=
  let n := N_of_ascii c in ((n =? 32) || (9 <=? n) && (n <=? 13))%N.

Definition digit_value (c : ascii) : option Z :=
  let n := N_of_ascii c in
  if ((48 <=? n) && (n <=? 57))%N then Some (Z.of_N n - 48) else None.

Fixpoint skip_spaces (s : string) : string :=
  match s with
  | String c rest => if isspace c then skip_spaces rest else s
  | EmptyString => s
  end.

(** Value of the longest prefix of decimal digits, and how many there are. *)
Fixpoint leading_digits (acc : Z) (count : nat) (s : string) : Z * nat :=
  match s with
  | String c rest =>
      match digit_value c with
      | Some d => leading_digits (10 * acc + d) (S count) rest
      | None => (acc, count)
      end
  | EmptyString => (acc, count)
  end.

Definition INT_MAX : Z := 2147483647.
Definition INT_MIN : Z := -2147483648.

(** [std::stoi(str)]: optional white space, optional sign, decimal digits;
    what follows the digits is ignored.  [None] stands for the two exceptions
    ([std::invalid_argument] without a digit, [std::out_of_range] outside
    [int]). *)
Definition stoi (str : string) : option Z :=
  let s := skip_spaces str in
  let '(negative, s) :=
    match s with
    | String "-" rest => (true, rest)
    | String "+" rest => (false, rest)
    | _ => (false, s)
    end in
  let '(v, count) := leading_digits 0 0 s in
  if (count =? 0)%nat then None
  else
    let v := if negative : bool then - v else v in
    if (INT_MIN <=? v) && (v <=? INT_MAX) then Some v else None.

(** Two's-complement result of an [int] operation.  Signed overflow is
    undefined behaviour in C++; the statements about waits below say where
    no overflow occurs. *)
Definition wrap_int (z : Z) : Z := (z + 2147483648) mod 4294967296 - 2147483648.

(** [int HttpClient::ParseRetryAfter(const std::string &retry_after)] *)
Definition ParseRetryAfter (retry_after : string) : Z :=
  if Str.empty retry_after then 0
  else match stoi retry_after with
       | Some seconds => wrap_int (seconds * 1000)
       | None => 0
       end.

(** *** Double arithmetic *)

(** A [double]: a finite value, an infinity, or a NaN.  The two zeros are
    not told apart; nothing below depends on the sign of a zero. *)
Inductive double := finite (q : Q) | infinity (negative : bool) | nan.

(** [a / b] rounded to the nearest integer, a tie to the even one
    ([0 <= a], [0 < b]). *)
Definition round_half_even (a b : Z) : Z :=
  let q := a / b in
  match (2 * (a mod b)) ?= b with
  | Lt => q
  | Gt => q + 1
  | Eq => if Z.even q then q else q + 1
  end.

(** The binary64 number nearest to [n / d], ties to even: a 53-bit
    significand [m] at the exponent [e] of the last place, which is
    [floor (log2 (n / d)) - 52] and not below -1074 (subnormal numbers);
    past the largest finite number the result is the infinity. *)
Definition round_pos (n d : positive) : double :=
  let n := Z.pos n in
  let d := Z.pos d in
  let k := Z.log2 n - Z.log2 d in
  let fl := if 0 <=? k then (if d * 2 ^ k <=? n then k else k - 1)
            else (if d <=? n * 2 ^ (- k) then k else k - 1) in
  let e := Z.max (fl - 52) (-1074) in
  let m := if 0 <=? e then round_half_even n (d * 2 ^ e)
           else round_half_even (n * 2 ^ (- e)) d in
  if (971 <? e) || ((e =? 971) && (2 ^ 53 <=? m)) then infinity false
  else finite (Qred (if 0 <=? e then inject_Z (m * 2 ^ e) else m # Z.to_pos (2 ^ (- e)))).

Definition negate (d : double) : double :=
  match d with
  | finite q => finite (- q)
  | infinity s => infinity (negb s)
  | nan => nan
  end.

(** Rounding to nearest of IEEE 754, the rounding of every [double]
    operation of the build. *)
Definition round_double (q : Q) : double :=
  match Qnum q with
  | 0 => finite 0
  | Z.pos n => round_pos n (Qden q)
  | Z.neg n => negate (round_pos n (Qden q))
  end.

(** The product of two [double]s. *)
Definition double_mul (a b : double) : double :=
  match a, b with
  | nan, _ | _, nan => nan
  | finite x, finite y => round_double (x * y)
  | infinity s, finite y | finite y, infinity s =>
      if Qnum y =? 0 then nan else infinity (xorb s (Qnum y <? 0))
  | infinity s, infinity t => infinity (xorb s t)
  end.

(** [static_cast<int>] of a [double]: truncation towards zero.  When the
    truncated value is outside [int], or the [double] is an infinity or a
    NaN, the C++ leaves the result undefined; the x86-64 build converts
    with [cvttsd2si], which gives [INT_MIN], and that is what is modelled. *)
Definition static_cast_int (d : double) : Z :=
  match d with
  | finite q =>
      let t := Z.quot (Qnum q) (Z.pos (Qden q)) in
      if (INT_MIN <=? t) && (t <=? INT_MAX) then t else INT_MIN
  | _ => INT_MIN
  end.

(** The environment of a scan: the answer of the HTTP extension to the
    [n]-th GET of the scan (which may depend on the URL), the reading of
    the wall clock at that moment, and [std::pow] of the C library at a
    [double] and an [int] (the language fixes its result only up to the
    accuracy of the library, so it is taken from the environment). *)
Record Transport := mkTransport {
  http_get : nat -> string -> HttpOutcome;
  clock : nat -> Z;
  std_pow : double -> Z -> double
}.

(** [static_cast<int>(config.initial_backoff_ms * std::pow(config.backoff_multiplier, attempt))]:
    the [int] converts to [double] exactly, the product is rounded. *)
Definition exponential_backoff (w : Transport) (config : RetryConfig) (attempt : Z) : Z :=
  static_cast_int
    (double_mul (finite (inject_Z (initial_backoff_ms config)))
                (std_pow w (round_double (backoff_multiplier config)) attempt)).

(** The wait computed at the end of one iteration of the loop of [Fetch],
    lines "Calculate wait time" to "Cap at max backoff". *)
Definition wait_time (w : Transport) (config : RetryConfig) (response : HttpResponse)
    (attempt : Z) : Z :=
  let wait_ms :=
    if (status_code response =? 429) && negb (Str.empty (retry_after response)) then
      let wait_ms := ParseRetryAfter (retry_after response) in
      if wait_ms <=? 0 then exponential_backoff w config attempt else wait_ms
    else exponential_backoff w config attempt in
  Z.min wait_ms (max_backoff_ms config).

(** What one call of [HttpClient::Fetch] did: the response it returned, the
    number of GETs it issued and the sleeps ([wait_ms]) in between. *)
Record FetchRun := mkFetchRun {
  fetched : HttpResponse;
  gets : nat;
  sleeps : list Z
}.

(** The [for (int attempt = 0; attempt <= config.max_retries; attempt++)]
    loop of [Fetch].  [remaining] counts the iterations left, so it is
    [max_retries + 1 - attempt]; when it reaches zero the loop condition is
    false and the code falls through to "Unexpected error in HTTP fetch".
    [tick] is the number of GETs issued by the scan so far. *)
Fixpoint Fetch_loop (w : Transport) (url : string) (config : RetryConfig)
    (remaining : nat) (attempt : Z) (tick : nat) (slept : list Z) : FetchRun :=
  match remaining with
  | O => mkFetchRun (with_error default_response "Unexpected error in HTTP fetch")
                    (Z.to_nat attempt) slept
  | S remaining' =>
      let response := ExecuteHttpGet (http_get w tick url) in
      if success response then mkFetchRun response (S (Z.to_nat attempt)) slept
      else if negb (IsRetryable (status_code response)) then
        mkFetchRun response (S (Z.to_nat attempt)) slept
      else if attempt >=? max_retries config then
        mkFetchRun (with_error response ("Max retries exceeded for URL: " +:+ url))
                   (S (Z.to_nat attempt)) slept
      else
        let wait_ms := wait_time w config response attempt in
        Fetch_loop w url config remaining' (attempt + 1) (S tick) (slept ++ [wait_ms])
  end.

(** [HttpResponse HttpClient::Fetch(context, url, config)], started when the
    scan has issued [tick] GETs. *)
Definition Fetch (w : Transport) (tick : nat) (url : string) (config : RetryConfig) : FetchRun :=
  Fetch_loop w url config (Z.to_nat (max_retries config + 1)) 0 tick [].

(** ** The pagination engine *)

(** [struct SitePaginationState]; the C++ member [next_start] is
    [site_next_start] here, the name being taken by the global state. *)
Record SitePaginationState := mkSite {
  site_next_start : Z;
  exhausted : bool
}.

Definition default_site_state : SitePaginationState := mkSite 1 false.

(** [struct GoogleSearchGlobalState] (without the mutex). *)
Record GoogleSearchGlobalState := mkState {
  results : list GoogleSearchResult;
  current_idx : nat;
  site_states : list SitePaginationState;
  current_site_idx : nat;
  next_start : Z;
  fetch_complete : bool
}.

Definition initial_state : GoogleSearchGlobalState := mkState [] 0 [] 0 1 false.

Definition with_results (st : GoogleSearchGlobalState) (r : list GoogleSearchResult) :=
  mkState r (current_idx st) (site_states st) (current_site_idx st) (next_start st)
          (fetch_complete st).

Definition with_site_states (st : GoogleSearchGlobalState) (ss : list SitePaginationState) :=
  mkState (results st) (current_idx st) ss (current_site_idx st) (next_start st)
          (fetch_complete st).

Definition with_current_site_idx (st : GoogleSearchGlobalState) (i : nat) :=
  mkState (results st) (current_idx st) (site_states st) i (next_start st)
          (fetch_complete st).

Definition with_next_start (st : GoogleSearchGlobalState) (n : Z) :=
  mkState (results st) (current_idx st) (site_states st) (current_site_idx st) n
          (fetch_complete st).

Definition with_fetch_complete (st : GoogleSearchGlobalState) (b : bool) :=
  mkState (results st) (current_idx st) (site_states st) (current_site_idx st)
          (next_start st) b.

(** The exceptions thrown by the scan. *)
Inductive Exception :=
| IOException (msg : string)
| InvalidInputException (msg : string).

(** What [ParseGoogleSearchResponse] reads of one element of ["items"]: the
    ten strings fetched with [GetJsonString] (empty when missing or not a
    string) and the serialised ["pagemap"], if any. *)
Record JsonItem := mkItem {
  item_title : string;
  item_link : string;
  item_snippet : string;
  item_displayLink : string;
  item_formattedUrl : string;
  item_htmlFormattedUrl : string;
  item_htmlTitle : string;
  item_htmlSnippet : string;
  item_mime : string;
  item_fileFormat : string;
  item_pagemap : option string
}.

(** What [ParseGoogleSearchResponse] reads of a parsed document:
    ["error"] (present, with its ["message"] when that is a string),
    ["items"] when it is an array, and
    [queries.nextPage[0].startIndex] when the whole path exists and the
    value is an integer (as [yyjson_get_int] returns it). *)
Record JsonDoc := mkDoc {
  doc_error : option (option string);
  doc_items : option (list JsonItem);
  doc_startIndex : option Z
}.

(** The body of the [yyjson_arr_foreach] loop for one item. *)
Definition result_of_item (item : JsonItem) : GoogleSearchResult :=
  mkResult (item_title item) (item_link item) (item_snippet item)
           (item_displayLink item) (item_formattedUrl item)
           (item_htmlFormattedUrl item) (item_htmlTitle item)
           (item_htmlSnippet item) (item_mime item) (item_fileFormat item)
           (default "" (item_pagemap item))
           (ExtractDomain (item_link item))
           "".

(** The [yyjson_arr_foreach] loop: stop at the first item reached with
    [state.results.size() >= bind_data.max_results]. *)
Fixpoint push_items (items : list JsonItem) (res : list GoogleSearchResult)
    (max_results_ : Z) : list GoogleSearchResult :=
  match items with
  | [] => res
  | item :: rest =>
      if Z.of_nat (length res) >=? max_results_ then res
      else push_items rest (res ++ [result_of_item item]) max_results_
  end.

(** One request of the scan as [FetchGoogleSearchResults] issues it: the
    cursor it belongs to ([None] for the single cursor of the combined
    mode, [Some i] for site [i]), the three arguments given to
    [BuildGoogleSearchUrl], and what [ParseGoogleSearchResponse] returned
    for it ([None] when the iteration threw instead). *)
Record PageFetch := mkPageFetch {
  pf_cursor : option nat;
  pf_start : Z;
  pf_site_filter : string;
  pf_use_or_sites : bool;
  pf_next_start : option Z
}.

(** One iteration of a [while] loop of [FetchGoogleSearchResults]: the loop
    is left normally, an exception leaves it, or the body ran to its end. *)
Inductive Step :=
| Finished (st : GoogleSearchGlobalState) (tick : nat)
| Thrown (req : PageFetch) (e : Exception)
| Continue (req : PageFetch) (st : GoogleSearchGlobalState) (tick : nat).

(** The end of a whole loop, with the requests issued on the way. *)
Inductive FetchResult :=
| Done (trace : list PageFetch) (st : GoogleSearchGlobalState) (tick : nat)
| Failed (trace : list PageFetch) (e : Exception)
| OutOfFuel (trace : list PageFetch).

(** The [throw] statements after [if (!response.success)]. *)
Definition http_failure (response : HttpResponse) : Exception :=
  if status_code response =? 401 then
    InvalidInputException "Google Search API: Invalid API key"
  else if status_code response =? 403 then
    InvalidInputException "Google Search API: Access denied or quota exceeded"
  else if status_code response =? 400 then
    InvalidInputException ("Google Search API: Invalid request - " +:+ error response)
  else
    IOException ("Google Search API error: " +:+ error response +:+ " (status "
                 +:+ pretty (status_code response) +:+ ")").

(** [vector::resize(n)] with value-initialised new elements. *)
Definition resize_site_states (ss : list SitePaginationState) (n : nat) :=
  take n ss ++ replicate (n - length ss) default_site_state.

(** [state.site_states[i].exhausted]; [i] is always in range. *)
Definition exhausted_at (ss : list SitePaginationState) (i : nat) : bool :=
  match ss !! i with Some s => exhausted s | None => false end.

(** The counting [for] loop at the head of the per-site iteration. *)
Fixpoint active_sites (ss : list SitePaginationState) : nat :=
  match ss with
  | [] => 0%nat
  | s :: rest => ((if exhausted s then 0 else 1) + active_sites rest)%nat
  end.

(** The inner [while (site_states[idx].exhausted && attempts < n)] loop;
    [remaining] is [n - attempts]. *)
Fixpoint next_site (ss : list SitePaginationState) (n : nat) (remaining : nat)
    (idx : nat) : nat :=
  match remaining with
  | O => idx
  | S remaining' =>
      if exhausted_at ss idx then next_site ss n remaining' ((idx + 1) mod n)%nat
      else idx
  end.

Section Pagination.

Variable w : Transport.
(** [yyjson_read] followed by the reads of [ParseGoogleSearchResponse];
    [None] when the body is not JSON. *)
Variable yyjson_read : string -> option JsonDoc.
Variable bind_data : GoogleSearchBindData.

(** [static int ParseGoogleSearchResponse(response_body, state, bind_data)] *)
Definition ParseGoogleSearchResponse (response_body : string)
    (state : GoogleSearchGlobalState) : Exception + (GoogleSearchGlobalState * Z) :=
  match yyjson_read response_body with
  | None => inl (IOException "Failed to parse Google Search API response as JSON")
  | Some doc =>
      match doc_error doc with
      | Some message =>
          inl (InvalidInputException
                 ("Google Search API error: " +:+ default "Unknown error" message))
      | None =>
          match doc_items doc with
          | None | Some [] => inr (state, -1)
          | Some items =>
              let state :=
                with_results state (push_items items (results state) (max_results bind_data)) in
              inr (state, default (-1) (doc_startIndex doc))
          end
      end
  end.

(** One iteration of the [while] loop of the per-site mode, loop test
    included. *)
Definition per_site_step (state : GoogleSearchGlobalState) (tick : nat) : Step :=
  let n := length (site_includes bind_data) in
  if negb (Z.of_nat (length (results state)) <? max_results bind_data) then
    Finished state tick
  else if (active_sites (site_states state) =? 0)%nat then Finished state tick
  else
    let idx := next_site (site_states state) n n (current_site_idx state) in
    let state := with_current_site_idx state idx in
    if exhausted_at (site_states state) idx then Finished state tick
    else
      let site_state := default default_site_state (site_states state !! idx) in
      let site := default "" (site_includes bind_data !! idx) in
      let url := BuildGoogleSearchUrl (clock w tick) bind_data
                   (site_next_start site_state) site false in
      let run := Fetch w tick url default_retry_config in
      let response := fetched run in
      let req := mkPageFetch (Some idx) (site_next_start site_state) site false in
      if negb (success response) then Thrown (req None) (http_failure response)
      else
        match ParseGoogleSearchResponse (body response) state with
        | inl e => Thrown (req None) e
        | inr (state, next_start_) =>
            let site_state :=
              if (next_start_ <? 0) || (site_next_start site_state >=? 100)
              then mkSite (site_next_start site_state) true
              else mkSite next_start_ (exhausted site_state) in
            let state := with_site_states state (<[idx := site_state]> (site_states state)) in
            let state := with_current_site_idx state ((idx + 1) mod n)%nat in
            Continue (req (Some next_start_)) state (tick + gets run)
        end.

(** One iteration of the [while] loop of the single-query mode, loop test
    included. *)
Definition combined_step (has_sites : bool) (state : GoogleSearchGlobalState)
    (tick : nat) : Step :=
  if negb ((Z.of_nat (length (results state)) <? max_results bind_data)
           && negb (fetch_complete state)) then
    Finished state tick
  else
    let url := BuildGoogleSearchUrl (clock w tick) bind_data (next_start state) "" has_sites in
    let run := Fetch w tick url default_retry_config in
    let response := fetched run in
    let req := mkPageFetch None (next_start state) "" has_sites in
    if negb (success response) then Thrown (req None) (http_failure response)
    else
      match ParseGoogleSearchResponse (body response) state with
      | inl e => Thrown (req None) e
      | inr (state', next_start_) =>
          let state' :=
            if (next_start_ <? 0) || (next_start state' >=? 100)
            then with_fetch_complete state' true
            else with_next_start state' next_start_ in
          Continue (req (Some next_start_)) state' (tick + gets run)
      end.

(** A [while] loop as the iteration of its body. *)
Fixpoint run_loop (step : GoogleSearchGlobalState -> nat -> Step) (fuel : nat)
    (trace : list PageFetch) (state : GoogleSearchGlobalState) (tick : nat) : FetchResult :=
  match fuel with
  | O => OutOfFuel trace
  | S fuel' =>
      match step state tick with
      | Finished st t => Done trace st t
      | Thrown req e => Failed (trace ++ [req]) e
      | Continue req st t => run_loop step fuel' (trace ++ [req]) st t
      end
  end.

(** [bool use_per_site_queries = site_includes.size() > 1 && max_results > 100] *)
Definition use_per_site_queries : bool :=
  (1 <? length (site_includes bind_data))%nat && (100 <? max_results bind_data).

(** Iterations after which either loop has certainly ended (see
    [FetchGoogleSearchResults_terminates]). *)
Definition fetch_fuel : nat :=
  S (Z.to_nat (max_results bind_data) + length (site_includes bind_data)).

(** [static void FetchGoogleSearchResults(context, state, bind_data)] *)
Definition FetchGoogleSearchResults (state : GoogleSearchGlobalState) (tick : nat)
    : FetchResult :=
  if use_per_site_queries then
    let state :=
      with_site_states state
        (resize_site_states (site_states state) (length (site_includes bind_data))) in
    run_loop per_site_step fetch_fuel [] state tick
  else
    let has_sites := negb (Nat.eqb (length (site_includes bind_data)) 0) in
    run_loop (combined_step has_sites) fetch_fuel [] state tick.

(** [GoogleSearchInitGlobal]: a fresh state, then the whole fetch. *)
Definition GoogleSearchInitGlobal : FetchResult :=
  FetchGoogleSearchResults initial_state 0.

End Pagination.

(** ** The predicate absorber *)

(** The [LogicalTypeId]s the absorber tells apart. *)
Inductive LogicalTypeId := VARCHAR | TIMESTAMP | TIMESTAMP_TZ | DATE | OTHER_TYPE_ID.

(** A DuckDB constant as the absorber reads it: [type().id()],
    [ToString()], and the integer it holds ([GetValue<int64_t>()] of a
    timestamp, the day number of a [date_t]). *)
Record Value := mkValue {
  type_id : LogicalTypeId;
  ToString : string;
  int_value : Z
}.

(** [ExpressionType], as far as the absorber looks at it. *)
Inductive ExpressionType :=
| COMPARE_EQUAL | COMPARE_NOTEQUAL
| COMPARE_LESSTHAN | COMPARE_GREATERTHAN
| COMPARE_LESSTHANOREQUALTO | COMPARE_GREATERTHANOREQUALTO
| COMPARE_IN | COMPARE_NOT_IN
| COMPARE_DISTINCT_FROM | COMPARE_NOT_DISTINCT_FROM
| OPERATOR_OTHER.

(** Bound expressions by [ExpressionClass].  A [BoundBetween] is the only
    expression of type [COMPARE_BETWEEN]. *)
Inductive Expression :=
| BoundColumnRef (name : string) (column_index : nat)
| BoundConstant (value : Value)
| BoundFunction (function_name : string) (children : list Expression)
| BoundOperator (type : ExpressionType) (children : list Expression)
| BoundComparison (type : ExpressionType) (left right : Expression)
| BoundBetween (input lower upper : Expression)
| OtherExpression.

(** [col_ref.GetName() == "site" && constant.value.type().id() == VARCHAR]
    for a column reference and a constant, with the constant's string. *)
Definition site_constant (l r : Expression) : option string :=
  match l, r with
  | BoundColumnRef name _, BoundConstant v =>
      if String.eqb name "site" then
        match type_id v with VARCHAR => Some (ToString v) | _ => None end
      else None
  | _, _ => None
  end.

(** The loop over [op.children[1..]] of an operator expression: the strings
    of the constants, [None] as soon as one child is not a VARCHAR constant. *)
Fixpoint in_list_values (children : list Expression) : option (list string) :=
  match children with
  | [] => Some []
  | BoundConstant v :: rest =>
      match type_id v with
      | VARCHAR => cons (ToString v) <$> in_list_values rest
      | _ => None
      end
  | _ :: _ => None
  end.

(** [static string ExtractLikePattern(pattern, bool &is_prefix, bool &is_suffix)]:
    the result with the two flags.  No function of the file calls it. *)
Definition ExtractLikePattern (pattern : string) : string * bool * bool :=
  if Str.empty pattern then (pattern, false, false)
  else
    let '(result, is_suffix) :=
      match pattern with
      | String "%" rest => (rest, true)
      | _ => (pattern, false)
      end in
    let '(result, is_prefix) :=
      if negb (Str.empty result)
         && Str.starts_with "%" (Str.drop (String.length result - 1) result)
      then (Str.take (String.length result - 1) result, true)
      else (result, false) in
    (result, is_prefix, is_suffix).

(** What one iteration of the loop over [filters] does. *)
Inductive Absorbed :=
| Removed (bd : GoogleSearchBindData)
| Kept (bd : GoogleSearchBindData)
| ConversionThrows.

(** The three ways the conversion of a date constant can end. *)
Inductive TimestampOf := IsTimestamp (ts : Z) | NotADate | CannotConvert.

Section Absorber.

(** DuckDB's [Timestamp::FromString(str, false)] and
    [Timestamp::FromDatetime(date, dtime_t(0))]; [None] when they throw. *)
Variable FromString : string -> option Z.
Variable FromDatetime : Z -> option Z.

(** The [if / else if] chain computing [ts_value] of a constant. *)
Definition ts_value (v : Value) : TimestampOf :=
  match type_id v with
  | TIMESTAMP | TIMESTAMP_TZ => IsTimestamp (int_value v)
  | DATE => match FromDatetime (int_value v) with
            | Some ts => IsTimestamp ts
            | None => CannotConvert
            end
  | VARCHAR => match FromString (ToString v) with
               | Some ts => IsTimestamp ts
               | None => CannotConvert
               end
  | OTHER_TYPE_ID => NotADate
  end.

(** A comparison of a column named "timestamp" or "date" with a constant:
    [set] stores the bound. *)
Definition absorb_date (set : GoogleSearchBindData -> Z -> GoogleSearchBindData)
    (bd : GoogleSearchBindData) (l r : Expression) : Absorbed :=
  match l, r with
  | BoundColumnRef name _, BoundConstant v =>
      if String.eqb name "timestamp" || String.eqb name "date" then
        match ts_value v with
        | IsTimestamp ts => Kept (set bd ts)
        | NotADate => Kept bd
        | CannotConvert => ConversionThrows
        end
      else Kept bd
  | _, _ => Kept bd
  end.

(** The body of [for (idx_t i = 0; i < filters.size(); i++)]. *)
Definition absorb_filter (bd : GoogleSearchBindData) (filter : Expression) : Absorbed :=
  match filter with
  | BoundFunction fname children =>
      match children with
      | c0 :: c1 :: _ =>
          if String.eqb fname "suffix" then
            match site_constant c0 c1 with
            | Some suffix => Removed (push_site_include bd suffix)
            | None => Kept bd
            end
          else if String.eqb fname "prefix" then
            match site_constant c0 c1 with
            | Some prefix => Removed (push_site_include bd prefix)
            | None => Kept bd
            end
          else Kept bd
      | _ => Kept bd
      end
  | BoundOperator _ children =>
      match children with
      | BoundColumnRef name _ :: (_ :: _) as values =>
          if String.eqb name "site" then
            match in_list_values values with
            | Some site_values =>
                Removed (fold_left push_site_include site_values bd)
            | None => Kept bd
            end
          else Kept bd
      | _ => Kept bd
      end
  | BoundComparison type l r =>
      match type with
      | COMPARE_EQUAL =>
          match site_constant l r with
          | Some v => Removed (push_site_include bd v)
          | None => Kept bd
          end
      | COMPARE_NOTEQUAL =>
          match site_constant l r with
          | Some v => Removed (push_site_exclude bd v)
          | None => Kept bd
          end
      | COMPARE_GREATERTHAN | COMPARE_GREATERTHANOREQUALTO =>
          absorb_date set_date_from bd l r
      | COMPARE_LESSTHAN | COMPARE_LESSTHANOREQUALTO =>
          absorb_date set_date_to bd l r
      | _ => Kept bd
      end
  | _ => Kept bd
  end.

(** The loop over [filters]: the bind data and [filters_to_remove] after
    the filters from index [i] on; [None] when a conversion throws. *)
Fixpoint absorb_loop (i : nat) (filters_ : list Expression) (bd : GoogleSearchBindData)
    (filters_to_remove : list nat) : option (GoogleSearchBindData * list nat) :=
  match filters_ with
  | [] => Some (bd, filters_to_remove)
  | filter :: rest =>
      match absorb_filter bd filter with
      | Removed bd' => absorb_loop (S i) rest bd' (filters_to_remove ++ [i])
      | Kept bd' => absorb_loop (S i) rest bd' filters_to_remove
      | ConversionThrows => None
      end
  end.

(** The last loop: [filters.erase(filters.begin() + *it)] for the indices
    from last to first. *)
Definition erase_reversed (filters_to_remove : list nat) (filters_ : list Expression)
    : list Expression :=
  fold_left (fun fs i => delete i fs) (rev filters_to_remove) filters_.

(** [static void GoogleSearchPushdownComplexFilter(context, get, bind_data_p, filters)]:
    the new bind data and the filters left for DuckDB. *)
Definition GoogleSearchPushdownComplexFilter (bd : GoogleSearchBindData)
    (filters_ : list Expression) : option (GoogleSearchBindData * list Expression) :=
  match absorb_loop 0 filters_ bd [] with
  | Some (bd', filters_to_remove) => Some (bd', erase_reversed filters_to_remove filters_)
  | None => None
  end.

End Absorber.

(** ** The two plan rewrites *)

(** [limit.limit_val]: its [LimitNodeType] and, for a constant, the value. *)
Inductive LimitNode :=
| UNSET
| CONSTANT_VALUE (limit_value : Z)
| CONSTANT_PERCENTAGE
| EXPRESSION_VALUE
| EXPRESSION_PERCENTAGE.

Inductive OrderType := ASCENDING | DESCENDING | ORDER_DEFAULT | INVALID.

(** [BoundOrderByNode] *)
Record OrderNode := mkOrder {
  order_type : OrderType;
  expression : Expression
}.

(** Logical plans.  A limit, a projection and an order have exactly one
    child; a [LogicalGet] carries the name of its table function and its
    bind data (for functions other than [google_search] the field stands
    for data the rewrites never read). *)
Inductive LogicalOperator :=
| LOGICAL_LIMIT (limit_val : LimitNode) (child : LogicalOperator)
| LOGICAL_PROJECTION (child : LogicalOperator)
| LOGICAL_ORDER_BY (orders : list OrderNode) (child : LogicalOperator)
| LOGICAL_GET (function_name : string) (bind_data : GoogleSearchBindData)
              (children : list LogicalOperator)
| LOGICAL_OTHER (children : list LogicalOperator).

(** [while (child.type == LOGICAL_PROJECTION) child = *child.children[0];] *)
Fixpoint skip_projections (op : LogicalOperator) : LogicalOperator :=
  match op with
  | LOGICAL_PROJECTION child => skip_projections child
  | _ => op
  end.

(** The plan after an assignment through the reference [bind_data] obtained
    from the [LogicalGet] found by [skip_projections]. *)
Fixpoint update_get (f : GoogleSearchBindData -> GoogleSearchBindData)
    (op : LogicalOperator) : LogicalOperator :=
  match op with
  | LOGICAL_PROJECTION child => LOGICAL_PROJECTION (update_get f child)
  | LOGICAL_GET name bd children => LOGICAL_GET name (f bd) children
  | _ => op
  end.

(** [void OptimizeGoogleSearchLimitPushdown(unique_ptr<LogicalOperator> &op)];
    [std::min(limit_value, (idx_t)100)] is [Z.min] on the [idx_t] value. *)
Fixpoint OptimizeGoogleSearchLimitPushdown (op : LogicalOperator) : LogicalOperator :=
  match op with
  | LOGICAL_LIMIT limit_val child =>
      match skip_projections child with
      | LOGICAL_GET name _ _ =>
          if negb (String.eqb name "google_search") then
            LOGICAL_LIMIT limit_val (OptimizeGoogleSearchLimitPushdown child)
          else
            match limit_val with
            | CONSTANT_VALUE limit_value =>
                LOGICAL_LIMIT limit_val
                  (update_get (fun bd => with_max_results bd (Z.min limit_value 100)) child)
            | UNSET => op
            | _ => LOGICAL_LIMIT limit_val (OptimizeGoogleSearchLimitPushdown child)
            end
      | _ => LOGICAL_LIMIT limit_val (OptimizeGoogleSearchLimitPushdown child)
      end
  | LOGICAL_PROJECTION child => LOGICAL_PROJECTION (OptimizeGoogleSearchLimitPushdown child)
  | LOGICAL_ORDER_BY orders child =>
      LOGICAL_ORDER_BY orders (OptimizeGoogleSearchLimitPushdown child)
  | LOGICAL_GET name bd children =>
      LOGICAL_GET name bd (List.map OptimizeGoogleSearchLimitPushdown children)
  | LOGICAL_OTHER children =>
      LOGICAL_OTHER (List.map OptimizeGoogleSearchLimitPushdown children)
  end.

(** The assignment at the end of [OptimizeGoogleSearchOrderByPushdown]:
    [if (bind_data.filters.sort.empty()) bind_data.filters.sort = sort_param]. *)
Definition set_sort_if_empty (sort_param : string) (bd : GoogleSearchBindData)
    : GoogleSearchBindData :=
  if Str.empty (sort (filters bd)) then with_filters bd (set_sort (filters bd) sort_param)
  else bd.

(** The sort token for the single order node, when the rewrite applies:
    one order, on a column reference whose index is in range and names the
    column "date". *)
Definition sort_param_of (bd : GoogleSearchBindData) (orders : list OrderNode)
    : option string :=
  match orders with
  | [order_node] =>
      match expression order_node with
      | BoundColumnRef _ col_idx =>
          match column_names bd !! col_idx with
          | Some col_name =>
              if String.eqb col_name "date" then
                Some (match order_type order_node with
                      | DESCENDING => "date:d"
                      | _ => "date:a"
                      end)
              else None
          | None => None
          end
      | _ => None
      end
  | _ => None
  end.

(** [void OptimizeGoogleSearchOrderByPushdown(unique_ptr<LogicalOperator> &op)] *)
Fixpoint OptimizeGoogleSearchOrderByPushdown (op : LogicalOperator) : LogicalOperator :=
  match op with
  | LOGICAL_ORDER_BY orders child =>
      match skip_projections child with
      | LOGICAL_GET name bd _ =>
          if negb (String.eqb name "google_search") then
            LOGICAL_ORDER_BY orders (OptimizeGoogleSearchOrderByPushdown child)
          else
            match sort_param_of bd orders with
            | Some sort_param =>
                LOGICAL_ORDER_BY orders (update_get (set_sort_if_empty sort_param) child)
            | None => LOGICAL_ORDER_BY orders (OptimizeGoogleSearchOrderByPushdown child)
            end
      | _ => LOGICAL_ORDER_BY orders (OptimizeGoogleSearchOrderByPushdown child)
      end
  | LOGICAL_LIMIT limit_val child =>
      LOGICAL_LIMIT limit_val (OptimizeGoogleSearchOrderByPushdown child)
  | LOGICAL_PROJECTION child => LOGICAL_PROJECTION (OptimizeGoogleSearchOrderByPushdown child)
  | LOGICAL_GET name bd children =>
      LOGICAL_GET name bd (List.map OptimizeGoogleSearchOrderByPushdown children)
  | LOGICAL_OTHER children =>
      LOGICAL_OTHER (List.map OptimizeGoogleSearchOrderByPushdown children)
  end.

(** The bind data of the [google_search] scans of a plan, left to right. *)
Fixpoint google_search_scans (op : LogicalOperator) : list GoogleSearchBindData :=
  match op with
  | LOGICAL_LIMIT _ child | LOGICAL_PROJECTION child | LOGICAL_ORDER_BY _ child =>
      google_search_scans child
  | LOGICAL_GET name bd children =>
      (if String.eqb name "google_search" then [bd] else [])
        ++ concat (List.map google_search_scans children)
  | LOGICAL_OTHER children => concat (List.map google_search_scans children)
  end.

(** ** Vocabulary of the specification *)

(** [needle] occurs in [s] right after [pre], and nowhere earlier. *)
Definition first_occurrence (needle s pre post : string) : Prop :=
  s = pre +:+ needle +:+ post /\
  forall pre' post', s = pre' +:+ needle +:+ post' ->
                     (String.length pre <= String.length pre')%nat.

(** [needle] does not occur in [s]. *)
Definition absent (needle s : string) : Prop :=
  forall pre post, s <> pre +:+ needle +:+ post.

(** [host] is [rest] up to its first ['/'], or all of [rest] without one. *)
Definition host_of (rest host : string) : Prop :=
  Str.mem "/" host = false /\
  (rest = host \/ exists tail, rest = host +:+ "/" +:+ tail).

(** [rest] is what follows the first ["://"] of [link], or all of [link]
    without one. *)
Definition after_scheme (link rest : string) : Prop :=
  (absent "://" link /\ rest = link) \/
  (exists pre, first_occurrence "://" link pre rest).

(** The site of a link, as the specification words it. *)
Definition site_of_link (link site_ : string) : Prop :=
  exists rest, after_scheme link rest /\ host_of rest site_.

(** [needle] occurs somewhere in [s]. *)
Definition contains (needle s : string) : Prop :=
  exists pre post, s = pre +:+ needle +:+ post.

(** A response after which [Fetch] wants to try again. *)
Definition retryable_failure (r : HttpResponse) : Prop :=
  success r = false /\ IsRetryable (status_code r) = true.

(** The response to the [k]-th GET of a call of [Fetch] that starts at
    [tick]. *)
Definition attempt_response (w : Transport) (tick : nat) (url : string) (k : nat)
    : HttpResponse :=
  ExecuteHttpGet (http_get w (tick + k)%nat url).

(** The waits of a call of [Fetch] that makes [k] retries. *)
Definition waits (w : Transport) (tick : nat) (url : string) (config : RetryConfig)
    (k : nat) : list Z :=
  List.map (fun j => wait_time w config (attempt_response w tick url j) (Z.of_nat j)) (seq 0 k).

(** The wait as the specification words it: the retry-after header of a 429,
    read as a number of seconds and converted to milliseconds, else the
    exponential backoff; clamped to [max_backoff_ms]. *)
Definition spec_wait (w : Transport) (config : RetryConfig) (response : HttpResponse)
    (attempt : Z) : Z :=
  let W :=
    if (status_code response =? 429) && negb (Str.empty (retry_after response)) then
      match stoi (retry_after response) with
      | Some seconds => seconds * 1000
      | None => exponential_backoff w config attempt
      end
    else exponential_backoff w config attempt in
  Z.min (max_backoff_ms config) W.

(** A [pow] for examples: the power rounded once, which is what a
    correctly rounded library returns. *)
Definition exact_pow (x : double) (n : Z) : double :=
  if n =? 0 then finite 1
  else match x with
       | finite q =>
           if (n <? 0) && (Qnum q =? 0) then infinity false
           else round_double (Qpower q n)
       | infinity s => if n <? 0 then finite 0 else infinity (s && Z.odd n)
       | nan => nan
       end.

(** A server, a clock and a library for examples: the [n]-th GET is
    answered by the [n]-th outcome of the script, [NoRow] after its end;
    the clock stands still at [now]; [pow] is [exact_pow]. *)
Definition scripted (script : list HttpOutcome) (now : Z) : Transport :=
  mkTransport (fun n _ => nth n script NoRow) (fun _ => now) exact_pow.

(** A response row with a status, a body and a retry-after header. *)
Definition answer (status : Z) (body_ retry_after_ : string) : HttpOutcome :=
  Row (Some status) (Some body_) (Some "application/json")
      (if Str.empty retry_after_ then None else Some retry_after_).

(** A predicate on the site column that the absorber recognises: a
    [suffix] or [prefix] call or an equality or inequality with a VARCHAR
    constant, or an operator over the site column and VARCHAR constants
    only. *)
Definition site_predicate (filter : Expression) : bool :=
  match filter with
  | BoundFunction fname (c0 :: c1 :: _) =>
      (String.eqb fname "suffix" || String.eqb fname "prefix")
      && match site_constant c0 c1 with Some _ => true | None => false end
  | BoundOperator _ (BoundColumnRef name _ :: (_ :: _) as values) =>
      String.eqb name "site"
      && match in_list_values values with Some _ => true | None => false end
  | BoundComparison (COMPARE_EQUAL | COMPARE_NOTEQUAL) l r =>
      match site_constant l r with Some _ => true | None => false end
  | _ => false
  end.

(** A lower or upper bound on a column named "timestamp" or "date". *)
Definition date_predicate (filter : Expression) : bool :=
  match filter with
  | BoundComparison (COMPARE_GREATERTHAN | COMPARE_GREATERTHANOREQUALTO
                     | COMPARE_LESSTHAN | COMPARE_LESSTHANOREQUALTO)
                    (BoundColumnRef name _) (BoundConstant _) =>
      String.eqb name "timestamp" || String.eqb name "date"
  | _ => false
  end.

(** The indices, from [i] on, of the site predicates of a list. *)
Fixpoint site_predicate_indices (i : nat) (filters_ : list Expression) : list nat :=
  match filters_ with
  | [] => []
  | filter :: rest =>
      (if site_predicate filter then [i] else []) ++ site_predicate_indices (S i) rest
  end.

(** [k] pass-through projections above a plan. *)
Fixpoint projections (k : nat) (op : LogicalOperator) : LogicalOperator :=
  match k with
  | O => op
  | S k' => LOGICAL_PROJECTION (projections k' op)
  end.

(** Every [google_search] scan of a plan has a row cap of at most 100. *)
Definition caps_at_most_100 (op : LogicalOperator) : Prop :=
  Forall (fun bd => max_results bd <= 100) (google_search_scans op).

(** The three stretches of [BuildGoogleSearchUrl]: the URL up to the
    [siteSearch] parameter, the [dateRestrict] parameter, and the named
    filters with the field list (see [BuildGoogleSearchUrl_parts]). *)
Definition url_through_site_search (bind_data : GoogleSearchBindData) (start : Z)
    (site_filter : string) (use_or_sites : bool) : string :=
  let url := "https://www.googleapis.com/customsearch/v1" in
  let url := url +:+ "?key=" +:+ UrlEncode (api_key bind_data) in
  let url := url +:+ "&cx=" +:+ UrlEncode (cx bind_data) in
  let full_query := query bind_data in
  let full_query :=
    if negb (Str.empty (structured_data (filters bind_data)))
    then structured_data (filters bind_data) +:+ " " +:+ full_query
    else full_query in
  let full_query :=
    if use_or_sites && (1 <? length (site_includes bind_data))%nat then
      full_query +:+ " (" +:+ or_sites_clause 0 (site_includes bind_data) +:+ ")"
    else if use_or_sites && (length (site_includes bind_data) =? 1)%nat then
      match site_includes bind_data with
      | s :: _ => full_query +:+ " site:" +:+ s
      | [] => full_query
      end
    else full_query in
  let full_query := full_query +:+ exclude_sites_clause (site_excludes bind_data) in
  let url := url +:+ "&q=" +:+ UrlEncode full_query in
  let url := url +:+ "&num=10" in
  let url := url +:+ "&start=" +:+ pretty start in
  if negb (Str.empty site_filter)
  then (url +:+ "&siteSearch=" +:+ UrlEncode site_filter) +:+ "&siteSearchFilter=i"
  else url.

Definition date_param (now : Z) (bind_data : GoogleSearchBindData) : string :=
  if has_date_filter bind_data && negb (date_from bind_data =? 0) then
    let date_restrict :=
      TimestampToDateRestrict now (date_from bind_data) (date_to bind_data) in
    if negb (Str.empty date_restrict) then "&dateRestrict=" +:+ UrlEncode date_restrict
    else ""
  else "".

Definition url_named_filters (f : GoogleSearchFilters) : string :=
  let url := "" in
  let url := add_param url "&exactTerms=" (exact_terms f) in
  let url := add_param url "&excludeTerms=" (exclude_terms f) in
  let url := add_param url "&orTerms=" (or_terms f) in
  let url := add_param url "&fileType=" (file_type f) in
  let url := add_param url "&gl=" (gl f) in
  let url := add_param url "&hl=" (hl f) in
  let url := add_param url "&lr=" (language f) in
  let url := add_param url "&safe=" (safe f) in
  let url := add_param url "&rights=" (rights f) in
  let url := add_param url "&sort=" (sort f) in
  url +:+ "&fields=" +:+ UrlEncode response_fields.

(** The same request without its date bounds. *)
Definition without_date_filter (bd : GoogleSearchBindData) : GoogleSearchBindData :=
  mkBind (query bd) (api_key bd) (cx bd) (max_results bd) (column_names bd)
         (site_includes bd) (site_excludes bd) 0 0 false (filters bd).

(** The whole days from the lower bound to the clock reading, as
    [TimestampToDateRestrict] counts them. *)
Definition elapsed_days (now from_ts : Z) : Z :=
  Z.quot (now - Z.quot from_ts 1000000) 86400.

(** The token as the specification words it: none for a bound in the
    future, then by the number [d] of whole days. *)
Definition spec_date_token (now from_ts : Z) : string :=
  let d := elapsed_days now from_ts in
  if now * 1000000 <? from_ts then ""
  else if (1 <=? d) && (d <=? 7) then "d" +:+ pretty d
  else if (8 <=? d) && (d <=? 31) then "w" +:+ pretty ((d + 6) / 7)
  else if (32 <=? d) && (d <=? 365) then "m" +:+ pretty ((d + 29) / 30)
  else "y" +:+ pretty ((d + 364) / 365).

(** Pages for examples: [n] items whose links are on [host], and the next
    start index, if any; a reader that knows the listed bodies. *)
Definition item_on (host : string) (k : nat) : JsonItem :=
  mkItem "t" ("https://" +:+ host +:+ "/" +:+ pretty k) "" host "" "" "" "" "" "" None.

Definition page_on (host : string) (n : nat) (next : option Z) : JsonDoc :=
  mkDoc None (Some (List.map (item_on host) (seq 0 n))) next.

Fixpoint reader_of (pages : list (string * JsonDoc)) (body_ : string) : option JsonDoc :=
  match pages with
  | [] => None
  | (b, doc) :: rest => if String.eqb b body_ then Some doc else reader_of rest body_
  end.

(** Three scans for examples: the phrase "rust programming" under
    [LIMIT 15]; the phrase "x" on two sites with a cap of 150 (a cap no
    rewrite produces, see [capped_scan_is_combined]); and the bodies the
    example server sends. *)
Definition example_reader : string -> option JsonDoc :=
  reader_of [("a1", page_on "a.com" 10 (Some 11)); ("a2", page_on "a.com" 10 (Some 21));
             ("b1", page_on "b.com" 5 (Some 101)); ("none", page_on "b.com" 0 None)].

Definition rust_programming_15 : GoogleSearchBindData :=
  with_max_results (GoogleSearchBind "rust programming" "key" "cx" default_filters)
                   (Z.min 15 100).

Definition two_sites_150 : GoogleSearchBindData :=
  with_max_results
    (push_site_include
       (push_site_include (GoogleSearchBind "x" "key" "cx" default_filters) "a.com")
       "b.com")
    150.

(** A scan under [LIMIT 100] against a server that sends nine items a page:
    the pages for the start indices 1, 11, ..., 91 carry the continuation
    tokens 11, 21, ..., 101, and a request past the hundredth result is
    answered with status 400, as the API does. *)
Definition limit_100 : GoogleSearchBindData :=
  with_max_results (GoogleSearchBind "rust programming" "key" "cx" default_filters)
                   (Z.min 100 100).

Definition short_page (k : nat) : string * JsonDoc :=
  ("s" +:+ pretty k, page_on "a.com" 9 (Some (Z.of_nat (10 * k + 1)))).

Definition short_pages_reader : string -> option JsonDoc :=
  reader_of (List.map short_page (seq 1 10)).

Definition short_pages_server : Transport :=
  scripted (List.map (fun k => answer 200 ("s" +:+ pretty k) "") (seq 1 10)
            ++ [answer 400 "" ""]) 0.

(** A server whose first page carries the continuation token 100. *)
Definition token_100_reader : string -> option JsonDoc :=
  reader_of [("p1", page_on "a.com" 10 (Some 100)); ("p2", page_on "a.com" 10 (Some 110))].

(** The requests of a whole fetch, however it ended. *)
Definition trace_of (r : FetchResult) : list PageFetch :=
  match r with
  | Done trace _ _ | Failed trace _ | OutOfFuel trace => trace
  end.

(** A request after which its cursor is due to be marked: the parse
    returned a negative next start (no continuation token, or no items), or
    the request itself started at 100 or beyond. *)
Definition exhausting (r : PageFetch) : Prop :=
  exists next_start_, pf_next_start r = Some next_start_ /\
                      (next_start_ < 0 \/ 100 <= pf_start r).

(** No request follows, on the same cursor, a request that exhausted it. *)
Definition never_refetched (trace : list PageFetch) : Prop :=
  forall before r after, trace = before ++ r :: after -> exhausting r ->
    Forall (fun r' => pf_cursor r' <> pf_cursor r) after.

(** The records a whole fetch leaves in the state (none when it throws). *)
Definition results_of (r : FetchResult) : list GoogleSearchResult :=
  match r with
  | Done _ st _ => results st
  | Failed _ _ | OutOfFuel _ => []
  end.

Section PaginationVocabulary.

Variable bind_data : GoogleSearchBindData.

Local Abbreviation n_sites := (length (site_includes bind_data)).

(** The request an iteration of the per-site loop issues from [st]. *)
Definition per_site_request (st : GoogleSearchGlobalState) (req : PageFetch) : Prop :=
  let idx := next_site (site_states st) n_sites n_sites (current_site_idx st) in
  Z.of_nat (length (results st)) < max_results bind_data /\
  exhausted_at (site_states st) idx = false /\
  pf_cursor req = Some idx /\
  pf_start req = site_next_start (default default_site_state (site_states st !! idx)) /\
  pf_site_filter req = default "" (site_includes bind_data !! idx) /\
  pf_use_or_sites req = false.

(** The request an iteration of the single-query loop issues from [st]. *)
Definition combined_request (has_sites : bool) (st : GoogleSearchGlobalState)
    (req : PageFetch) : Prop :=
  Z.of_nat (length (results st)) < max_results bind_data /\
  fetch_complete st = false /\
  pf_cursor req = None /\
  pf_start req = next_start st /\
  pf_site_filter req = "" /\
  pf_use_or_sites req = has_sites.

(** In the per-site loop the cursors are as many as the sites and the
    round-robin index is one of them. *)
Definition per_site_inv (st : GoogleSearchGlobalState) : Prop :=
  length (site_states st) = n_sites /\ (current_site_idx st < n_sites)%nat.

(** What decreases at every iteration of the per-site loop. *)
Definition per_site_measure (st : GoogleSearchGlobalState) : nat :=
  (Z.to_nat (max_results bind_data - Z.of_nat (length (results st)))
   + active_sites (site_states st))%nat.

(** What decreases at every iteration of the single-query loop. *)
Definition combined_measure (st : GoogleSearchGlobalState) : nat :=
  if fetch_complete st then 0%nat
  else Z.to_nat (max_results bind_data - Z.of_nat (length (results st))).

(** Every exhausting request of the trace left its cursor marked. *)
Definition per_site_trace_inv (tr : list PageFetch) (st : GoogleSearchGlobalState) : Prop :=
  per_site_inv st /\ never_refetched tr /\
  forall r, r ∈ tr -> exhausting r ->
    exists i, pf_cursor r = Some i /\ exhausted_at (site_states st) i = true.

Definition combined_trace_inv (tr : list PageFetch) (st : GoogleSearchGlobalState) : Prop :=
  never_refetched tr /\
  forall r, r ∈ tr -> exhausting r -> fetch_complete st = true.

End PaginationVocabulary.

(** ** Further code: draining the results (google_search_function.cpp) *)

(** One output row of [GoogleSearchScan]: the thirteen column values, [None]
    for SQL NULL. *)
Definition row_of (result : GoogleSearchResult) : list (option string) :=
  [Some (title result); Some (link result); Some (snippet result);
   Some (display_link result); Some (formatted_url result);
   Some (html_formatted_url result); Some (html_title result);
   Some (html_snippet result); Some (mime result); Some (file_format result);
   Some (pagemap result); Some (site result);
   if Str.empty (date result) then None else Some (date result)].

(** The [while (count < max_count && state.current_idx < state.results.size())]
    loop of [GoogleSearchScan]; [remaining] is [max_count - count] and [output]
    the rows set so far. *)
Fixpoint scan_rows (remaining : nat) (state : GoogleSearchGlobalState)
    (output : list (list (option string)))
    : list (list (option string)) * GoogleSearchGlobalState :=
  match remaining with
  | O => (output, state)
  | S remaining' =>
      match results state !! current_idx state with
      | Some result =>
          scan_rows remaining'
            (mkState (results state) (S (current_idx state)) (site_states state)
                     (current_site_idx state) (next_start state) (fetch_complete state))
            (output ++ [row_of result])
      | None => (output, state)
      end
  end.

(** [static void GoogleSearchScan(context, data, output)]: the chunk (its
    cardinality is its length) and the state after it.
    [STANDARD_VECTOR_SIZE] is DuckDB's. *)
Definition GoogleSearchScan (STANDARD_VECTOR_SIZE : nat) (state : GoogleSearchGlobalState)
    : list (list (option string)) * GoogleSearchGlobalState :=
  scan_rows STANDARD_VECTOR_SIZE state [].

(** [calls] successive calls of [GoogleSearchScan]: their chunks, and the
    state left. *)
Fixpoint scan_calls (STANDARD_VECTOR_SIZE : nat) (calls : nat)
    (state : GoogleSearchGlobalState)
    : list (list (list (option string))) * GoogleSearchGlobalState :=
  match calls with
  | O => ([], state)
  | S calls' =>
      let '(chunk, state') := GoogleSearchScan STANDARD_VECTOR_SIZE state in
      let '(chunks, state'') := scan_calls STANDARD_VECTOR_SIZE calls' state' in
      (chunk :: chunks, state'')
  end.

(** The requests of a single cursor that were answered with a next start:
    each starts where the one before pointed, below 100. *)
Inductive token_chain (first : Z) : list PageFetch -> Z -> Prop :=
| chain_nil : token_chain first [] first
| chain_snoc trace cursor r nxt :
    token_chain first trace cursor ->
    pf_start r = cursor -> pf_next_start r = Some nxt ->
    0 <= nxt -> cursor < 100 ->
    token_chain first (trace ++ [r]) nxt.

(** The page requests a scan can make at most. *)
Definition request_budget (bd : GoogleSearchBindData) : nat :=
  if use_per_site_queries bd
  then (Z.to_nat (max_results bd) + length (site_includes bd))%nat
  else Z.to_nat (max_results bd).





(** ** Vocabulary for the further properties of the transport *)

(** Every character of a string passes a test. *)
Fixpoint all_chars (p : ascii -> bool) (s : string) : bool :=
  match s with
  | EmptyString => true
  | String c rest => p c && all_chars p rest
  end.

(** The characters [UrlEncode] keeps as they are. *)
Definition unreserved (c : ascii) : bool :=
  isalnum c || Ascii.eqb c "-" || Ascii.eqb c "_" || Ascii.eqb c "." || Ascii.eqb c "~".

(** The value of a hexadecimal digit (0 for any other character). *)
Definition hex_value (c : ascii) : N :=
  let n := N_of_ascii c in
  if ((48 <=? n) && (n <=? 57))%N then (n - 48)%N
  else if ((65 <=? n) && (n <=? 70))%N then (n - 55)%N
  else 0%N.

(** Percent-decoding, the inverse that [UrlEncode] admits. *)
Fixpoint UrlDecode (s : string) : string :=
  match s with
  | EmptyString => EmptyString
  | String c rest =>
      if Ascii.eqb c "%" then
        match rest with
        | String h (String l rest') =>
            String (ascii_of_N (16 * hex_value h + hex_value l)) (UrlDecode rest')
        | _ => String c (UrlDecode rest)
        end
      else String c (UrlDecode rest)
  end.

(** The responses of the connection-level failures of [ExecuteHttpGet]. *)
Definition connection_failure (o : HttpOutcome) : bool :=
  match o with
  | LoadFailed | QueryError _ | NoRow => true
  | Row _ _ _ _ => false
  end.

(** The time a call of [Fetch] has slept, in milliseconds. *)
Definition slept_ms (run : FetchRun) : Z := foldr Z.add 0 (sleeps run).

(** ** Vocabulary for the further properties of the absorber *)

(** The comparison types of a lower bound ([lower = true]) and of an upper
    bound. *)
Definition date_bound_type (lower : bool) (ty : ExpressionType) : bool :=
  match ty, lower with
  | (COMPARE_GREATERTHAN | COMPARE_GREATERTHANOREQUALTO), true => true
  | (COMPARE_LESSTHAN | COMPARE_LESSTHANOREQUALTO), false => true
  | _, _ => false
  end.

(** The conversion of the constant of a date predicate. *)
Definition date_constant (FromString : string -> option Z) (FromDatetime : Z -> option Z)
    (filter : Expression) : option TimestampOf :=
  match filter with
  | BoundComparison _ _ (BoundConstant v) =>
      if date_predicate filter then Some (ts_value FromString FromDatetime v) else None
  | _ => None
  end.

(** The timestamp that a lower (or upper) bound on the date hands to the
    scan. *)
Definition stored_bound (FromString : string -> option Z) (FromDatetime : Z -> option Z)
    (lower : bool) (filter : Expression) : option Z :=
  match filter with
  | BoundComparison ty _ _ =>
      if date_bound_type lower ty then
        match date_constant FromString FromDatetime filter with
        | Some (IsTimestamp ts) => Some ts
        | _ => None
        end
      else None
  | _ => None
  end.

(** A date predicate whose constant cannot be converted to a timestamp. *)
Definition conversion_fails (FromString : string -> option Z) (FromDatetime : Z -> option Z)
    (filter : Expression) : bool :=
  match date_constant FromString FromDatetime filter with
  | Some CannotConvert => true
  | _ => false
  end.

(** Two bind data of the same search: query, credentials, row cap, columns
    and named filters agree. *)
Definition same_search (bd bd' : GoogleSearchBindData) : Prop :=
  query bd' = query bd /\ api_key bd' = api_key bd /\ cx bd' = cx bd /\
  max_results bd' = max_results bd /\ column_names bd' = column_names bd /\
  filters bd' = filters bd.

Definition has_bound (o : option Z) : bool :=
  match o with Some _ => true | None => false end.

(** What the absorber does to the bind data at one filter: a filter it
    removes adds patterns to one of the site lists and nothing else; a
    filter it keeps leaves the site lists and may store a date bound. *)
Definition filter_effect (FromString : string -> option Z) (FromDatetime : Z -> option Z)
    (bd : GoogleSearchBindData) (filter : Expression) (a : Absorbed) : Prop :=
  match a with
  | Removed bd' =>
      same_search bd bd' /\
      date_from bd' = date_from bd /\ date_to bd' = date_to bd /\
      has_date_filter bd' = has_date_filter bd /\
      (exists more, more <> [] /\
         ((site_includes bd' = site_includes bd ++ more /\ site_excludes bd' = site_excludes bd) \/
          (site_includes bd' = site_includes bd /\ site_excludes bd' = site_excludes bd ++ more))) /\
      date_constant FromString FromDatetime filter = None
  | Kept bd' =>
      same_search bd bd' /\
      site_includes bd' = site_includes bd /\ site_excludes bd' = site_excludes bd /\
      date_from bd' = default (date_from bd) (stored_bound FromString FromDatetime true filter) /\
      date_to bd' = default (date_to bd) (stored_bound FromString FromDatetime false filter) /\
      has_date_filter bd' =
        has_date_filter bd
        || has_bound (stored_bound FromString FromDatetime true filter)
        || has_bound (stored_bound FromString FromDatetime false filter) /\
      conversion_fails FromString FromDatetime filter = false
  | ConversionThrows => conversion_fails FromString FromDatetime filter = true
  end.

(** A conjunction of five predicates for the examples: two on the site,
    two lower bounds on the date, and one that the absorber does not know. *)
Definition example_FromString (s : string) : option Z :=
  if String.eqb s "2024-01-01" then Some 1704067200000000
  else if String.eqb s "2023-01-01" then Some 1672531200000000
  else None.

Definition example_FromDatetime (d : Z) : option Z := Some (d * 86400000000).

Definition varchar (s : string) : Expression := BoundConstant (mkValue VARCHAR s 0).

Definition example_filters : list Expression :=
  [BoundComparison COMPARE_EQUAL (BoundColumnRef "site" 11) (varchar "example.com");
   BoundComparison COMPARE_GREATERTHANOREQUALTO (BoundColumnRef "date" 12) (varchar "2024-01-01");
   BoundFunction "contains" [BoundColumnRef "title" 0; varchar "rust"];
   BoundComparison COMPARE_GREATERTHAN (BoundColumnRef "date" 12) (varchar "2023-01-01");
   BoundComparison COMPARE_NOTEQUAL (BoundColumnRef "site" 11) (varchar "spam.example")].

Definition example_residual : list Expression :=
  [BoundComparison COMPARE_GREATERTHANOREQUALTO (BoundColumnRef "date" 12) (varchar "2024-01-01");
   BoundFunction "contains" [BoundColumnRef "title" 0; varchar "rust"];
   BoundComparison COMPARE_GREATERTHAN (BoundColumnRef "date" 12) (varchar "2023-01-01")].

Definition example_bind : GoogleSearchBindData := GoogleSearchBind "rust" "key" "cx" default_filters.

Definition example_absorbed : GoogleSearchBindData :=
  push_site_exclude
    (set_date_from (push_site_include example_bind "example.com") 1672531200000000)
    "spam.example".

(** ** Vocabulary for the further properties of the plan rewrites *)

(** A plan with the bind data of its [google_search] scans blanked: what
    is left is the operators, their order, their limits and orders, and the
    scans of other functions. *)
Fixpoint plan_shape (op : LogicalOperator) : LogicalOperator :=
  match op with
  | LOGICAL_LIMIT limit_val child => LOGICAL_LIMIT limit_val (plan_shape child)
  | LOGICAL_PROJECTION child => LOGICAL_PROJECTION (plan_shape child)
  | LOGICAL_ORDER_BY orders child => LOGICAL_ORDER_BY orders (plan_shape child)
  | LOGICAL_GET name bd children =>
      LOGICAL_GET name
        (if String.eqb name "google_search" then GoogleSearchBind "" "" "" default_filters else bd)
        (List.map plan_shape children)
  | LOGICAL_OTHER children => LOGICAL_OTHER (List.map plan_shape children)
  end.

(** The sort token of an order type. *)
Definition date_sort_token (ot : OrderType) : string :=
  match ot with DESCENDING => "date:d" | _ => "date:a" end.

(** The named filters of a URL before the sort parameter. *)
Definition url_filters_before_sort (f : GoogleSearchFilters) : string :=
  let url := "" in
  let url := add_param url "&exactTerms=" (exact_terms f) in
  let url := add_param url "&excludeTerms=" (exclude_terms f) in
  let url := add_param url "&orTerms=" (or_terms f) in
  let url := add_param url "&fileType=" (file_type f) in
  let url := add_param url "&gl=" (gl f) in
  let url := add_param url "&hl=" (hl f) in
  let url := add_param url "&lr=" (language f) in
  let url := add_param url "&safe=" (safe f) in
  add_param url "&rights=" (rights f).

(** The exceptions one page of a scan can raise: the failure of the
    request, a body that is not JSON, or an error object in the body. *)
Definition raised_by_page (e : Exception) : Prop :=
  (exists response, success response = false /\ e = http_failure response) \/
  e = IOException "Failed to parse Google Search API response as JSON" \/
  (exists message, e = InvalidInputException ("Google Search API error: " +:+ message)).

(** The first request of a scan in the single-query mode. *)
Definition first_url (w : Transport) (bind_data : GoogleSearchBindData) : string :=
  BuildGoogleSearchUrl (clock w 0) bind_data 1 ""
    (negb (Nat.eqb (length (site_includes bind_data)) 0)).

(** The characters of a request URL: the unreserved ones, the percent sign
    of an escape, and the separators the builder writes itself. *)
Definition url_char (c : ascii) : bool := unreserved c || Str.mem c "%:/?&=".

(** ** The annotation file writer (annotation_copy.cpp) *)

Definition MAX_ANNOTATIONS : Z := 5000.
Definition MAX_FILE_SIZE_BYTES : Z := 30 * 1024.

(** The line feed and the double quote of the C++ string literals. *)
Definition LF : string := String "010"%char EmptyString.
Definition QUOT : string := String "034"%char EmptyString.

(** The [switch] of [XmlEscape] for one character. *)
Definition xml_entity (c : ascii) : string :=
  if Ascii.eqb c "&" then "&amp;"
  else if Ascii.eqb c "<" then "&lt;"
  else if Ascii.eqb c ">" then "&gt;"
  else if Ascii.eqb c "034" then "&quot;"
  else if Ascii.eqb c "'" then "&apos;"
  else String c EmptyString.

(** [static string XmlEscape(const string &input)] *)
Fixpoint XmlEscape (input : string) : string :=
  match input with
  | EmptyString => EmptyString
  | String c rest => xml_entity c +:+ XmlEscape rest
  end.

(** The column types [AnnotationCopyBind] tells apart. *)
Inductive SqlTypeId :=
| SQL_VARCHAR | SQL_DOUBLE | SQL_FLOAT | SQL_DECIMAL | SQL_INTEGER | SQL_OTHER.

Definition is_varchar (t : SqlTypeId) : bool :=
  match t with SQL_VARCHAR => true | _ => false end.

(** [struct AnnotationCopyBindData]; [None] is [DConstants::INVALID_INDEX]. *)
Record AnnotationCopyBindData := mkAnnotationBind {
  url_pattern_idx : nat;
  action_idx : nat;
  comment_idx : option nat;
  score_idx : option nat;
  has_comment : bool;
  has_score : bool
}.

Inductive BindError := BinderException (msg : string).

(** [AnnotationCopyBind(context, input, names, sql_types)] *)
Definition AnnotationCopyBind (sql_types : list SqlTypeId) : BindError + AnnotationCopyBindData :=
  if (length sql_types <? 2)%nat || (4 <? length sql_types)%nat then
    inl (BinderException
           ("google_pse_annotation format requires 2-4 columns:" +:+ LF
            +:+ "  (url_pattern VARCHAR, action VARCHAR [, comment VARCHAR] [, score DOUBLE])"))
  else if negb (is_varchar (default SQL_OTHER (sql_types !! 0%nat))) then
    inl (BinderException "First column (url_pattern) must be VARCHAR")
  else if negb (is_varchar (default SQL_OTHER (sql_types !! 1%nat))) then
    inl (BinderException "Second column (action) must be VARCHAR ('include' or 'exclude')")
  else if (3 <=? length sql_types)%nat
          && negb (is_varchar (default SQL_OTHER (sql_types !! 2%nat))) then
    inl (BinderException "Third column (comment) must be VARCHAR")
  else if (length sql_types =? 4)%nat
          && match default SQL_OTHER (sql_types !! 3%nat) with
             | SQL_DOUBLE | SQL_FLOAT | SQL_DECIMAL | SQL_INTEGER => false
             | _ => true
             end then
    inl (BinderException
           "Fourth column (score) must be numeric (DOUBLE recommended, range -1.0 to 1.0)")
  else
    inr (mkAnnotationBind 0 1
           (if (3 <=? length sql_types)%nat then Some 2%nat else None)
           (if (length sql_types =? 4)%nat then Some 3%nat else None)
           (3 <=? length sql_types)%nat
           (length sql_types =? 4)%nat).

(** [struct AnnotationCopyGlobalState] (without the mutex); [handle] is what
    has been written to the file. *)
Record AnnotationCopyGlobalState := mkAnnotationState {
  handle : string;
  annotation_count : Z;
  bytes_written : Z
}.

Definition annotation_header : string :=
  "<?xml version=" +:+ QUOT +:+ "1.0" +:+ QUOT +:+ " encoding=" +:+ QUOT +:+ "UTF-8"
  +:+ QUOT +:+ "?>" +:+ LF +:+ "<Annotations>" +:+ LF.

Definition annotation_footer : string := "</Annotations>" +:+ LF.

(** [AnnotationCopyInitializeGlobal], once the file has been created. *)
Definition AnnotationCopyInitializeGlobal : AnnotationCopyGlobalState :=
  mkAnnotationState annotation_header 0 (Z.of_nat (String.length annotation_header)).

(** [score < -1.0 || score > 1.0]; every comparison with a NaN is false. *)
Definition score_out_of_range (score : double) : bool :=
  match score with
  | finite q => negb (Qle_bool (-1) q) || negb (Qle_bool q 1)
  | infinity _ => true
  | nan => false
  end.

(** One row of the chunk given to the sink; [None] is NULL.  The score is
    the value after the cast to DOUBLE. *)
Record AnnotationRow := mkAnnotationRow {
  row_url_pattern : option string;
  row_action : option string;
  row_comment : option string;
  row_score : option double
}.

Section AnnotationSink.

(** [StringUtil::Lower] and [snprintf] with a format and a [double]. *)
Variable Lower : string -> string.
Variable snprintf : string -> double -> string.

Variable bdata : AnnotationCopyBindData.

(** The text of one annotation, from "Build annotation XML" to the closing
    tag. *)
Definition annotation_xml (url_pattern label_name score_attr : string)
    (row : AnnotationRow) : string :=
  let xml := "  <Annotation about=" +:+ QUOT +:+ XmlEscape url_pattern +:+ QUOT
             +:+ score_attr +:+ ">" +:+ LF in
  let xml := xml +:+ ("    <Label name=" +:+ QUOT +:+ label_name +:+ QUOT +:+ "/>" +:+ LF) in
  let xml :=
    if has_comment bdata then
      match row_comment row with
      | Some comment =>
          if negb (Str.empty comment)
          then xml +:+ ("    <Comment>" +:+ XmlEscape comment +:+ "</Comment>" +:+ LF)
          else xml
      | None => xml
      end
    else xml in
  xml +:+ ("  </Annotation>" +:+ LF).

(** The body of the [for] loop of [AnnotationCopySink] for one row. *)
Definition sink_row (state : AnnotationCopyGlobalState) (row : AnnotationRow)
    : Exception + AnnotationCopyGlobalState :=
  if annotation_count state >=? MAX_ANNOTATIONS then
    inl (InvalidInputException
           ("Google PSE annotation limit exceeded: maximum " +:+ pretty MAX_ANNOTATIONS
            +:+ " annotations allowed"))
  else
    match row_url_pattern row, row_action row with
    | Some url_pattern, Some action_ =>
        let action := Lower action_ in
        if negb (String.eqb action "include") && negb (String.eqb action "exclude") then
          inl (InvalidInputException
                 ("Invalid action '" +:+ action +:+ "'. Must be 'include' or 'exclude'"))
        else
          let label_name := if String.eqb action "include" then "_include_" else "_exclude_" in
          let score_attr :=
            if has_score bdata then
              match row_score row with
              | Some score =>
                  if score_out_of_range score then
                    inl (InvalidInputException
                           ("Invalid score " +:+ snprintf "%.2f" score
                            +:+ ". Must be between -1.0 and 1.0"))
                  else inr (" score=" +:+ QUOT +:+ snprintf "%.1f" score +:+ QUOT)
              | None => inr ""
              end
            else inr "" in
          match score_attr with
          | inl e => inl e
          | inr score_attr =>
              let xml := annotation_xml url_pattern label_name score_attr row in
              if bytes_written state + Z.of_nat (String.length xml) + 15
                 >? MAX_FILE_SIZE_BYTES then
                inl (InvalidInputException
                       ("Google PSE annotation file size limit exceeded: maximum "
                        +:+ pretty MAX_FILE_SIZE_BYTES +:+ " bytes allowed"))
              else
                inr (mkAnnotationState (handle state +:+ xml)
                                       (annotation_count state + 1)
                                       (bytes_written state + Z.of_nat (String.length xml)))
          end
    | _, _ => inr state
    end.

(** [AnnotationCopySink] on one chunk: the state when the loop ends or
    throws, with the exception if any. *)
Fixpoint AnnotationCopySink (state : AnnotationCopyGlobalState) (input : list AnnotationRow)
    : AnnotationCopyGlobalState * option Exception :=
  match input with
  | [] => (state, None)
  | row :: rest =>
      match sink_row state row with
      | inl e => (state, Some e)
      | inr state' => AnnotationCopySink state' rest
      end
  end.

(** The sink called on the chunks of a COPY one after the other, until one
    call throws. *)
Fixpoint sink_chunks (state : AnnotationCopyGlobalState) (chunks : list (list AnnotationRow))
    : AnnotationCopyGlobalState * option Exception :=
  match chunks with
  | [] => (state, None)
  | input :: rest =>
      match AnnotationCopySink state input with
      | (state', None) => sink_chunks state' rest
      | thrown => thrown
      end
  end.

End AnnotationSink.

(** [AnnotationCopyFinalize]: the file after the closing tag. *)
Definition AnnotationCopyFinalize (state : AnnotationCopyGlobalState) : string :=
  handle state +:+ annotation_footer.

(** Undoing [XmlEscape]: the five entities back to their characters. *)
Fixpoint XmlUnescape (s : string) : string :=
  match s with
  | EmptyString => EmptyString
  | String c rest =>
      if Ascii.eqb c "&" then
        match rest with
        | String "a" (String "m" (String "p" (String ";" r))) => String "&" (XmlUnescape r)
        | String "l" (String "t" (String ";" r)) => String "<" (XmlUnescape r)
        | String "g" (String "t" (String ";" r)) => String ">" (XmlUnescape r)
        | String "q" (String "u" (String "o" (String "t" (String ";" r)))) =>
            String "034" (XmlUnescape r)
        | String "a" (String "p" (String "o" (String "s" (String ";" r)))) =>
            String "'" (XmlUnescape r)
        | _ => String c (XmlUnescape rest)
        end
      else String c (XmlUnescape rest)
  end.

(** The characters that end an attribute value or open a tag. *)
Definition xml_special (c : ascii) : bool := Str.mem c ("<>'" +:+ QUOT).

(** The column lists that [AnnotationCopyBind] accepts. *)
Definition numeric_type (t : SqlTypeId) : bool :=
  match t with SQL_DOUBLE | SQL_FLOAT | SQL_DECIMAL | SQL_INTEGER => true | _ => false end.

(** The rows of a chunk that hold an annotation. *)
Definition has_annotation (row : AnnotationRow) : bool :=
  match row_url_pattern row, row_action row with
  | Some _, Some _ => true
  | _, _ => false
  end.

(** What holds of the state between two rows. *)
Definition sink_inv (state : AnnotationCopyGlobalState) : Prop :=
  0 <= annotation_count state <= MAX_ANNOTATIONS /\
  bytes_written state = Z.of_nat (String.length (handle state)) /\
  bytes_written state + 15 <= MAX_FILE_SIZE_BYTES /\
  exists annotations, handle state = annotation_header +:+ annotations.

(* ===================================================================== *)
(** * Part II: properties                                                 *)
(* ===================================================================== *)

Example ExtractDomain_ex1 :
  ExtractDomain "https://user@www.example.com:8080/a/b?c=d" = "user@www.example.com:8080".
Proof. reflexivity. Qed.

Example ExtractDomain_ex2 : ExtractDomain "example.com/a://b" = "b".
Proof. reflexivity. Qed.

Example UrlEncode_ex : UrlEncode "a b/c~d:(e)" = "a%20b%2Fc~d%3A%28e%29".
Proof. reflexivity. Qed.


(** ** Strings *)

Section StringFacts.

Lemma app_cons (x : ascii) (a b : string) : String x a +:+ b = String x (a +:+ b).
Proof. reflexivity. Qed.

Lemma app_nil_l (b : string) : "" +:+ b = b.
Proof. reflexivity. Qed.

Lemma app_assoc_s (a b c : string) : (a +:+ b) +:+ c = a +:+ b +:+ c.
Proof.
  induction a as [|x a IH]; [reflexivity|]. now rewrite !app_cons, IH.
Qed.

Lemma app_empty_r (a : string) : a +:+ "" = a.
Proof. induction a as [|x a IH]; [reflexivity|]. now rewrite app_cons, IH. Qed.

Lemma length_app_s (a b : string) :
  String.length (a +:+ b) = (String.length a + String.length b)%nat.
Proof.
  induction a as [|x a IH]; [reflexivity|]. rewrite app_cons. simpl. now rewrite IH.
Qed.

Lemma drop_app_length (a b : string) : Str.drop (String.length a) (a +:+ b) = b.
Proof.
  induction a as [|x a IH]; [now destruct b|]. rewrite app_cons. exact IH.
Qed.

Lemma drop_length_le (n : nat) (s : string) :
  (String.length (Str.drop n s) = String.length s - n)%nat.
Proof.
  revert s; induction n as [|n IH]; intros [|c s]; simpl; try reflexivity.
  apply IH.
Qed.

Lemma take_app_length (a b : string) : Str.take (String.length a) (a +:+ b) = a.
Proof.
  induction a as [|x a IH]; [now destruct b|]. rewrite app_cons. simpl. now rewrite IH.
Qed.

Lemma take_all (a : string) : Str.take (String.length a) a = a.
Proof. induction a as [|x a IH]; simpl; [reflexivity | now rewrite IH]. Qed.

Lemma prefix_app (p s : string) :
  Str.starts_with p s = true <-> exists post, s = p +:+ post.
Proof.
  revert s; induction p as [|x p IH]; intros s; simpl.
  - split; [intros _; now exists s | reflexivity].
  - destruct s as [|y s].
    + split; [discriminate | intros [post H]; discriminate].
    + destruct (Ascii.eqb_spec x y) as [->|Hxy]; simpl.
      * rewrite IH. split; intros [post H]; exists post; [now rewrite H|].
        rewrite app_cons in H. congruence.
      * split; [discriminate | intros [post H]; rewrite app_cons in H; congruence].
Qed.

Lemma find_Some (needle s : string) (n : nat) :
  Str.find needle s = Some n ->
  exists pre post, first_occurrence needle s pre post /\ String.length pre = n.
Proof.
  revert n; induction s as [|c s IH]; intros n; simpl.
  - destruct (Str.starts_with needle "") eqn:Hp; [|discriminate].
    intros [= <-]. apply prefix_app in Hp as [post Hp].
    exists "", post. repeat split; [exact Hp | simpl; lia].
  - destruct (Str.starts_with needle (String c s)) eqn:Hp.
    + intros [= <-]. apply prefix_app in Hp as [post Hp].
      exists "", post. repeat split; [exact Hp | simpl; lia].
    + destruct (Str.find needle s) as [m|] eqn:Hf; [|discriminate].
      intros [= <-]. destruct (IH m eq_refl) as (pre & post & [Heq Hmin] & Hlen).
      exists (String c pre), post. repeat split.
      * now rewrite app_cons, <- Heq.
      * intros [|c' pre'] post' H'.
        -- exfalso. rewrite app_nil_l in H'.
           assert (Str.starts_with needle (String c s) = true) as Hp'
             by (apply prefix_app; now exists post').
           congruence.
        -- rewrite app_cons in H'. injection H' as -> H'. simpl.
           apply Hmin in H'. lia.
      * simpl. now rewrite Hlen.
Qed.

Lemma find_None (needle s : string) :
  Str.find needle s = None -> absent needle s.
Proof.
  induction s as [|c s IH]; simpl.
  - destruct (Str.starts_with needle "") eqn:Hp; [discriminate|].
    intros _ [|c' pre] post H; [|discriminate].
    rewrite app_nil_l in H.
    assert (Str.starts_with needle "" = true) by (apply prefix_app; now exists post).
    congruence.
  - destruct (Str.starts_with needle (String c s)) eqn:Hp; [discriminate|].
    destruct (Str.find needle s) eqn:Hf; [discriminate|].
    intros _ [|c' pre] post H.
    + rewrite app_nil_l in H.
      assert (Str.starts_with needle (String c s) = true)
        by (apply prefix_app; now exists post).
      congruence.
    + rewrite app_cons in H. injection H as -> H. now apply (IH eq_refl pre post).
Qed.

Lemma find_first (needle s pre post : string) :
  first_occurrence needle s pre post -> Str.find needle s = Some (String.length pre).
Proof.
  intros [Heq Hmin]. destruct (Str.find needle s) as [n|] eqn:Hf.
  - apply find_Some in Hf as (pre' & post' & [Heq' Hmin'] & <-).
    f_equal. apply Nat.le_antisymm; [now apply (Hmin' pre post) | now apply (Hmin pre' post')].
  - apply find_None in Hf. now destruct (Hf pre post).
Qed.

Lemma find_absent (needle s : string) : absent needle s -> Str.find needle s = None.
Proof.
  intros Habs. destruct (Str.find needle s) as [n|] eqn:Hf; [|reflexivity].
  apply find_Some in Hf as (pre & post & [Heq _] & _). now destruct (Habs pre post).
Qed.

End StringFacts.

(** ** [ExtractDomain] *)

Section ExtractDomainFacts.

Lemma mem_split (c : ascii) (s : string) :
  Str.mem c s = true -> exists a b, s = a +:+ String c b.
Proof.
  induction s as [|x s IH]; simpl; [discriminate|].
  destruct (Ascii.eqb_spec x c) as [->|Hne].
  - intros _. now exists "", s.
  - intros H. destruct (IH H) as (a & b & ->). now exists (String x a), b.
Qed.

Lemma mem_app (c : ascii) (a b : string) :
  Str.mem c (a +:+ b) = Str.mem c a || Str.mem c b.
Proof.
  induction a as [|x a IH]; [reflexivity|]. rewrite app_cons. simpl.
  destruct (Ascii.eqb x c); [reflexivity | exact IH].
Qed.

Lemma absent_mem (c : ascii) (s : string) :
  absent (String c "") s -> Str.mem c s = false.
Proof.
  intros Habs. destruct (Str.mem c s) eqn:Hm; [|reflexivity].
  apply mem_split in Hm as (a & b & ->). now destruct (Habs a b).
Qed.

Lemma mem_absent (c : ascii) (s : string) :
  Str.mem c s = false -> absent (String c "") s.
Proof.
  intros Hm pre post ->. rewrite mem_app in Hm. rewrite app_cons in Hm. simpl in Hm.
  rewrite Ascii.eqb_refl in Hm. now destruct (Str.mem c pre).
Qed.

Lemma first_occurrence_mem (c : ascii) (s pre post : string) :
  first_occurrence (String c "") s pre post -> Str.mem c pre = false.
Proof.
  intros [-> Hmin]. destruct (Str.mem c pre) eqn:Hm; [|reflexivity].
  apply mem_split in Hm as (a & b & ->).
  specialize (Hmin a (b +:+ String c "" +:+ post)).
  rewrite length_app_s in Hmin. simpl in Hmin.
  assert (String.length a + S (String.length b) <= String.length a)%nat; [|lia].
  apply Hmin. now rewrite !app_assoc_s.
Qed.

Lemma mem_first_occurrence (c : ascii) (host tail : string) :
  Str.mem c host = false ->
  first_occurrence (String c "") (host +:+ String c "" +:+ tail) host tail.
Proof.
  intros Hm. split; [reflexivity|].
  induction host as [|x host IH]; intros pre' post' H; [simpl; lia|].
  simpl in Hm. destruct (Ascii.eqb_spec x c) as [->|Hne]; [discriminate|].
  destruct pre' as [|y pre'].
  - rewrite app_nil_l, !app_cons in H. congruence.
  - rewrite !app_cons in H. injection H as _ H. simpl.
    specialize (IH Hm pre' post' H). lia.
Qed.

Lemma find_from_drop (needle s : string) (start : nat) :
  (start <= String.length s)%nat ->
  Str.find_from needle start s
  = (fun k => (start + k)%nat) <$> Str.find needle (Str.drop start s).
Proof.
  intros H. unfold Str.find_from.
  destruct (Nat.ltb_spec (String.length s) start); [lia | reflexivity].
Qed.

(** [ExtractDomain] on the text that follows the scheme separator. *)
Lemma host_after (url rest host : string) (start : nat) :
  (start <= String.length url)%nat -> Str.drop start url = rest ->
  host_of rest host ->
  Str.substr start
    (match Str.find_from "/" start url with
     | Some e => e
     | None => String.length url
     end - start) url = host.
Proof.
  intros Hle Hdrop [Hm Hrest]. rewrite find_from_drop by exact Hle.
  unfold Str.substr. rewrite Hdrop.
  destruct Hrest as [->|[tail ->]].
  - rewrite (find_absent "/" host) by now apply mem_absent.
    simpl. rewrite <- (drop_length_le start url), Hdrop. apply take_all.
  - rewrite (find_first "/" _ host tail) by now apply mem_first_occurrence.
    simpl. replace (start + String.length host - start)%nat with (String.length host) by lia.
    apply take_app_length.
Qed.

Lemma ExtractDomain_unique (link site_ : string) :
  site_of_link link site_ -> ExtractDomain link = site_.
Proof.
  intros (rest & Hscheme & Hhost). unfold ExtractDomain.
  destruct Hscheme as [[Habs ->]|[pre Hfirst]].
  - rewrite (find_absent _ _ Habs). apply (host_after link link); [lia | reflexivity | exact Hhost].
  - rewrite (find_first _ _ _ _ Hfirst). destruct Hfirst as [-> _].
    apply (host_after _ rest); [| | exact Hhost].
    + rewrite !length_app_s. simpl. lia.
    + replace (String.length pre + 3)%nat with (String.length (pre +:+ "://"))
        by (rewrite length_app_s; reflexivity).
      rewrite <- app_assoc_s. apply drop_app_length.
Qed.

Lemma host_of_total (rest : string) : exists host, host_of rest host.
Proof.
  destruct (Str.find "/" rest) as [n|] eqn:Hf.
  - apply find_Some in Hf as (h & tail & Hfirst & _). exists h. split.
    + now apply first_occurrence_mem in Hfirst.
    + right. exists tail. apply Hfirst.
  - apply find_None in Hf. exists rest. split; [now apply absent_mem | now left].
Qed.

Lemma site_of_link_total (link : string) : exists site_, site_of_link link site_.
Proof.
  destruct (Str.find "://" link) as [n|] eqn:Hf.
  - apply find_Some in Hf as (pre & rest & Hfirst & _).
    destruct (host_of_total rest) as [h Hh]. exists h, rest. split; [right; now exists pre | exact Hh].
  - apply find_None in Hf. destruct (host_of_total link) as [h Hh].
    exists h, link. split; [now left | exact Hh].
Qed.

Lemma ExtractDomain_spec (link : string) : site_of_link link (ExtractDomain link).
Proof.
  destruct (site_of_link_total link) as [s Hs].
  now rewrite (ExtractDomain_unique _ _ Hs).
Qed.

End ExtractDomainFacts.

(** ** Loops, pages and cursors *)

Section LoopFacts.

Variable step : GoogleSearchGlobalState -> nat -> Step.
Variable Inv : list PageFetch -> GoogleSearchGlobalState -> Prop.
Variable Good : list PageFetch -> Prop.

Hypothesis Inv_Good : forall tr st, Inv tr st -> Good tr.
Hypothesis step_Continue : forall tr st t req st' t',
  Inv tr st -> step st t = Continue req st' t' -> Inv (tr ++ [req]) st'.
Hypothesis step_Thrown : forall tr st t req e,
  Inv tr st -> step st t = Thrown req e -> Good (tr ++ [req]).
Hypothesis step_Finished : forall tr st t st' t',
  Inv tr st -> step st t = Finished st' t' -> Inv tr st'.

Lemma run_loop_trace (fuel : nat) : forall tr st t,
  Inv tr st -> Good (trace_of (run_loop step fuel tr st t)).
Proof.
induction fuel as [|fuel IH]; intros tr st t HI; simpl.
- now apply Inv_Good with st.
- destruct (step st t) as [st' t'|req e|req st' t'] eqn:Hs; simpl.
  + apply Inv_Good with st'. now apply step_Finished with st t t'.
  + now apply step_Thrown with st t e.
  + apply IH. now apply step_Continue with st t t'.
Qed.

Lemma run_loop_Done (fuel : nat) : forall tr st t tr' st' t',
  Inv tr st -> run_loop step fuel tr st t = Done tr' st' t' -> Inv tr' st'.
Proof.
induction fuel as [|fuel IH]; intros tr st t tr' st' t' HI; simpl; [discriminate|].
destruct (step st t) as [st1 t1|req e|req st1 t1] eqn:Hs; try discriminate.
- intros [= <- <- <-]. now apply step_Finished with st t t1.
- apply IH. now apply step_Continue with st t t1.
Qed.

End LoopFacts.

Section Termination.

Variable step : GoogleSearchGlobalState -> nat -> Step.
Variable measure : GoogleSearchGlobalState -> nat.
Variable I : GoogleSearchGlobalState -> Prop.
Hypothesis step_decreases : forall st t req st' t',
  I st -> step st t = Continue req st' t' -> I st' /\ (measure st' < measure st)%nat.

Lemma run_loop_fuel (fuel : nat) : forall tr st t,
  I st -> (measure st < fuel)%nat ->
  forall tr', run_loop step fuel tr st t <> OutOfFuel tr'.
Proof.
induction fuel as [|fuel IH]; intros tr st t HI Hlt tr'; [lia|]. simpl.
destruct (step st t) as [st1 t1|req e|req st1 t1] eqn:Hs; try discriminate.
destruct (step_decreases _ _ _ _ _ HI Hs). apply IH; [assumption | lia].
Qed.

End Termination.

Section PushItems.

Lemma push_items_app (items : list JsonItem) (max_ : Z) : forall res,
  exists added, push_items items res max_ = res ++ List.map result_of_item added.
Proof.
induction items as [|item items IH]; intros res; simpl.
- exists []. now rewrite app_nil_r.
- destruct (Z.of_nat (length res) >=? max_).
  + exists []. now rewrite app_nil_r.
  + destruct (IH (res ++ [result_of_item item])) as [added ->].
    exists (item :: added). now rewrite <- app_assoc.
Qed.

Lemma push_items_grows (item : JsonItem) (items : list JsonItem) (max_ : Z)
  (res : list GoogleSearchResult) :
Z.of_nat (length res) < max_ ->
(length res < length (push_items (item :: items) res max_))%nat.
Proof.
intros Hlt. simpl. destruct (Z.geb_spec (Z.of_nat (length res)) max_); [lia|].
destruct (push_items_app items max_ (res ++ [result_of_item item])) as [added ->].
rewrite !length_app. simpl. lia.
Qed.

Lemma push_items_Forall (P : GoogleSearchResult -> Prop) (items : list JsonItem)
  (max_ : Z) (res : list GoogleSearchResult) :
(forall item, P (result_of_item item)) -> Forall P res ->
Forall P (push_items items res max_).
Proof.
intros HP Hres. destruct (push_items_app items max_ res) as [added ->].
apply Forall_app. split; [exact Hres|]. apply Forall_forall. intros r Hr.
apply list_elem_of_In, in_map_iff in Hr as (item & <- & _). apply HP.
Qed.

End PushItems.

Section SiteStates.

Lemma active_sites_insert (ss : list SitePaginationState) (i : nat)
  (s s' : SitePaginationState) :
ss !! i = Some s -> exhausted s = false ->
(active_sites (<[i := s']> ss) + (if exhausted s' then 1 else 0)
 = active_sites ss)%nat.
Proof.
revert i; induction ss as [|x ss IH]; intros [|i] Hl Hs; simpl in *; try discriminate.
- injection Hl as ->. rewrite Hs. destruct (exhausted s'); lia.
- rewrite <- (IH i Hl Hs). lia.
Qed.

Lemma next_site_lt (ss : list SitePaginationState) (n remaining idx : nat) :
(idx < n)%nat -> (next_site ss n remaining idx < n)%nat.
Proof.
revert idx; induction remaining as [|r IH]; intros idx Hlt; simpl; [exact Hlt|].
destruct (exhausted_at ss idx); [|exact Hlt].
apply IH. apply Nat.mod_upper_bound. lia.
Qed.

Lemma exhausted_at_insert_ne (ss : list SitePaginationState) (i j : nat)
  (s : SitePaginationState) :
i <> j -> exhausted_at (<[i := s]> ss) j = exhausted_at ss j.
Proof. intros Hne. unfold exhausted_at. now rewrite list_lookup_insert_ne. Qed.

Lemma exhausted_at_insert_eq (ss : list SitePaginationState) (i : nat)
  (s : SitePaginationState) :
(i < length ss)%nat -> exhausted_at (<[i := s]> ss) i = exhausted s.
Proof. intros Hlt. unfold exhausted_at. now rewrite list_lookup_insert_eq. Qed.

Lemma length_resize (ss : list SitePaginationState) (n : nat) :
length (resize_site_states ss n) = n.
Proof.
unfold resize_site_states. rewrite length_app, length_take, length_replicate. lia.
Qed.

End SiteStates.

Section PaginationFacts.

Variable w : Transport.
Variable yyjson_read : string -> option JsonDoc.
Variable bind_data : GoogleSearchBindData.

Local Abbreviation Parse := (ParseGoogleSearchResponse yyjson_read bind_data).
Local Abbreviation n_sites := (length (site_includes bind_data)).

(** What a successful parse changes: the results only. *)
Lemma Parse_inr (body_ : string) (st st' : GoogleSearchGlobalState) (nxt : Z) :
Parse body_ st = inr (st', nxt) ->
site_states st' = site_states st /\
current_site_idx st' = current_site_idx st /\
next_start st' = next_start st /\
fetch_complete st' = fetch_complete st /\
((st' = st /\ nxt = -1) \/
 exists item items,
   results st' = push_items (item :: items) (results st) (max_results bind_data)).
Proof.
unfold ParseGoogleSearchResponse.
destruct (yyjson_read body_) as [doc|]; [|discriminate].
destruct (doc_error doc); [discriminate|].
destruct (doc_items doc) as [[|item items]|]; intros [= <- <-];
  repeat split; try (left; now split).
right. now exists item, items.
Qed.

(** A page without items, or without a continuation token, parses to -1. *)
Lemma Parse_no_more (body_ : string) (doc : JsonDoc) (st : GoogleSearchGlobalState) :
yyjson_read body_ = Some doc -> doc_error doc = None ->
doc_items doc = None \/ doc_items doc = Some [] \/ doc_startIndex doc = None ->
exists st', Parse body_ st = inr (st', -1).
Proof.
intros Hdoc Herr H. unfold ParseGoogleSearchResponse. rewrite Hdoc, Herr.
destruct (doc_items doc) as [[|item items]|]; eauto.
destruct H as [H|[H|H]]; try discriminate. rewrite H. eauto.
Qed.

Lemma per_site_step_Thrown (st : GoogleSearchGlobalState) (t : nat) (req : PageFetch)
  (e : Exception) :
per_site_step w yyjson_read bind_data st t = Thrown req e ->
per_site_request bind_data st req /\ pf_next_start req = None.
Proof.
unfold per_site_step, per_site_request.
destruct (Z.ltb_spec (Z.of_nat (length (results st))) (max_results bind_data));
  simpl; [|discriminate].
destruct (active_sites (site_states st) =? 0)%nat; [discriminate|].
destruct (exhausted_at _ _) eqn:Hex; [discriminate|].
destruct (success _); simpl.
- destruct (ParseGoogleSearchResponse _ _ _ _) as [e'|[st1 nxt]]; [|discriminate].
  intros [= <- <-]. simpl. auto 10.
- intros [= <- <-]. simpl. auto 10.
Qed.

Lemma per_site_step_Continue (st : GoogleSearchGlobalState) (t : nat) (req : PageFetch)
  (st' : GoogleSearchGlobalState) (t' : nat) :
per_site_step w yyjson_read bind_data st t = Continue req st' t' ->
per_site_request bind_data st req /\
exists body_ st1 nxt,
  let idx := next_site (site_states st) n_sites n_sites (current_site_idx st) in
  let cur := default default_site_state (site_states st !! idx) in
  Parse body_ (with_current_site_idx st idx) = inr (st1, nxt) /\
  pf_next_start req = Some nxt /\
  results st' = results st1 /\
  next_start st' = next_start st1 /\
  fetch_complete st' = fetch_complete st1 /\
  current_site_idx st' = ((idx + 1) mod n_sites)%nat /\
  site_states st' =
    <[idx := if (nxt <? 0) || (site_next_start cur >=? 100)
             then mkSite (site_next_start cur) true
             else mkSite nxt (exhausted cur)]> (site_states st).
Proof.
unfold per_site_step, per_site_request.
destruct (Z.ltb_spec (Z.of_nat (length (results st))) (max_results bind_data));
  simpl; [|discriminate].
destruct (active_sites (site_states st) =? 0)%nat; [discriminate|].
destruct (exhausted_at _ _) eqn:Hex; [discriminate|].
destruct (success _); simpl; [|discriminate].
match goal with |- context [ParseGoogleSearchResponse ?r ?b ?bd ?s] =>
  destruct (ParseGoogleSearchResponse r b bd s) as [e'|[st1 nxt]] eqn:HP;
  [discriminate|]; set (the_body := bd) in *
end.
intros [= <- <- <-]. simpl. split; [auto 10|].
exists the_body, st1, nxt. simpl.
pose proof (Parse_inr _ _ _ _ HP) as (Hss & _). simpl in Hss. rewrite Hss.
repeat split; try reflexivity. exact HP.
Qed.

Lemma combined_step_Thrown (has_sites : bool) (st : GoogleSearchGlobalState) (t : nat)
  (req : PageFetch) (e : Exception) :
combined_step w yyjson_read bind_data has_sites st t = Thrown req e ->
combined_request bind_data has_sites st req /\ pf_next_start req = None.
Proof.
unfold combined_step, combined_request.
destruct (Z.ltb_spec (Z.of_nat (length (results st))) (max_results bind_data));
  simpl; [|discriminate].
destruct (fetch_complete st); simpl; [discriminate|].
destruct (success _); simpl.
- destruct (ParseGoogleSearchResponse _ _ _ _) as [e'|[st1 nxt]]; [|discriminate].
  intros [= <- <-]. simpl. auto 10.
- intros [= <- <-]. simpl. auto 10.
Qed.

Lemma combined_step_Continue (has_sites : bool) (st : GoogleSearchGlobalState) (t : nat)
  (req : PageFetch) (st' : GoogleSearchGlobalState) (t' : nat) :
combined_step w yyjson_read bind_data has_sites st t = Continue req st' t' ->
combined_request bind_data has_sites st req /\
exists body_ st1 nxt,
  Parse body_ st = inr (st1, nxt) /\
  pf_next_start req = Some nxt /\
  st' = if (nxt <? 0) || (next_start st >=? 100)
        then with_fetch_complete st1 true
        else with_next_start st1 nxt.
Proof.
unfold combined_step, combined_request.
destruct (Z.ltb_spec (Z.of_nat (length (results st))) (max_results bind_data));
  simpl; [|discriminate].
destruct (fetch_complete st); simpl; [discriminate|].
destruct (success _); simpl; [|discriminate].
match goal with |- context [ParseGoogleSearchResponse ?r ?b ?bd ?s] =>
  destruct (ParseGoogleSearchResponse r b bd s) as [e'|[st1 nxt]] eqn:HP;
  [discriminate|]; set (the_body := bd) in *
end.
intros [= <- <- <-]. simpl. split; [auto 10|].
exists the_body, st1, nxt.
pose proof (Parse_inr _ _ _ _ HP) as (_ & _ & Hns & _). rewrite Hns.
repeat split; try reflexivity. exact HP.
Qed.

Lemma per_site_step_Finished (st : GoogleSearchGlobalState) (t : nat)
  (st' : GoogleSearchGlobalState) (t' : nat) :
per_site_step w yyjson_read bind_data st t = Finished st' t' ->
results st' = results st /\ site_states st' = site_states st /\
(current_site_idx st' = current_site_idx st \/
 current_site_idx st'
 = next_site (site_states st) n_sites n_sites (current_site_idx st)).
Proof.
unfold per_site_step.
destruct (Z.of_nat (length (results st)) <? max_results bind_data); simpl;
  [|intros [= <- <-]; auto].
destruct (active_sites (site_states st) =? 0)%nat; [intros [= <- <-]; auto|].
destruct (exhausted_at _ _); [intros [= <- <-]; auto|].
destruct (success _); simpl; [|discriminate].
destruct (ParseGoogleSearchResponse _ _ _ _) as [e'|[st1 nxt]]; discriminate.
Qed.

Lemma combined_step_Finished (has_sites : bool) (st : GoogleSearchGlobalState) (t : nat)
  (st' : GoogleSearchGlobalState) (t' : nat) :
combined_step w yyjson_read bind_data has_sites st t = Finished st' t' -> st' = st.
Proof.
unfold combined_step.
destruct (_ && _); simpl; [|now intros [= <- <-]].
destruct (success _); simpl; [|discriminate].
destruct (ParseGoogleSearchResponse _ _ _ _) as [e'|[st1 nxt]]; discriminate.
Qed.


(** *** Termination of the two loops *)

Lemma per_site_cursor (st : GoogleSearchGlobalState) :
per_site_inv bind_data st ->
let idx := next_site (site_states st) n_sites n_sites (current_site_idx st) in
exhausted_at (site_states st) idx = false ->
(idx < length (site_states st))%nat /\
exists cur, site_states st !! idx = Some cur /\ exhausted cur = false.
Proof.
intros [Hlen Hidx] idx Hex.
assert (idx < length (site_states st))%nat as Hlt
    by (rewrite Hlen; now apply next_site_lt).
split; [exact Hlt|].
destruct (lookup_lt_is_Some_2 _ _ Hlt) as [cur Hcur]. exists cur. split; [exact Hcur|].
unfold exhausted_at in Hex. now rewrite Hcur in Hex.
Qed.

Lemma per_site_step_decreases (st : GoogleSearchGlobalState) (t : nat) (req : PageFetch)
  (st' : GoogleSearchGlobalState) (t' : nat) :
per_site_inv bind_data st ->
per_site_step w yyjson_read bind_data st t = Continue req st' t' ->
per_site_inv bind_data st' /\ (per_site_measure bind_data st' < per_site_measure bind_data st)%nat.
Proof.
intros HI Hs. apply per_site_step_Continue in Hs as [Hreq Hs].
destruct Hs as (b & st1 & nxt & HP & _ & Hres & _ & _ & Hidx' & Hss').
destruct Hreq as (Hlt & Hex & _).
destruct (per_site_cursor st HI Hex) as (Hin & cur & Hcur & Hcur_ex).
rewrite Hcur in Hss'. simpl in Hss'.
pose proof HI as [Hlen Hcsi].
split.
- split; [now rewrite Hss', length_insert|].
  rewrite Hidx'. apply Nat.mod_upper_bound. lia.
- unfold per_site_measure. rewrite Hres, Hss'.
  apply Parse_inr in HP as (_ & _ & _ & _ & [[-> ->]|(item & items & ->)]);
    cbn [results with_current_site_idx site_states].
  + pose proof (active_sites_insert _ _ _ (mkSite (site_next_start cur) true)
                  Hcur Hcur_ex) as Hact.
    simpl in Hact |- *. lia.
  + pose proof (push_items_grows item items _ _ Hlt) as Hgrow.
    match goal with |- context [<[_ := ?s']> _] =>
      pose proof (active_sites_insert _ _ _ s' Hcur Hcur_ex) as Hact
    end.
    set (grown := length (push_items _ _ _)) in *. clearbody grown.
    destruct (_ || _) in Hact |- *; simpl in Hact;
      [|rewrite Hcur_ex in Hact |- *]; lia.
Qed.

Lemma combined_step_decreases (has_sites : bool) (st : GoogleSearchGlobalState) (t : nat)
  (req : PageFetch) (st' : GoogleSearchGlobalState) (t' : nat) :
True ->
combined_step w yyjson_read bind_data has_sites st t = Continue req st' t' ->
True /\ (combined_measure bind_data st' < combined_measure bind_data st)%nat.
Proof.
intros _ Hs. split; [exact Logic.I|].
apply combined_step_Continue in Hs as [Hreq Hs].
destruct Hs as (b & st1 & nxt & HP & _ & ->).
destruct Hreq as (Hlt & Hfc & _).
unfold combined_measure. rewrite Hfc.
apply Parse_inr in HP as (_ & _ & _ & Hfc1 & Hcases).
destruct ((nxt <? 0) || (next_start st >=? 100)) eqn:Hex; simpl; [lia|].
rewrite Hfc1, Hfc.
destruct Hcases as [[-> ->]|(item & items & ->)]; [discriminate|].
pose proof (push_items_grows item items _ _ Hlt). lia.
Qed.

(** *** Exhausted cursors *)

Lemma never_refetched_nil : never_refetched [].
Proof. intros [|x before] r after H; discriminate. Qed.

Lemma never_refetched_snoc (tr : list PageFetch) (req : PageFetch) :
never_refetched tr ->
(forall r, r ∈ tr -> exhausting r -> pf_cursor req <> pf_cursor r) ->
never_refetched (tr ++ [req]).
Proof.
intros Htr Hreq before r after Heq Hex.
destruct after as [|x after _] using rev_ind; [constructor|].
change (before ++ r :: after ++ [x]) with (before ++ (r :: after) ++ [x]) in Heq.
rewrite app_assoc in Heq. apply app_inj_tail in Heq as [-> ->].
apply Forall_app. split; [now apply (Htr before r after)|].
constructor; [|constructor]. apply Hreq; [|exact Hex].
apply elem_of_app. right. now left.
Qed.

Lemma per_site_fresh_cursor (tr : list PageFetch) (st : GoogleSearchGlobalState)
  (req : PageFetch) :
per_site_trace_inv bind_data tr st -> per_site_request bind_data st req ->
never_refetched (tr ++ [req]).
Proof.
intros (HI & Hnr & Hex) (_ & Hidx & Hcur & _).
apply never_refetched_snoc; [exact Hnr|].
intros r Hr Hr_ex Heq. destruct (Hex r Hr Hr_ex) as (i & Hi & Hi_ex).
rewrite Hcur, Hi in Heq. injection Heq as <-. congruence.
Qed.

Lemma per_site_trace_Continue (tr : list PageFetch) (st : GoogleSearchGlobalState)
  (t : nat) (req : PageFetch) (st' : GoogleSearchGlobalState) (t' : nat) :
per_site_trace_inv bind_data tr st ->
per_site_step w yyjson_read bind_data st t = Continue req st' t' ->
per_site_trace_inv bind_data (tr ++ [req]) st'.
Proof.
intros HInv Hs. pose proof HInv as (HI & Hnr & Hex).
destruct (per_site_step_decreases _ _ _ _ _ HI Hs) as [HI' _].
apply per_site_step_Continue in Hs as [Hreq Hs].
split; [exact HI'|]. split; [now apply per_site_fresh_cursor with st|].
destruct Hs as (b & st1 & nxt & _ & Hnxt & _ & _ & _ & _ & Hss').
pose proof Hreq as (_ & Hidx & Hcur & Hstart & _).
destruct (per_site_cursor st HI Hidx) as (Hin & cur & Hlook & Hcur_ex).
rewrite Hlook in Hss', Hstart. simpl in Hss', Hstart.
intros r Hr Hr_ex. apply elem_of_app in Hr as [Hr|Hr].
- destruct (Hex r Hr Hr_ex) as (i & Hi & Hi_ex). exists i. split; [exact Hi|].
  rewrite Hss', exhausted_at_insert_ne; [exact Hi_ex | congruence].
- apply list_elem_of_singleton in Hr as ->. eexists. split; [exact Hcur|].
  rewrite Hss', exhausted_at_insert_eq by exact Hin.
  destruct Hr_ex as (nxt' & Hnxt' & Hcond). rewrite Hnxt in Hnxt'.
  injection Hnxt' as <-. rewrite Hstart in Hcond.
  destruct (Z.ltb_spec nxt 0); simpl; [reflexivity|].
  destruct (Z.geb_spec (site_next_start cur) 100); simpl; [reflexivity | lia].
Qed.

Lemma per_site_trace_Finished (tr : list PageFetch) (st : GoogleSearchGlobalState)
  (t : nat) (st' : GoogleSearchGlobalState) (t' : nat) :
per_site_trace_inv bind_data tr st ->
per_site_step w yyjson_read bind_data st t = Finished st' t' ->
per_site_trace_inv bind_data tr st'.
Proof.
intros ([Hlen Hcsi] & Hnr & Hex) Hs.
apply per_site_step_Finished in Hs as (_ & Hss & Hidx).
repeat split; [now rewrite Hss | | exact Hnr | now rewrite Hss].
destruct Hidx as [->| ->]; [exact Hcsi | now apply next_site_lt].
Qed.

Lemma combined_fresh_cursor (has_sites : bool) (tr : list PageFetch)
  (st : GoogleSearchGlobalState) (req : PageFetch) :
combined_trace_inv tr st -> combined_request bind_data has_sites st req ->
never_refetched (tr ++ [req]).
Proof.
intros (Hnr & Hex) (_ & Hfc & _).
apply never_refetched_snoc; [exact Hnr|].
intros r Hr Hr_ex. rewrite (Hex r Hr Hr_ex) in Hfc. discriminate.
Qed.

Lemma combined_trace_Continue (has_sites : bool) (tr : list PageFetch)
  (st : GoogleSearchGlobalState) (t : nat) (req : PageFetch)
  (st' : GoogleSearchGlobalState) (t' : nat) :
combined_trace_inv tr st ->
combined_step w yyjson_read bind_data has_sites st t = Continue req st' t' ->
combined_trace_inv (tr ++ [req]) st'.
Proof.
intros HInv Hs. pose proof HInv as (Hnr & Hex).
apply combined_step_Continue in Hs as [Hreq Hs].
split; [now apply combined_fresh_cursor with has_sites st|].
destruct Hs as (b & st1 & nxt & _ & Hnxt & ->).
pose proof Hreq as (_ & Hfc & _ & Hstart & _).
intros r Hr Hr_ex. apply elem_of_app in Hr as [Hr|Hr].
- rewrite (Hex r Hr Hr_ex) in Hfc. discriminate.
- apply list_elem_of_singleton in Hr as ->.
  destruct Hr_ex as (nxt' & Hnxt' & Hcond). rewrite Hnxt in Hnxt'.
  injection Hnxt' as <-. rewrite Hstart in Hcond.
  destruct (Z.ltb_spec nxt 0); simpl; [reflexivity|].
  destruct (Z.geb_spec (next_start st) 100); simpl; [reflexivity | lia].
Qed.

End PaginationFacts.

Section ScanFacts.

Variable w : Transport.
Variable yyjson_read : string -> option JsonDoc.
Variable bind_data : GoogleSearchBindData.

Local Abbreviation n_sites := (length (site_includes bind_data)).
Local Abbreviation scan := (GoogleSearchInitGlobal w yyjson_read bind_data).

Lemma use_per_site_queries_iff :
  use_per_site_queries bind_data = true <->
  (1 < n_sites)%nat /\ 100 < max_results bind_data.
Proof.
  unfold use_per_site_queries. rewrite andb_true_iff, Nat.ltb_lt, Z.ltb_lt. tauto.
Qed.

Lemma active_sites_le (ss : list SitePaginationState) :
  (active_sites ss <= length ss)%nat.
Proof. induction ss as [|s ss IH]; simpl; [lia|]. destruct (exhausted s); lia. Qed.

Lemma per_site_initial :
  use_per_site_queries bind_data = true ->
  per_site_inv bind_data
    (with_site_states initial_state (resize_site_states (site_states initial_state) n_sites)).
Proof.
  intros Hmode. apply use_per_site_queries_iff in Hmode as [Hn _].
  split; simpl; [apply length_resize | lia].
Qed.

(** Both loops end within [fetch_fuel] iterations. *)
Lemma FetchGoogleSearchResults_terminates (tr : list PageFetch) : scan <> OutOfFuel tr.
Proof.
  unfold GoogleSearchInitGlobal, FetchGoogleSearchResults.
  destruct (use_per_site_queries bind_data) eqn:Hmode.
  - apply run_loop_fuel with (measure := per_site_measure bind_data)
                             (I := per_site_inv bind_data).
    + apply per_site_step_decreases.
    + now apply per_site_initial.
    + unfold per_site_measure, fetch_fuel. simpl.
      pose proof (active_sites_le (resize_site_states [] n_sites)) as Hle.
      rewrite length_resize in Hle. lia.
  - apply run_loop_fuel with (measure := combined_measure bind_data) (I := fun _ => True).
    + apply combined_step_decreases.
    + exact Logic.I.
    + unfold combined_measure, fetch_fuel. simpl. lia.
Qed.

Lemma scan_never_refetches : never_refetched (trace_of scan).
Proof.
  unfold GoogleSearchInitGlobal, FetchGoogleSearchResults.
  destruct (use_per_site_queries bind_data) eqn:Hmode.
  - apply run_loop_trace with (Inv := per_site_trace_inv bind_data).
    + now intros tr st (_ & H & _).
    + apply per_site_trace_Continue.
    + intros tr st t req e HInv Hs. apply per_site_step_Thrown in Hs as [Hreq _].
      eapply per_site_fresh_cursor; eassumption.
    + apply per_site_trace_Finished.
    + split; [now apply per_site_initial|]. split; [apply never_refetched_nil|].
      intros r Hr. now apply elem_of_nil in Hr.
  - apply run_loop_trace with (Inv := combined_trace_inv).
    + now intros tr st (H & _).
    + apply combined_trace_Continue.
    + intros tr st t req e HInv Hs. apply combined_step_Thrown in Hs as [Hreq _].
      eapply combined_fresh_cursor; eassumption.
    + intros tr st t st' t' HInv Hs. apply combined_step_Finished in Hs as ->. exact HInv.
    + split; [apply never_refetched_nil|]. intros r Hr. now apply elem_of_nil in Hr.
Qed.

(** *** The shape of the requests in each mode *)

Lemma scan_per_site_requests :
  use_per_site_queries bind_data = true ->
  Forall (fun r => exists i, pf_cursor r = Some i /\
                             site_includes bind_data !! i = Some (pf_site_filter r) /\
                             pf_use_or_sites r = false)
         (trace_of scan).
Proof.
  intros Hmode. unfold GoogleSearchInitGlobal, FetchGoogleSearchResults. rewrite Hmode.
  set (Q := fun r : PageFetch => exists i : nat, _).
  assert (forall st req, per_site_inv bind_data st -> per_site_request bind_data st req -> Q req)
    as Hshape.
  { intros st req [Hlen Hcsi] (_ & _ & Hcur & _ & Hsite & Huse).
    eexists. split; [exact Hcur|]. split; [|exact Huse]. rewrite Hsite.
    destruct (lookup_lt_is_Some_2 (site_includes bind_data)
                (next_site (site_states st) n_sites n_sites (current_site_idx st)))
      as [s Hs]; [now apply next_site_lt|].
    now rewrite Hs. }
  apply run_loop_trace with (Inv := fun tr st => per_site_inv bind_data st /\ Forall Q tr).
  - now intros tr st [_ H].
  - intros tr st t req st' t' [HI Htr] Hs.
    split; [now destruct (per_site_step_decreases _ _ _ _ _ _ _ _ HI Hs)|].
    apply per_site_step_Continue in Hs as [Hreq _].
    apply Forall_app. split; [exact Htr|]. constructor; [|constructor]. now apply Hshape with st.
  - intros tr st t req e [HI Htr] Hs. apply per_site_step_Thrown in Hs as [Hreq _].
    apply Forall_app. split; [exact Htr|]. constructor; [|constructor]. now apply Hshape with st.
  - intros tr st t st' t' [[Hlen Hcsi] Htr] Hs.
    apply per_site_step_Finished in Hs as (_ & Hss & Hidx).
    repeat split; [now rewrite Hss | | exact Htr].
    destruct Hidx as [->| ->]; [exact Hcsi | now apply next_site_lt].
  - split; [now apply per_site_initial | constructor].
Qed.

Lemma scan_combined_requests :
  use_per_site_queries bind_data = false ->
  Forall (fun r => pf_cursor r = None /\ pf_site_filter r = "" /\
                   pf_use_or_sites r = negb (n_sites =? 0)%nat)
         (trace_of scan).
Proof.
  intros Hmode. unfold GoogleSearchInitGlobal, FetchGoogleSearchResults. rewrite Hmode.
  set (Q := fun r : PageFetch => pf_cursor r = None /\ _).
  assert (forall hs st req, combined_request bind_data hs st req ->
                            hs = negb (n_sites =? 0)%nat -> Q req) as Hshape.
  { intros hs st req (_ & _ & Hcur & _ & Hsite & Huse) ->. now repeat split. }
  apply run_loop_trace with (Inv := fun tr (_ : GoogleSearchGlobalState) => Forall Q tr).
  - now intros tr st H.
  - intros tr st t req st' t' Htr Hs. apply combined_step_Continue in Hs as [Hreq _].
    apply Forall_app. split; [exact Htr|]. constructor; [|constructor].
    now apply Hshape in Hreq.
  - intros tr st t req e Htr Hs. apply combined_step_Thrown in Hs as [Hreq _].
    apply Forall_app. split; [exact Htr|]. constructor; [|constructor].
    now apply Hshape in Hreq.
  - now intros tr st t st' t' Htr _.
  - constructor.
Qed.

(** *** The records of a scan *)

Lemma Parse_results (P : GoogleSearchResult -> Prop) (body_ : string)
    (st st' : GoogleSearchGlobalState) (nxt : Z) :
  (forall item, P (result_of_item item)) -> Forall P (results st) ->
  ParseGoogleSearchResponse yyjson_read bind_data body_ st = inr (st', nxt) ->
  Forall P (results st').
Proof.
  intros HP Hres Hparse.
  apply Parse_inr in Hparse as (_ & _ & _ & _ & [[-> _]|(item & items & ->)]);
    [exact Hres | now apply push_items_Forall].
Qed.

Lemma scan_results (P : GoogleSearchResult -> Prop) :
  (forall item, P (result_of_item item)) -> Forall P (results_of scan).
Proof.
  intros HP. destruct scan as [tr st t|tr e|tr] eqn:Hscan; simpl; try constructor.
  revert Hscan. unfold GoogleSearchInitGlobal, FetchGoogleSearchResults.
  destruct (use_per_site_queries bind_data).
  - apply run_loop_Done
      with (Inv := fun (_ : list PageFetch) st => Forall P (results st)).
    + intros tr0 st0 t0 req st' t' Hres Hs.
      apply per_site_step_Continue in Hs as [_ Hs].
      destruct Hs as (b & st1 & nxt & Hparse & _ & -> & _).
      now apply (Parse_results P) in Hparse.
    + intros tr0 st0 t0 st' t' Hres Hs.
      apply per_site_step_Finished in Hs as (-> & _). exact Hres.
    + constructor.
  - apply run_loop_Done
      with (Inv := fun (_ : list PageFetch) st => Forall P (results st)).
    + intros tr0 st0 t0 req st' t' Hres Hs.
      apply combined_step_Continue in Hs as [_ Hs].
      destruct Hs as (b & st1 & nxt & Hparse & _ & ->).
      apply (Parse_results P) in Hparse; [|exact HP|exact Hres].
      now destruct (_ || _).
    + intros tr0 st0 t0 st' t' Hres Hs. now apply combined_step_Finished in Hs as ->.
    + constructor.
Qed.

End ScanFacts.

(** ** Three scans *)

(** The scenario of the specification: no filters, a cap of 15, two page
    requests (start 1 and start 11), fifteen records. *)
Example scan_rust_programming :
  let w := scripted [answer 200 "a1" ""; answer 200 "a2" ""] 0 in
  match GoogleSearchInitGlobal w example_reader rust_programming_15 with
  | Done trace st tick =>
      trace = [mkPageFetch None 1 "" false (Some 11);
               mkPageFetch None 11 "" false (Some 21)] /\
      length (results st) = 15%nat /\ tick = 2%nat
  | _ => False
  end.
Proof. vm_compute. repeat split; reflexivity. Qed.

(** Two sites, round robin.  The second site answers its first page with
    the continuation token 101: its cursor then stands at 101 without being
    marked, is fetched once more at 101, and is marked after that request. *)
Example scan_two_sites :
  let w := scripted [answer 200 "a1" ""; answer 200 "b1" ""; answer 200 "a2" "";
                     answer 200 "b1" ""; answer 200 "none" ""] 0 in
  match GoogleSearchInitGlobal w example_reader two_sites_150 with
  | Done trace st tick =>
      trace = [mkPageFetch (Some 0%nat) 1 "a.com" false (Some 11);
               mkPageFetch (Some 1%nat) 1 "b.com" false (Some 101);
               mkPageFetch (Some 0%nat) 11 "a.com" false (Some 21);
               mkPageFetch (Some 1%nat) 101 "b.com" false (Some 101);
               mkPageFetch (Some 0%nat) 21 "a.com" false (Some (-1))] /\
      site_states st = [mkSite 21 true; mkSite 101 true] /\
      length (results st) = 30%nat
  | _ => False
  end.
Proof. vm_compute. repeat split; reflexivity. Qed.

(** A 403 is not retried and ends the scan with an exception. *)
Example scan_access_denied :
  GoogleSearchInitGlobal (scripted [answer 200 "a1" ""; answer 403 "" ""] 0)
                         example_reader rust_programming_15
  = Failed [mkPageFetch None 1 "" false (Some 11); mkPageFetch None 11 "" false None]
           (InvalidInputException "Google Search API: Access denied or quota exceeded").
Proof. vm_compute. reflexivity. Qed.

(** ** The claims on the pagination engine *)

(** C1.  The per-site round-robin mode is selected exactly when there is
    more than one included site and the row cap is above 100.  In that case
    every request of the scan goes to one site through the [siteSearch]
    argument, without the OR clause; in every other case every request is
    the single combined query on the single cursor, with the included sites
    (if any) written into the query text. *)
Theorem C1_mode_selection (w : Transport) (yyjson_read : string -> option JsonDoc)
    (bind_data : GoogleSearchBindData) :
  let per_site := (1 < length (site_includes bind_data))%nat /\ 100 < max_results bind_data in
  let scan := GoogleSearchInitGlobal w yyjson_read bind_data in
  (use_per_site_queries bind_data = true <-> per_site) /\
  (per_site ->
   scan = run_loop (per_site_step w yyjson_read bind_data) (fetch_fuel bind_data) []
            (with_site_states initial_state
               (resize_site_states [] (length (site_includes bind_data)))) 0 /\
   Forall (fun r => exists i, pf_cursor r = Some i /\
                              site_includes bind_data !! i = Some (pf_site_filter r) /\
                              pf_use_or_sites r = false)
          (trace_of scan)) /\
  (~ per_site ->
   scan = run_loop (combined_step w yyjson_read bind_data
                      (negb (length (site_includes bind_data) =? 0)%nat))
            (fetch_fuel bind_data) [] initial_state 0 /\
   Forall (fun r => pf_cursor r = None /\ pf_site_filter r = "" /\
                    pf_use_or_sites r = negb (length (site_includes bind_data) =? 0)%nat)
          (trace_of scan)).
Proof.
  intros per_site scan. pose proof (use_per_site_queries_iff bind_data) as Hiff.
  split; [exact Hiff|]. split; intros Hmode.
  - apply Hiff in Hmode. split; [|now apply scan_per_site_requests].
    unfold scan, GoogleSearchInitGlobal, FetchGoogleSearchResults. now rewrite Hmode.
  - assert (use_per_site_queries bind_data = false) as Hoff.
    { destruct (use_per_site_queries bind_data); [|reflexivity].
      exfalso. apply Hmode. now apply Hiff. }
    split; [|now apply scan_combined_requests].
    unfold scan, GoogleSearchInitGlobal, FetchGoogleSearchResults. now rewrite Hoff.
Qed.

(** What does hold of exhaustion: in both loops a cursor is marked
    exhausted (or the single fetch complete) by an iteration exactly when
    the request of that iteration started at 100 or beyond or its parse
    returned no next start; a response without items or without a
    continuation token parses to no next start; and in the whole scan no
    request is ever issued on a cursor after a request that marked it. *)
Lemma marked_cursors_are_not_refetched (w : Transport) (yyjson_read : string -> option JsonDoc)
    (bind_data : GoogleSearchBindData) :
  (forall st t req st' t',
      per_site_inv bind_data st ->
      per_site_step w yyjson_read bind_data st t = Continue req st' t' ->
      exists i cur nxt,
        pf_cursor req = Some i /\ pf_next_start req = Some nxt /\
        site_states st !! i = Some cur /\ exhausted cur = false /\
        pf_start req = site_next_start cur /\
        (exhausting req -> exhausted_at (site_states st') i = true) /\
        (~ exhausting req -> site_states st' !! i = Some (mkSite nxt false))) /\
  (forall has_sites st t req st' t',
      combined_step w yyjson_read bind_data has_sites st t = Continue req st' t' ->
      exists nxt,
        pf_cursor req = None /\ pf_next_start req = Some nxt /\
        fetch_complete st = false /\ pf_start req = next_start st /\
        (exhausting req -> fetch_complete st' = true) /\
        (~ exhausting req -> fetch_complete st' = false /\ next_start st' = nxt)) /\
  (forall body_ doc st,
      yyjson_read body_ = Some doc -> doc_error doc = None ->
      doc_items doc = None \/ doc_items doc = Some [] \/ doc_startIndex doc = None ->
      exists st', ParseGoogleSearchResponse yyjson_read bind_data body_ st = inr (st', -1)) /\
  (forall r nxt, pf_start r = 100 -> pf_next_start r = Some nxt -> exhausting r) /\
  never_refetched (trace_of (GoogleSearchInitGlobal w yyjson_read bind_data)) /\
  (forall tr, GoogleSearchInitGlobal w yyjson_read bind_data <> OutOfFuel tr).
Proof.
  assert (forall start nxt : Z,
             (nxt <? 0) || (start >=? 100) = true <-> nxt < 0 \/ 100 <= start) as Hcond.
  { intros. rewrite orb_true_iff, Z.ltb_lt, Z.geb_le. tauto. }
  repeat split.
  - intros st t req st' t' HI Hs. apply per_site_step_Continue in Hs as [Hreq Hs].
    destruct Hs as (b & st1 & nxt & _ & Hnxt & _ & _ & _ & _ & Hss').
    destruct Hreq as (_ & Hidx & Hcur & Hstart & _).
    destruct (per_site_cursor _ st HI Hidx) as (Hin & cur & Hlook & Hcur_ex).
    rewrite Hlook in Hss', Hstart. simpl in Hss', Hstart.
    exists (next_site (site_states st) (length (site_includes bind_data))
              (length (site_includes bind_data)) (current_site_idx st)), cur, nxt.
    repeat split; try assumption.
    + intros (nxt' & Hnxt' & Hex). rewrite Hnxt in Hnxt'. injection Hnxt' as <-.
      rewrite Hstart in Hex. apply Hcond in Hex.
      now rewrite Hss', exhausted_at_insert_eq, Hex.
    + intros Hnot. rewrite Hss', list_lookup_insert_eq by exact Hin.
      destruct ((nxt <? 0) || (site_next_start cur >=? 100)) eqn:Hex.
      * exfalso. apply Hnot. exists nxt. split; [exact Hnxt|]. rewrite Hstart.
        now apply Hcond.
      * now rewrite Hcur_ex.
  - intros has_sites st t req st' t' Hs. apply combined_step_Continue in Hs as [Hreq Hs].
    destruct Hs as (b & st1 & nxt & Hparse & Hnxt & ->).
    destruct Hreq as (_ & Hfc & Hcur & Hstart & _).
    apply Parse_inr in Hparse as (_ & _ & Hns & Hfc1 & _).
    exists nxt. repeat split; try assumption.
    + intros (nxt' & Hnxt' & Hex). rewrite Hnxt in Hnxt'. injection Hnxt' as <-.
      rewrite Hstart in Hex. apply Hcond in Hex. now rewrite Hex.
    + destruct ((nxt <? 0) || (next_start st >=? 100)) eqn:Hex; simpl; [|congruence].
      exfalso. apply H. exists nxt. split; [exact Hnxt|]. rewrite Hstart. now apply Hcond.
    + destruct ((nxt <? 0) || (next_start st >=? 100)) eqn:Hex; simpl; [|reflexivity].
      exfalso. apply H. exists nxt. split; [exact Hnxt|]. rewrite Hstart. now apply Hcond.
  - intros body_ doc st. apply Parse_no_more.
  - intros r nxt Hstart Hnxt. exists nxt. split; [exact Hnxt | right; lia].
  - apply scan_never_refetches.
  - intros tr. apply FetchGoogleSearchResults_terminates.
Qed.

(** C9, the code at the claim's input.  A cursor whose start index has
    reached 100 is not marked exhausted and is fetched once more: the test
    [next_start < 0 || cursor.next_start >= 100] reads the cursor before
    the token of the response is stored in it, so it sees the start index
    of the request just answered.  Under [LIMIT 100], after nine items a
    page, the page at 91 carries the token 101 with 90 records fetched; the
    code sends an eleventh request at start index 101, and the 400 that
    answers it ends the scan with an exception.  At the boundary of the
    claim, a first page with the token 100 leaves the cursor at exactly 100
    and unmarked, and a second request is sent at start index 100. *)
Theorem C9_cursor_at_100_is_fetched :
  GoogleSearchInitGlobal short_pages_server short_pages_reader limit_100
  = Failed (List.map (fun k => mkPageFetch None (Z.of_nat (10 * k + 1)) "" false
                                 (Some (Z.of_nat (10 * k + 11))))
                     (seq 0 10)
            ++ [mkPageFetch None 101 "" false None])
           (InvalidInputException "Google Search API: Invalid request - ") /\
  (let w := scripted [answer 200 "p1" ""; answer 200 "p2" ""] 0 in
   match combined_step w token_100_reader rust_programming_15 false initial_state 0 with
   | Continue req st tick =>
       pf_start req = 1 /\ pf_next_start req = Some 100 /\
       next_start st = 100 /\ fetch_complete st = false /\
       match GoogleSearchInitGlobal w token_100_reader rust_programming_15 with
       | Done trace st' tick' =>
           trace = [mkPageFetch None 1 "" false (Some 100);
                    mkPageFetch None 100 "" false (Some 110)] /\
           fetch_complete st' = true
       | _ => False
       end
   | _ => False
   end).
Proof. vm_compute. repeat split; reflexivity. Qed.

(** C10.  The site of every record of a scan is the text of its link after
    the first ["://"] (from the start of the link without one) up to the
    next ['/'] (to the end without one), and this determines it; a port or
    a user part is kept, and an empty link has an empty site. *)
Theorem C10_site_from_link (w : Transport) (yyjson_read : string -> option JsonDoc)
    (bind_data : GoogleSearchBindData) :
  Forall (fun r => site_of_link (link r) (site r) /\
                   (forall s, site_of_link (link r) s -> s = site r) /\
                   (link r = "" -> site r = ""))
         (results_of (GoogleSearchInitGlobal w yyjson_read bind_data)) /\
  ExtractDomain "https://user:pw@www.example.com:8080/a/b?c=d" = "user:pw@www.example.com:8080".
Proof.
  split; [|reflexivity]. apply scan_results. intros item. simpl.
  split; [apply ExtractDomain_spec|]. split.
  - intros s Hs. symmetry. now apply ExtractDomain_unique.
  - now intros ->.
Qed.

(** ** Transport *)

Section TransportFacts.

Variable w : Transport.
Variable url : string.
Variable config : RetryConfig.

Lemma IsRetryable_iff (status : Z) :
  IsRetryable status = true <->
  status <= 0 \/ status = 429 \/ (500 <= status /\ status <= 504).
Proof.
  unfold IsRetryable.
  destruct (Z.leb_spec status 0); [intuition lia|].
  destruct (Z.eqb_spec status 429); [intuition lia|].
  destruct (Z.leb_spec 500 status), (Z.leb_spec status 504); simpl;
    intuition (lia || discriminate).
Qed.

Lemma waits_S (tick k : nat) :
  waits w tick url config (S k)
  = waits w tick url config k
    ++ [wait_time w config (attempt_response w tick url k) (Z.of_nat k)].
Proof. unfold waits. now rewrite seq_S, map_app. Qed.

(** The loop of [Fetch] after [k] retryable failures, while iterations and
    retries remain. *)
Lemma Fetch_loop_retry (tick k remaining : nat) :
  (Z.of_nat k <= max_retries config) ->
  (forall j, (j < k)%nat -> retryable_failure (attempt_response w tick url j)) ->
  Fetch_loop w url config (k + remaining) 0 tick []
  = Fetch_loop w url config remaining (Z.of_nat k) (tick + k)
      (waits w tick url config k).
Proof.
  revert remaining. induction k as [|k IH]; intros remaining Hk Hfail.
  - simpl. now rewrite Nat.add_0_r.
  - replace (S k + remaining)%nat with (k + S remaining)%nat by lia.
    rewrite IH by (try lia; intros j Hj; apply Hfail; lia).
    destruct (Hfail k) as [Hsucc Hretry]; [lia|]. unfold attempt_response in *.
    simpl. rewrite Hsucc, Hretry. simpl.
    destruct (Z.geb_spec (Z.of_nat k) (max_retries config)); [lia|].
    rewrite waits_S. unfold attempt_response.
    now replace (Z.of_nat k + 1) with (Z.of_nat (S k)) by lia;
      replace (S (tick + k)) with (tick + S k)%nat by lia.
Qed.

Lemma Fetch_loop_progress (remaining : nat) (attempt : Z) (tick : nat) (slept : list Z) :
  0 <= attempt ->
  let run := Fetch_loop w url config remaining attempt tick slept in
  slept `prefix_of` sleeps run /\
  (Z.to_nat attempt <= gets run)%nat /\
  ((0 < remaining)%nat -> (Z.to_nat attempt < gets run)%nat).
Proof.
  revert attempt tick slept.
  induction remaining as [|remaining IH]; intros attempt tick slept Hpos; simpl.
  - repeat split; [reflexivity | lia | lia].
  - destruct (success _); simpl; [repeat split; [reflexivity | lia | lia]|].
    destruct (IsRetryable _); simpl; [|repeat split; [reflexivity | lia | lia]].
    destruct (attempt >=? max_retries config); simpl;
      [repeat split; [reflexivity | lia | lia]|].
    match goal with |- context [Fetch_loop _ _ _ _ ?a ?t ?s] =>
      destruct (IH a t s) as (Hpre & Hge & _); [lia|]
    end.
    repeat split; [|lia|lia].
    etransitivity; [|exact Hpre]. now apply prefix_app_r.
Qed.

(** [Fetch] stops at the first response that is a success or a failure it
    does not retry, and returns it as it is. *)
Lemma Fetch_stops (tick k : nat) :
  Z.of_nat k <= max_retries config ->
  (forall j, (j < k)%nat -> retryable_failure (attempt_response w tick url j)) ->
  ~ retryable_failure (attempt_response w tick url k) ->
  Fetch w tick url config
  = mkFetchRun (attempt_response w tick url k) (S k) (waits w tick url config k).
Proof.
  intros Hk Hfail Hstop. unfold Fetch.
  replace (Z.to_nat (max_retries config + 1))
    with (k + S (Z.to_nat (max_retries config) - k))%nat by lia.
  rewrite Fetch_loop_retry by assumption. simpl.
  unfold retryable_failure, attempt_response in Hstop. rewrite Nat2Z.id.
  destruct (success _) eqn:Hsucc; [reflexivity|].
  destruct (IsRetryable _) eqn:Hretry; [|reflexivity].
  now destruct Hstop.
Qed.

(** After [max_retries + 1] retryable failures [Fetch] gives up. *)
Lemma Fetch_exhausts (tick : nat) :
  0 <= max_retries config ->
  (forall j, Z.of_nat j <= max_retries config ->
             retryable_failure (attempt_response w tick url j)) ->
  Fetch w tick url config
  = mkFetchRun
      (with_error (attempt_response w tick url (Z.to_nat (max_retries config)))
                  ("Max retries exceeded for URL: " +:+ url))
      (S (Z.to_nat (max_retries config)))
      (waits w tick url config (Z.to_nat (max_retries config))).
Proof.
  intros Hpos Hfail. unfold Fetch.
  replace (Z.to_nat (max_retries config + 1))
    with (Z.to_nat (max_retries config) + 1)%nat by lia.
  rewrite Fetch_loop_retry by (try lia; intros j Hj; apply Hfail; lia). simpl.
  destruct (Hfail (Z.to_nat (max_retries config))) as [Hsucc Hretry]; [lia|].
  unfold attempt_response in *. rewrite Hsucc, Hretry. simpl.
  rewrite Z2Nat.id by exact Hpos.
  destruct (Z.geb_spec (max_retries config) (max_retries config)); [reflexivity|lia].
Qed.

(** A retryable failure with retries left is followed by a sleep and one
    more GET. *)
Lemma Fetch_retries (tick k : nat) :
  Z.of_nat k < max_retries config ->
  (forall j, (j <= k)%nat -> retryable_failure (attempt_response w tick url j)) ->
  (S k < gets (Fetch w tick url config))%nat /\
  sleeps (Fetch w tick url config) !! k
  = Some (wait_time w config (attempt_response w tick url k) (Z.of_nat k)).
Proof.
  intros Hk Hfail. unfold Fetch.
  replace (Z.to_nat (max_retries config + 1))
    with (S k + (Z.to_nat (max_retries config) - k))%nat by lia.
  rewrite Fetch_loop_retry by (try lia; intros j Hj; apply Hfail; lia).
  match goal with |- context [Fetch_loop _ _ _ ?r ?a ?t ?s] =>
    destruct (Fetch_loop_progress r a t s) as (Hpre & _ & Hgets); [lia|]
  end.
  split; [specialize (Hgets ltac:(lia)); lia|].
  eapply prefix_lookup_Some; [|exact Hpre].
  rewrite waits_S. apply list_lookup_middle. unfold waits. now rewrite length_map, length_seq.
Qed.

End TransportFacts.

(** *** The wait between two attempts *)

Lemma round_half_even_whole (a : Z) : round_half_even a 1 = a.
Proof. unfold round_half_even. now rewrite Z.mod_1_r, Z.div_1_r. Qed.

Lemma Qred_inject_Z (z : Z) : Qred (inject_Z z) = inject_Z z.
Proof.
  unfold Qred, inject_Z.
  pose proof (Z.ggcd_gcd z 1) as Hg. pose proof (Z.ggcd_correct_divisors z 1) as Hd.
  destruct (Z.ggcd z 1) as [g [a b]]. simpl in *.
  rewrite Z.gcd_1_r in Hg. subst g. destruct Hd as [Ha Hb].
  replace a with z by lia. replace b with 1 by lia. reflexivity.
Qed.

(** A whole number below [2^53] is a [double]: rounding leaves it. *)
Lemma round_pos_whole (p : positive) :
  Z.pos p < 2 ^ 53 -> round_pos p 1 = finite (inject_Z (Z.pos p)).
Proof.
  intros Hp. unfold round_pos. cbv zeta.
  change (Z.log2 1) with 0. rewrite Z.sub_0_r.
  pose proof (Z.log2_nonneg (Z.pos p)) as Hk0.
  pose proof (Z.log2_spec (Z.pos p) ltac:(lia)) as [Hlo Hhi].
  assert (Z.log2 (Z.pos p) < 53) as Hk by (apply Z.log2_lt_pow2; lia).
  set (k := Z.log2 (Z.pos p)) in *.
  destruct (Z.leb_spec 0 k); [|lia].
  destruct (Z.leb_spec (1 * 2 ^ k) (Z.pos p)); [|lia].
  rewrite Z.max_l by lia.
  destruct (Z.leb_spec 0 (k - 52)) as [He|He].
  - assert (k = 52) as -> by lia. change (52 - 52) with 0.
    change (1 * 2 ^ 0) with 1. rewrite round_half_even_whole.
    change (971 <? 0) with false. change (0 =? 971) with false. cbn [orb andb].
    rewrite Z.pow_0_r, Z.mul_1_r. now rewrite Qred_inject_Z.
  - rewrite round_half_even_whole.
    destruct (Z.ltb_spec 971 (k - 52)); [lia|].
    destruct (Z.eqb_spec (k - 52) 971); [lia|]. cbn [orb andb]. f_equal.
    rewrite <- (Qred_inject_Z (Z.pos p)). apply Qred_complete.
    assert (0 < 2 ^ (- (k - 52))) as Hpos by (apply Z.pow_pos_nonneg; lia).
    unfold Qeq, inject_Z. cbn [Qnum Qden]. rewrite Z2Pos.id by exact Hpos. lia.
Qed.

Lemma round_double_whole (z : Z) :
  Z.abs z < 2 ^ 53 -> round_double (inject_Z z) = finite (inject_Z z).
Proof.
  intros Hz. unfold round_double, inject_Z. cbn [Qnum Qden].
  destruct z as [|p|p]; [reflexivity| |].
  - apply round_pos_whole. lia.
  - rewrite round_pos_whole by lia. reflexivity.
Qed.

Lemma static_cast_int_whole (z : Z) :
  INT_MIN <= z <= INT_MAX -> static_cast_int (finite (inject_Z z)) = z.
Proof.
  intros Hz. unfold static_cast_int, inject_Z. cbn [Qnum Qden]. rewrite Z.quot_1_r.
  destruct (Z.leb_spec INT_MIN z), (Z.leb_spec z INT_MAX); try lia. reflexivity.
Qed.

Lemma double_mul_whole (a b : Z) :
  Z.abs (a * b) < 2 ^ 53 ->
  double_mul (finite (inject_Z a)) (finite (inject_Z b)) = finite (inject_Z (a * b)).
Proof.
  intros H. unfold double_mul.
  change (inject_Z a * inject_Z b)%Q with (inject_Z (a * b)).
  now apply round_double_whole.
Qed.

Lemma Qpower_positive_inject_Z (m : Z) (p : positive) :
  Qpower_positive (inject_Z m) p = inject_Z (m ^ Z.pos p).
Proof.
  induction p as [p IH|p IH|]; simpl.
  - unfold Qpower_positive in *. simpl. rewrite IH. unfold Qmult, inject_Z. simpl.
    f_equal. replace (Z.pos p~1) with (Z.pos p + Z.pos p + 1) by lia.
    rewrite !Z.pow_add_r, Z.pow_1_r by lia. lia.
  - unfold Qpower_positive in *. simpl. rewrite IH. unfold Qmult, inject_Z. simpl.
    f_equal. replace (Z.pos p~0) with (Z.pos p + Z.pos p) by lia.
    rewrite Z.pow_add_r by lia. reflexivity.
  - unfold inject_Z. f_equal. lia.
Qed.

Lemma Qpower_inject_Z (m a : Z) : 0 <= a -> Qpower (inject_Z m) a = inject_Z (m ^ a).
Proof.
  intros Ha. destruct a as [|p|p]; [reflexivity| |lia].
  apply Qpower_positive_inject_Z.
Qed.

(** A power that is a whole number below [2^53] is returned as it is by
    [exact_pow], as by any library that is exact where it can be. *)
Lemma exact_pow_whole (m a : Z) :
  0 <= a -> Z.abs (m ^ a) < 2 ^ 53 ->
  exact_pow (finite (inject_Z m)) a = finite (inject_Z (m ^ a)).
Proof.
  intros Ha Hp. unfold exact_pow.
  destruct (Z.eqb_spec a 0) as [->|Hne]; [reflexivity|].
  destruct (Z.ltb_spec a 0); [lia|]. cbn [andb].
  rewrite Qpower_inject_Z by exact Ha. now apply round_double_whole.
Qed.

(** With a whole multiplier, a library whose [pow] returns the whole power
    and a product that fits an [int], the backoff is the product. *)
Lemma exponential_backoff_whole (w : Transport) (config : RetryConfig) (m a : Z) :
  backoff_multiplier config = inject_Z m -> Z.abs m < 2 ^ 53 ->
  std_pow w (finite (inject_Z m)) a = finite (inject_Z (m ^ a)) ->
  INT_MIN <= initial_backoff_ms config * m ^ a <= INT_MAX ->
  exponential_backoff w config a = initial_backoff_ms config * m ^ a.
Proof.
  intros Hm Hsmall Hpow Hfits. unfold exponential_backoff.
  rewrite Hm, round_double_whole, Hpow by exact Hsmall.
  rewrite double_mul_whole by (unfold INT_MIN, INT_MAX in Hfits; lia).
  now apply static_cast_int_whole.
Qed.

Lemma wrap_int_id (z : Z) : INT_MIN <= z <= INT_MAX -> wrap_int z = z.
Proof.
  unfold INT_MIN, INT_MAX, wrap_int. intros H. rewrite Z.mod_small; lia.
Qed.

Lemma wait_time_header (w : Transport) (config : RetryConfig) (r : HttpResponse)
    (a seconds : Z) :
  status_code r = 429 -> retry_after r <> "" ->
  stoi (retry_after r) = Some seconds -> 0 < seconds <= 2147483 ->
  wait_time w config r a = Z.min (max_backoff_ms config) (seconds * 1000).
Proof.
  intros Hs Hne Hstoi Hrange. unfold wait_time, ParseRetryAfter. rewrite Hs, Hstoi.
  destruct (retry_after r) eqn:Hra; [congruence|]. simpl.
  rewrite wrap_int_id by (unfold INT_MIN, INT_MAX; lia).
  destruct (Z.leb_spec (seconds * 1000) 0); lia.
Qed.

Lemma wait_time_backoff (w : Transport) (config : RetryConfig) (r : HttpResponse) (a : Z) :
  status_code r <> 429 \/ retry_after r = "" \/ stoi (retry_after r) = None \/
  (exists seconds, stoi (retry_after r) = Some seconds /\ -2147483 <= seconds <= 0) ->
  wait_time w config r a = Z.min (max_backoff_ms config) (exponential_backoff w config a).
Proof.
  intros H. unfold wait_time, ParseRetryAfter.
  destruct (Z.eqb_spec (status_code r) 429) as [Hs|Hs]; simpl; [|lia].
  destruct (retry_after r) eqn:Hra; simpl; [lia|].
  destruct H as [H|[H|[H|(seconds & H & Hrange)]]]; try congruence.
  - rewrite H. simpl. lia.
  - rewrite H. rewrite wrap_int_id by (unfold INT_MIN, INT_MAX; lia).
    destruct (Z.leb_spec (seconds * 1000) 0); lia.
Qed.

(** *** The claims on the transport *)

(** The arithmetic of the wait at two inputs where it shows: the product
    [10 * 0.7] is rounded to 7.0 before it is cut, and the product
    [2000000000 * 2] leaves [int], where the build's conversion gives
    [INT_MIN]. *)
Example backoff_in_double :
  exponential_backoff (scripted [] 0) (mkRetry 3 10 (7 # 10) 10000) 1 = 7 /\
  exponential_backoff (scripted [] 0) (mkRetry 3 2000000000 (2 # 1) 10000) 1 = INT_MIN /\
  exponential_backoff (scripted [] 0) default_retry_config 3 = 800.
Proof. vm_compute. repeat split. Qed.

(** C6, as the specification states it, fails on a 429 whose retry-after
    header reads "0": the header is present and parses to zero seconds, so
    the stated wait is 0 ms, but [Fetch] sleeps the exponential backoff
    (100 ms at the first attempt with the default policy). *)
Lemma C6_counterexample :
  let w := scripted [answer 429 "" "0"; answer 200 "{}" ""] 0 in
  let r := ExecuteHttpGet (answer 429 "" "0") in
  let run := Fetch w 0 "https://example.org/" default_retry_config in
  retryable_failure r /\ status_code r = 429 /\ stoi (retry_after r) = Some 0 /\
  spec_wait w default_retry_config r 0 = 0 /\
  wait_time w default_retry_config r 0 = 100 /\
  sleeps run = [100].
Proof. vm_compute. repeat split. Qed.

(** C6, amended.  After the retryable failure of attempt [k] (0-based, with
    a retry left) [Fetch] sleeps [min(max_backoff_ms, W)], where [W] is the
    retry-after header in milliseconds when the status is 429, the header
    is present and its leading integer is a positive number of seconds not
    above 2147483 (so that the milliseconds fit an [int]), and [W] is the
    exponential backoff when the status is not 429 or the header is absent,
    has no leading integer, or reads a number of seconds from -2147483
    to 0.  The backoff is the [double] product
    [initial_backoff_ms * pow(multiplier, k)] converted to [int]; for a
    whole multiplier whose power the library returns as it is, and a
    product that fits an [int], it is [initial_backoff_ms * multiplier ^ k]. *)
Theorem C6_wait_before_retry (w : Transport) (tick : nat) (url : string)
    (config : RetryConfig) (k : nat) :
  Z.of_nat k < max_retries config ->
  (forall j, (j <= k)%nat -> retryable_failure (attempt_response w tick url j)) ->
  let r := attempt_response w tick url k in
  let a := Z.of_nat k in
  sleeps (Fetch w tick url config) !! k = Some (wait_time w config r a) /\
  (forall seconds,
      status_code r = 429 -> retry_after r <> "" ->
      stoi (retry_after r) = Some seconds -> 0 < seconds <= 2147483 ->
      wait_time w config r a = Z.min (max_backoff_ms config) (seconds * 1000)) /\
  (status_code r <> 429 \/ retry_after r = "" \/ stoi (retry_after r) = None \/
   (exists seconds, stoi (retry_after r) = Some seconds /\ -2147483 <= seconds <= 0) ->
   wait_time w config r a
   = Z.min (max_backoff_ms config) (exponential_backoff w config a)) /\
  (forall m,
      backoff_multiplier config = inject_Z m -> Z.abs m < 2 ^ 53 ->
      std_pow w (finite (inject_Z m)) a = finite (inject_Z (m ^ a)) ->
      INT_MIN <= initial_backoff_ms config * m ^ a <= INT_MAX ->
      exponential_backoff w config a = initial_backoff_ms config * m ^ a).
Proof.
  intros Hk Hfail r a. split; [now apply Fetch_retries|].
  split; [intros seconds; apply wait_time_header|].
  split; [apply wait_time_backoff|].
  intros m. apply exponential_backoff_whole.
Qed.

(** C7, as the specification states it, fails after exactly [max_retries]
    retryable failures: with the default policy (three retries) and the
    answers 503, 503, 503, 200 the fourth GET is still made and its success
    is returned. *)
Lemma C7_counterexample :
  let w := scripted [answer 503 "" ""; answer 503 "" ""; answer 503 "" ""; answer 200 "{}" ""] 0 in
  let url := "https://example.org/" in
  max_retries default_retry_config = 3 /\
  (forall j, (j < 3)%nat -> retryable_failure (attempt_response w 0 url j)) /\
  success (fetched (Fetch w 0 url default_retry_config)) = true /\
  error (fetched (Fetch w 0 url default_retry_config)) = "" /\
  gets (Fetch w 0 url default_retry_config) = 4%nat.
Proof.
  split; [reflexivity|]. split; [|vm_compute; repeat split].
  intros [|[|[|j]]] Hj; try lia; vm_compute; split; reflexivity.
Qed.

(** C7, amended.  A status is retried exactly when it is at most 0, or 429,
    or from 500 to 504.  [Fetch] returns the first response that is a
    success or a failure with another status, as it is, without a further
    GET; a retryable failure with a retry left is followed by another GET;
    and after [max_retries + 1] retryable failures in a row (the first
    attempt and [max_retries] retries) the result is a failure whose error
    message contains the URL. *)
Theorem C7_retry_policy (w : Transport) (tick : nat) (url : string) (config : RetryConfig) :
  0 <= max_retries config ->
  (forall status,
      IsRetryable status = true <->
      status <= 0 \/ status = 429 \/ (500 <= status /\ status <= 504)) /\
  (forall k,
      Z.of_nat k <= max_retries config ->
      (forall j, (j < k)%nat -> retryable_failure (attempt_response w tick url j)) ->
      ~ retryable_failure (attempt_response w tick url k) ->
      fetched (Fetch w tick url config) = attempt_response w tick url k /\
      gets (Fetch w tick url config) = S k) /\
  (forall k,
      Z.of_nat k < max_retries config ->
      (forall j, (j <= k)%nat -> retryable_failure (attempt_response w tick url j)) ->
      (S k < gets (Fetch w tick url config))%nat) /\
  ((forall j, Z.of_nat j <= max_retries config ->
              retryable_failure (attempt_response w tick url j)) ->
   let r := fetched (Fetch w tick url config) in
   success r = false /\
   error r = "Max retries exceeded for URL: " +:+ url /\
   contains url (error r) /\
   gets (Fetch w tick url config) = S (Z.to_nat (max_retries config))).
Proof.
  intros Hpos. split; [apply IsRetryable_iff|].
  split; [intros k Hk Hfail Hstop; now rewrite (Fetch_stops w url config tick k)|].
  split; [intros k Hk Hfail; now apply Fetch_retries|].
  intros Hfail r. unfold r. rewrite Fetch_exhausts by assumption. simpl.
  destruct (Hfail (Z.to_nat (max_retries config))) as [Hsucc _]; [lia|].
  repeat split; [exact Hsucc|].
  exists "Max retries exceeded for URL: ", "". now rewrite app_empty_r.
Qed.

Lemma C6_witness :
  let w := scripted [answer 503 "" ""; answer 429 "" "2"; answer 200 "{}" ""] 0 in
  let url := "https://example.org/" in
  Z.of_nat 1 < max_retries default_retry_config /\
  (forall j, (j <= 1)%nat -> retryable_failure (attempt_response w 0 url j)) /\
  sleeps (Fetch w 0 url default_retry_config) !! 1%nat = Some 2000 /\
  exponential_backoff w default_retry_config 1 = 200.
Proof.
  intros w url.
  assert (Z.of_nat 1 < max_retries default_retry_config) as H1 by (simpl; lia).
  assert (forall j, (j <= 1)%nat -> retryable_failure (attempt_response w 0 url j)) as H2.
  { intros [|[|j]] Hj; try lia; vm_compute; split; reflexivity. }
  split; [exact H1|]. split; [exact H2|].
  destruct (C6_wait_before_retry w 0 url default_retry_config 1 H1 H2)
    as (Hsleep & _ & _ & Hwhole).
  split; [exact Hsleep|].
  apply (Hwhole 2); [reflexivity | vm_compute; reflexivity | reflexivity|].
  vm_compute. split; discriminate.
Defined.

Lemma C7_witness :
  let w := scripted [answer 503 "" ""; answer 429 "" "2"; answer 500 "" ""; answer 504 "" ""] 0 in
  let url := "https://example.org/" in
  let r := fetched (Fetch w 0 url default_retry_config) in
  0 <= max_retries default_retry_config /\
  (forall j, Z.of_nat j <= max_retries default_retry_config ->
             retryable_failure (attempt_response w 0 url j)) /\
  success r = false /\
  error r = "Max retries exceeded for URL: https://example.org/" /\
  contains url (error r) /\
  gets (Fetch w 0 url default_retry_config) = 4%nat.
Proof.
  intros w url r.
  assert (0 <= max_retries default_retry_config) as H0 by (simpl; lia).
  assert (forall j, Z.of_nat j <= max_retries default_retry_config ->
                    retryable_failure (attempt_response w 0 url j)) as Hfail.
  { intros [|[|[|[|j]]]] Hj; try (simpl in Hj; lia); vm_compute; split; reflexivity. }
  split; [exact H0|]. split; [exact Hfail|].
  exact (proj2 (proj2 (proj2 (C7_retry_policy w 0 url default_retry_config H0))) Hfail).
Defined.

(** ** The predicate absorber *)

Section AbsorberFacts.

Variable FromString : string -> option Z.
Variable FromDatetime : Z -> option Z.

Local Arguments in_list_values : simpl never.

Local Abbreviation absorb := (absorb_filter FromString FromDatetime).
Local Abbreviation Pushdown := (GoogleSearchPushdownComplexFilter FromString FromDatetime).

Lemma fold_push_max_results (sites : list string) (bd : GoogleSearchBindData) :
  max_results (fold_left push_site_include sites bd) = max_results bd.
Proof. revert bd; induction sites as [|s sites IH]; intros bd; simpl; [reflexivity|]. now rewrite IH. Qed.

Lemma absorb_date_kept (set : GoogleSearchBindData -> Z -> GoogleSearchBindData)
    (bd : GoogleSearchBindData) (l r : Expression) :
  (forall b ts, max_results (set b ts) = max_results b) ->
  match absorb_date FromString FromDatetime set bd l r with
  | Removed _ => False
  | Kept bd' => max_results bd' = max_results bd
  | ConversionThrows => True
  end.
Proof.
  intros Hset. unfold absorb_date.
  destruct l; try reflexivity. destruct r; try reflexivity.
  destruct (_ || _); [|reflexivity].
  destruct (ts_value _ _ _); [apply Hset | reflexivity | exact Logic.I].
Qed.

(** One filter is removed exactly when it is a site predicate; the row cap
    is never touched. *)
Lemma absorb_filter_class (bd : GoogleSearchBindData) (filter : Expression) :
  match absorb bd filter with
  | Removed bd' => site_predicate filter = true /\ max_results bd' = max_results bd
  | Kept bd' => site_predicate filter = false /\ max_results bd' = max_results bd
  | ConversionThrows => site_predicate filter = false
  end.
Proof.
  destruct filter as [name idx|v|fname children|ty children|ty l r|i lo up|]; simpl;
    try (split; reflexivity).
  - destruct children as [|c0 [|c1 rest]]; try (split; reflexivity).
    destruct (String.eqb fname "suffix"); simpl;
      [destruct (site_constant c0 c1); split; reflexivity|].
    destruct (String.eqb fname "prefix"); simpl;
      [destruct (site_constant c0 c1); split; reflexivity|].
    split; reflexivity.
  - destruct children as [|[name idx|v|f c|t c|t l r|i lo up|] [|c1 rest]];
      try (split; reflexivity).
    destruct (String.eqb name "site"); simpl; [|split; reflexivity].
    destruct (in_list_values (c1 :: rest)); split; try reflexivity.
    apply fold_push_max_results.
  - destruct ty; try (split; reflexivity);
      try (destruct (site_constant l r); split; reflexivity).
    all: match goal with |- context [absorb_date _ _ ?set ?b ?x ?y] =>
           pose proof (absorb_date_kept set b x y (fun _ _ => eq_refl)) as H;
           destruct (absorb_date _ _ set b x y); [contradiction | now split | reflexivity]
         end.
Qed.

Lemma absorb_loop_indices (filters_ : list Expression) :
  forall i bd acc bd' to_remove,
    absorb_loop FromString FromDatetime i filters_ bd acc = Some (bd', to_remove) ->
    to_remove = acc ++ site_predicate_indices i filters_ /\
    max_results bd' = max_results bd.
Proof.
  induction filters_ as [|filter rest IH]; intros i bd acc bd' to_remove; simpl.
  - intros [= <- <-]. now rewrite app_nil_r.
  - pose proof (absorb_filter_class bd filter) as Hclass.
    destruct (absorb bd filter) as [bd1|bd1|]; [| |discriminate];
      destruct Hclass as [-> Hmax]; intros Hloop;
      apply IH in Hloop as [-> Hmax']; simpl; rewrite <- ?app_assoc;
      (split; [reflexivity | congruence]).
Qed.

(** Erasing the site predicates from the last index to the first leaves
    the other filters in their order. *)
Lemma erase_site_predicates (pre filters_ : list Expression) :
  erase_reversed (site_predicate_indices (length pre) filters_) (pre ++ filters_)
  = pre ++ filter (fun f => site_predicate f = false) filters_.
Proof.
  unfold erase_reversed. revert pre.
  induction filters_ as [|f rest IH]; intros pre; simpl; [reflexivity|].
  rewrite rev_app_distr, fold_left_app.
  specialize (IH (pre ++ [f])). rewrite length_app, Nat.add_1_r, <- !app_assoc in IH.
  simpl in IH. rewrite IH.
  rewrite filter_cons. destruct (site_predicate f) eqn:Hf; simpl.
  - apply delete_middle.
  - reflexivity.
Qed.

Lemma Pushdown_residual (bd bd' : GoogleSearchBindData) (filters_ residual : list Expression) :
  Pushdown bd filters_ = Some (bd', residual) ->
  residual = filter (fun f => site_predicate f = false) filters_ /\
  max_results bd' = max_results bd.
Proof.
  unfold GoogleSearchPushdownComplexFilter.
  destruct (absorb_loop _ _ 0 filters_ bd []) as [[bd1 to_remove]|] eqn:Hloop; [|discriminate].
  intros [= <- <-]. apply absorb_loop_indices in Hloop as [-> Hmax].
  split; [|exact Hmax]. apply (erase_site_predicates []).
Qed.

End AbsorberFacts.

(** *** The claims on the absorber *)

Lemma date_predicate_not_site (filter : Expression) :
  date_predicate filter = true -> site_predicate filter = false.
Proof.
  destruct filter as [name idx|v|fname children|ty children|ty l r|i lo up|];
    simpl; try discriminate.
  destruct ty; try discriminate; reflexivity.
Qed.

(** C3, the code at the claim's input.  A suffix predicate on the site
    column is removed from the filters, but its constant goes into the
    included sites as it is: for [suffix(site, '.example.com')], the bound
    form of [site LIKE '%.example.com'], the pattern stored is
    ['.example.com'] with its leading dot, not the bare domain.  The helper
    [ExtractLikePattern], which no function calls, strips the wildcard and
    keeps the dot as well. *)
Theorem C3_suffix_pattern_keeps_dot (FromString : string -> option Z)
    (FromDatetime : Z -> option Z) (bd : GoogleSearchBindData) (column_index : nat) :
  (forall v, type_id v = VARCHAR ->
     GoogleSearchPushdownComplexFilter FromString FromDatetime bd
       [BoundFunction "suffix" [BoundColumnRef "site" column_index; BoundConstant v]]
     = Some (push_site_include bd (ToString v), [])) /\
  site_includes (push_site_include bd ".example.com")
  = site_includes bd ++ [".example.com"] /\
  ".example.com" <> "example.com" /\
  ExtractLikePattern "%.example.com" = (".example.com", false, true).
Proof.
  split; [|split; [reflexivity | split; [discriminate | reflexivity]]].
  intros v Hv. unfold GoogleSearchPushdownComplexFilter. simpl. now rewrite Hv.
Qed.

(** C5.  Whenever the absorber returns, the filters it leaves are the
    filters it was given without the recognised site predicates, in the
    same order: every lower or upper bound on a column named "timestamp" or
    "date" is still there, also when its constant was stored as a date
    bound of the scan, and every recognised site predicate is gone. *)
Theorem C5_date_bounds_stay (FromString : string -> option Z)
    (FromDatetime : Z -> option Z) (bd bd' : GoogleSearchBindData)
    (filters_ residual : list Expression) :
  GoogleSearchPushdownComplexFilter FromString FromDatetime bd filters_
  = Some (bd', residual) ->
  residual = filter (fun f => site_predicate f = false) filters_ /\
  residual `sublist_of` filters_ /\
  (forall f, f ∈ filters_ -> date_predicate f = true -> f ∈ residual) /\
  (forall f, f ∈ filters_ -> site_predicate f = true -> f ∉ residual) /\
  (forall b name idx v ts,
      name = "timestamp" \/ name = "date" ->
      ts_value FromString FromDatetime v = IsTimestamp ts ->
      let bound ty := BoundComparison ty (BoundColumnRef name idx) (BoundConstant v) in
      absorb_filter FromString FromDatetime b (bound COMPARE_GREATERTHAN)
      = Kept (set_date_from b ts) /\
      absorb_filter FromString FromDatetime b (bound COMPARE_GREATERTHANOREQUALTO)
      = Kept (set_date_from b ts) /\
      absorb_filter FromString FromDatetime b (bound COMPARE_LESSTHAN)
      = Kept (set_date_to b ts) /\
      absorb_filter FromString FromDatetime b (bound COMPARE_LESSTHANOREQUALTO)
      = Kept (set_date_to b ts)).
Proof.
  intros Hpush. apply Pushdown_residual in Hpush as [-> _].
  split; [reflexivity|]. split; [apply sublist_filter|].
  split; [|split].
  - intros f Hin Hdate. apply list_elem_of_filter. split; [|exact Hin].
    now apply date_predicate_not_site.
  - intros f Hin Hsite Hres. apply list_elem_of_filter in Hres as [Hkeep _]. congruence.
  - intros b name idx v ts Hname Hts bound. unfold bound. simpl. rewrite Hts.
    now destruct Hname as [-> | ->].
Qed.

Lemma C5_witness :
  let FromString (s : string) := if String.eqb s "2024-01-01" then Some 1704067200000000 else None in
  let FromDatetime (d : Z) := Some (d * 86400000000) in
  let site_ := BoundColumnRef "site" 11 in
  let date_ := BoundColumnRef "date" 12 in
  let varchar s := BoundConstant (mkValue VARCHAR s 0) in
  let since := BoundComparison COMPARE_GREATERTHANOREQUALTO date_ (varchar "2024-01-01") in
  let filters_ :=
    [BoundComparison COMPARE_EQUAL site_ (varchar "example.com");
     since;
     BoundFunction "contains" [BoundColumnRef "title" 0; varchar "rust"];
     BoundComparison COMPARE_NOTEQUAL site_ (varchar "spam.example")] in
  let bd := GoogleSearchBind "rust" "key" "cx" default_filters in
  let bd' :=
    push_site_exclude
      (set_date_from (push_site_include bd "example.com") 1704067200000000)
      "spam.example" in
  let residual := [since; BoundFunction "contains" [BoundColumnRef "title" 0; varchar "rust"]] in
  GoogleSearchPushdownComplexFilter FromString FromDatetime bd filters_
  = Some (bd', residual) /\
  since ∈ residual.
Proof.
  intros FromString FromDatetime site_ date_ varchar since filters_ bd bd' residual.
  assert (GoogleSearchPushdownComplexFilter FromString FromDatetime bd filters_
          = Some (bd', residual)) as Hpush by (vm_compute; reflexivity).
  split; [exact Hpush|].
  apply (C5_date_bounds_stay FromString FromDatetime bd bd' filters_ residual Hpush).
  - unfold filters_. apply list_elem_of_In. simpl. tauto.
  - reflexivity.
Defined.

(** ** The plan rewrites *)

Section PlanFacts.

(** Induction on plans, with the hypothesis for every child of a node. *)
Lemma LogicalOperator_children_ind (P : LogicalOperator -> Prop) :
  (forall limit_val child, P child -> P (LOGICAL_LIMIT limit_val child)) ->
  (forall child, P child -> P (LOGICAL_PROJECTION child)) ->
  (forall orders child, P child -> P (LOGICAL_ORDER_BY orders child)) ->
  (forall name bd children, Forall P children -> P (LOGICAL_GET name bd children)) ->
  (forall children, Forall P children -> P (LOGICAL_OTHER children)) ->
  forall op, P op.
Proof.
  intros Hlimit Hproj Horder Hget Hother.
  fix IH 1. intros [limit_val child|child|orders child|name bd children|children].
  - apply Hlimit, IH.
  - apply Hproj, IH.
  - apply Horder, IH.
  - apply Hget. induction children as [|c cs IHcs]; constructor; [apply IH | exact IHcs].
  - apply Hother. induction children as [|c cs IHcs]; constructor; [apply IH | exact IHcs].
Qed.

Variable R : GoogleSearchBindData -> GoogleSearchBindData -> Prop.
Hypothesis R_refl : forall bd, R bd bd.

Lemma Forall2_R_refl (l : list GoogleSearchBindData) : Forall2 R l l.
Proof. induction l; constructor; auto. Qed.

Lemma Forall2_concat_map (f g : LogicalOperator -> LogicalOperator)
    (children : list LogicalOperator) :
  Forall (fun c => Forall2 R (google_search_scans c) (google_search_scans (f c))) children ->
  Forall2 R (concat (List.map google_search_scans children))
            (concat (List.map google_search_scans (List.map f children))).
Proof.
  induction 1 as [|c cs Hc _ IH]; simpl; [constructor|]. now apply Forall2_app.
Qed.

(** An assignment to the bind data found below projections changes that
    scan only. *)
Lemma update_get_scans (f : GoogleSearchBindData -> GoogleSearchBindData)
    (op : LogicalOperator) :
  (forall bd, R bd (f bd)) ->
  Forall2 R (google_search_scans op) (google_search_scans (update_get f op)).
Proof.
  intros Hf. induction op as [lv c IH|c IH|o c IH|name bd cs _|cs _]
    using LogicalOperator_children_ind; simpl; try apply Forall2_R_refl.
  - exact IH.
  - apply Forall2_app; [|apply Forall2_R_refl].
    destruct (String.eqb name "google_search"); constructor; [apply Hf | constructor].
Qed.

Lemma OptimizeLimit_scans :
  (forall bd L, R bd (with_max_results bd (Z.min L 100))) ->
  forall op,
    Forall2 R (google_search_scans op)
              (google_search_scans (OptimizeGoogleSearchLimitPushdown op)).
Proof.
  intros Hcap op.
  induction op as [lv c IH|c IH|o c IH|name bd cs IH|cs IH]
    using LogicalOperator_children_ind; simpl; try exact IH.
  - destruct (skip_projections c); simpl; try exact IH.
    destruct (negb _); simpl; [exact IH|].
    destruct lv; simpl; try exact IH; [apply Forall2_R_refl|].
    apply update_get_scans. intros b. apply Hcap.
  - apply Forall2_app; [apply Forall2_R_refl | now apply Forall2_concat_map].
  - now apply Forall2_concat_map.
Qed.

Lemma OptimizeOrderBy_scans :
  (forall bd s, R bd (set_sort_if_empty s bd)) ->
  forall op,
    Forall2 R (google_search_scans op)
              (google_search_scans (OptimizeGoogleSearchOrderByPushdown op)).
Proof.
  intros Hsort op.
  induction op as [lv c IH|c IH|o c IH|name bd cs IH|cs IH]
    using LogicalOperator_children_ind; simpl; try exact IH.
  - destruct (skip_projections c); simpl; try exact IH.
    destruct (negb _); simpl; [exact IH|].
    destruct (sort_param_of _ _); simpl; [|exact IH].
    apply update_get_scans. intros b. apply Hsort.
  - apply Forall2_app; [apply Forall2_R_refl | now apply Forall2_concat_map].
  - now apply Forall2_concat_map.
Qed.

End PlanFacts.

Lemma skip_projections_projections (k : nat) (op : LogicalOperator) :
  skip_projections (projections k op) = skip_projections op.
Proof. induction k as [|k IH]; simpl; [reflexivity | exact IH]. Qed.

Lemma update_get_projections (f : GoogleSearchBindData -> GoogleSearchBindData) (k : nat)
    (name : string) (bd : GoogleSearchBindData) (children : list LogicalOperator) :
  update_get f (projections k (LOGICAL_GET name bd children))
  = projections k (LOGICAL_GET name (f bd) children).
Proof. induction k as [|k IH]; simpl; [reflexivity | now rewrite IH]. Qed.

(** With a row cap of at most 100 the per-site mode is never selected. *)
Lemma capped_scan_is_combined (bd : GoogleSearchBindData) :
  max_results bd <= 100 -> use_per_site_queries bd = false.
Proof.
  intros Hcap. unfold use_per_site_queries.
  destruct (Z.ltb_spec 100 (max_results bd)); [lia|]. apply andb_false_r.
Qed.

(** C2.  The row cap is 100 after [GoogleSearchBind]; the filter pushdown
    and the ORDER BY rewrite leave it as it is; the LIMIT rewrite leaves
    the cap of every scan as it is or sets it to [min(L, 100)] for a
    constant limit [L], which it does for a constant limit directly above
    (projections above) a google_search scan, while an unset limit changes
    nothing; so a plan whose caps are at most 100 keeps them at most 100. *)
Theorem C2_row_cap_at_most_100 (FromString : string -> option Z)
    (FromDatetime : Z -> option Z) :
  (forall q key cx_ f, max_results (GoogleSearchBind q key cx_ f) = 100) /\
  (forall bd filters_ bd' residual,
      GoogleSearchPushdownComplexFilter FromString FromDatetime bd filters_
      = Some (bd', residual) ->
      max_results bd' = max_results bd) /\
  (forall op,
      Forall2 (fun bd bd' => max_results bd' = max_results bd)
              (google_search_scans op)
              (google_search_scans (OptimizeGoogleSearchOrderByPushdown op))) /\
  (forall op,
      Forall2 (fun bd bd' => bd' = bd \/
                             exists L, bd' = with_max_results bd (Z.min L 100))
              (google_search_scans op)
              (google_search_scans (OptimizeGoogleSearchLimitPushdown op))) /\
  (forall L k bd children,
      OptimizeGoogleSearchLimitPushdown
        (LOGICAL_LIMIT (CONSTANT_VALUE L)
           (projections k (LOGICAL_GET "google_search" bd children)))
      = LOGICAL_LIMIT (CONSTANT_VALUE L)
          (projections k
             (LOGICAL_GET "google_search" (with_max_results bd (Z.min L 100)) children)) /\
      max_results (with_max_results bd (Z.min L 100)) = Z.min L 100 /\
      Z.min L 100 <= 100) /\
  (forall k bd children,
      let plan := LOGICAL_LIMIT UNSET
                    (projections k (LOGICAL_GET "google_search" bd children)) in
      OptimizeGoogleSearchLimitPushdown plan = plan) /\
  (forall op,
      caps_at_most_100 op ->
      caps_at_most_100 (OptimizeGoogleSearchLimitPushdown op) /\
      caps_at_most_100 (OptimizeGoogleSearchOrderByPushdown op)).
Proof.
  split; [reflexivity|].
  split; [intros bd fs bd' res H; now apply Pushdown_residual in H|].
  assert (forall op,
      Forall2 (fun bd bd' => max_results bd' = max_results bd)
              (google_search_scans op)
              (google_search_scans (OptimizeGoogleSearchOrderByPushdown op))) as Horder.
  { apply OptimizeOrderBy_scans; [reflexivity|].
    intros bd s. unfold set_sort_if_empty. now destruct (Str.empty _). }
  assert (forall op,
      Forall2 (fun bd bd' => bd' = bd \/
                             exists L, bd' = with_max_results bd (Z.min L 100))
              (google_search_scans op)
              (google_search_scans (OptimizeGoogleSearchLimitPushdown op))) as Hlimit.
  { apply OptimizeLimit_scans; [now left|]. intros bd L. right. now exists L. }
  split; [exact Horder|]. split; [exact Hlimit|].
  split; [|split].
  - intros L k bd children. simpl. rewrite skip_projections_projections. simpl.
    rewrite update_get_projections. repeat split. lia.
  - intros k bd children plan. unfold plan. simpl.
    now rewrite skip_projections_projections.
  - intros op Hcaps. unfold caps_at_most_100 in *. split.
    + specialize (Hlimit op). revert Hcaps Hlimit.
      generalize (google_search_scans op),
                 (google_search_scans (OptimizeGoogleSearchLimitPushdown op)).
      intros l l' Hl H. induction H as [|bd bd' l l' Hbd _ IH]; [constructor|].
      apply Forall_cons in Hl as [Hhd Htl]. constructor; [|now apply IH].
      destruct Hbd as [->|[L ->]]; simpl; lia.
    + specialize (Horder op). revert Hcaps Horder.
      generalize (google_search_scans op),
                 (google_search_scans (OptimizeGoogleSearchOrderByPushdown op)).
      intros l l' Hl H. induction H as [|bd bd' l l' Hbd _ IH]; [constructor|].
      apply Forall_cons in Hl as [Hhd Htl]. constructor; [|now apply IH]. lia.
Qed.

(** ** The query compiler *)

Section UrlFacts.

Lemma add_param_app (a b name value : string) :
  add_param (a +:+ b) name value = a +:+ add_param b name value.
Proof. unfold add_param. destruct (Str.empty value); [reflexivity | apply app_assoc_s]. Qed.

(** [BuildGoogleSearchUrl] is its three stretches one after the other; the
    clock is read for the middle one only. *)
Lemma BuildGoogleSearchUrl_parts (now : Z) (bd : GoogleSearchBindData) (start : Z)
    (site_filter : string) (use_or_sites : bool) :
  BuildGoogleSearchUrl now bd start site_filter use_or_sites
  = url_through_site_search bd start site_filter use_or_sites
    +:+ date_param now bd +:+ url_named_filters (filters bd).
Proof.
  unfold BuildGoogleSearchUrl, url_named_filters, date_param, url_through_site_search.
  cbv zeta.
  set (head := if negb (Str.empty site_filter) then _ else _).
  set (token := TimestampToDateRestrict now (date_from bd) (date_to bd)).
  destruct (has_date_filter bd && negb (date_from bd =? 0));
    [destruct (negb (Str.empty token))|];
    rewrite ?app_nil_l;
    [ rewrite <- (app_empty_r (head +:+ "&dateRestrict=" +:+ UrlEncode token)) at 1
    | rewrite <- (app_empty_r head) at 1
    | rewrite <- (app_empty_r head) at 1 ];
    rewrite ?app_assoc_s, !add_param_app; rewrite ?app_assoc_s; reflexivity.
Qed.

Lemma pretty_N_char_alnum (n : N) : isalnum (pretty_N_char n) = true.
Proof. unfold pretty_N_char. repeat case_match; reflexivity. Qed.

Lemma UrlEncode_pretty_N_go (x : N) : forall s,
  UrlEncode s = s -> UrlEncode (pretty_N_go x s) = pretty_N_go x s.
Proof.
  induction (N.lt_wf_0 x) as [x _ IH]. intros s Hs.
  destruct (N.eq_dec x 0%N) as [->|Hx]; [now rewrite pretty_N_go_0|].
  rewrite pretty_N_go_step by lia. apply IH; [apply N.div_lt; lia|].
  change (UrlEncode (String ?c ?r))
    with ((if isalnum c || Ascii.eqb c "-" || Ascii.eqb c "_" || Ascii.eqb c "."
              || Ascii.eqb c "~"
           then String c EmptyString else percent_encode c) +:+ UrlEncode r).
  now rewrite Hs, pretty_N_char_alnum.
Qed.

(** The decimal digits of a positive number need no escaping. *)
Lemma UrlEncode_pretty (z : Z) : 0 < z -> UrlEncode (pretty z) = pretty z.
Proof.
  destruct z as [|p|p]; try lia. intros _.
  change (pretty (Z.pos p)) with (pretty_N_go (N.pos p) "").
  now apply UrlEncode_pretty_N_go.
Qed.

Lemma elapsed_token (now from_ts to_ts : Z) :
  let d := elapsed_days now from_ts in
  let token := TimestampToDateRestrict now from_ts to_ts in
  (d <= 0 -> token = "") /\
  (1 <= d <= 7 -> token = "d" +:+ pretty d) /\
  (8 <= d <= 31 ->
   exists weeks, token = "w" +:+ pretty weeks /\ 7 * (weeks - 1) < d <= 7 * weeks) /\
  (32 <= d <= 365 ->
   exists months, token = "m" +:+ pretty months /\ 30 * (months - 1) < d <= 30 * months) /\
  (365 < d ->
   exists years, token = "y" +:+ pretty years /\ 365 * (years - 1) < d <= 365 * years) /\
  (1 <= d -> token <> "" /\ UrlEncode token = token).
Proof.
  intros d token. unfold token, TimestampToDateRestrict. fold (elapsed_days now from_ts).
  fold d. cbv zeta.
  assert (forall k, 0 < k -> 0 < d ->
            k * (Z.quot (d + (k - 1)) k - 1) < d <= k * Z.quot (d + (k - 1)) k
            /\ 0 < Z.quot (d + (k - 1)) k) as Hceil.
  { intros k Hk Hd. rewrite Z.quot_div_nonneg by lia.
    pose proof (Z.div_mod (d + (k - 1)) k ltac:(lia)) as Hdm.
    pose proof (Z.mod_pos_bound (d + (k - 1)) k Hk) as Hmod. nia. }
  assert (forall (c : ascii) z, isalnum c = true -> 0 < z ->
            String c (pretty z) <> "" /\ UrlEncode (String c (pretty z)) = String c (pretty z))
    as Hsafe.
  { intros c z Hc Hz. split; [discriminate|]. simpl. rewrite Hc. simpl.
    now rewrite UrlEncode_pretty. }
  destruct (Z.leb_spec d 0); [repeat split; intros; try lia; reflexivity|].
  destruct (Z.leb_spec d 7).
  { repeat split; intros; try lia; try reflexivity; now apply (Hsafe "d"%char). }
  destruct (Z.leb_spec d 31).
  { destruct (Hceil 7) as [Hw Hpos]; try lia.
    repeat split; intros; try lia; try (now apply (Hsafe "w"%char)).
    eexists; split; [reflexivity | exact Hw]. }
  destruct (Z.leb_spec d 365).
  { destruct (Hceil 30) as [Hm Hpos]; try lia.
    repeat split; intros; try lia; try (now apply (Hsafe "m"%char)).
    eexists; split; [reflexivity | exact Hm]. }
  destruct (Hceil 365) as [Hy Hpos]; try lia.
  repeat split; intros; try lia; try (now apply (Hsafe "y"%char)).
  eexists; split; [reflexivity | exact Hy].
Qed.

End UrlFacts.

(** *** The claims on the query compiler *)

(** C4, as the specification states it, fails for a request with a date
    lower bound: the builder reads the wall clock, and the same request
    built seven and eight days after its bound gets two different URLs
    ([dateRestrict=d7] and [dateRestrict=w2]). *)
Lemma C4_counterexample :
  let bd := set_date_from (GoogleSearchBind "rust" "key" "cx" default_filters)
                          1704067200000000 in
  let first := BuildGoogleSearchUrl (1704067200 + 7 * 86400) bd 1 "" false in
  let second := BuildGoogleSearchUrl (1704067200 + 8 * 86400) bd 1 "" false in
  TimestampToDateRestrict (1704067200 + 7 * 86400) (date_from bd) (date_to bd) = "d7" /\
  TimestampToDateRestrict (1704067200 + 8 * 86400) (date_from bd) (date_to bd) = "w2" /\
  first <> second.
Proof.
  split; [reflexivity|]. split; [reflexivity|].
  intros H. apply String.eqb_eq in H. vm_compute in H. discriminate.
Qed.

(** C4, amended.  Two builds from the same request, start index, site
    override and combine flag give the same URL when the request has no
    date lower bound, or when the clock stands at the same number of whole
    days after the bound at both builds (as it does at one and the same
    reading): the builder keeps no state, and the clock is its only input
    besides its arguments. *)
Theorem C4_same_request_same_url (now1 now2 : Z) (bd : GoogleSearchBindData) (start : Z)
    (site_filter : string) (use_or_sites : bool) :
  has_date_filter bd = false \/ date_from bd = 0 \/
  elapsed_days now1 (date_from bd) = elapsed_days now2 (date_from bd) ->
  BuildGoogleSearchUrl now1 bd start site_filter use_or_sites
  = BuildGoogleSearchUrl now2 bd start site_filter use_or_sites.
Proof.
  intros H. rewrite !BuildGoogleSearchUrl_parts. do 2 f_equal.
  unfold date_param. destruct H as [-> | [-> | H]]; try reflexivity.
  - now rewrite andb_false_r.
  - unfold TimestampToDateRestrict. fold (elapsed_days now1 (date_from bd)).
    fold (elapsed_days now2 (date_from bd)). now rewrite H.
Qed.

Lemma C4_witness :
  let bd := set_date_from (GoogleSearchBind "rust" "key" "cx" default_filters)
                          1704067200000000 in
  let morning := 1704067200 + 3 * 86400 + 8 * 3600 in
  let evening := 1704067200 + 3 * 86400 + 20 * 3600 in
  elapsed_days morning (date_from bd) = elapsed_days evening (date_from bd) /\
  BuildGoogleSearchUrl morning bd 11 "" false = BuildGoogleSearchUrl evening bd 11 "" false.
Proof.
  intros bd morning evening.
  assert (elapsed_days morning (date_from bd) = elapsed_days evening (date_from bd)) as H
      by reflexivity.
  split; [exact H|].
  apply (C4_same_request_same_url morning evening bd 11 "" false). right. right. exact H.
Defined.

(** C8, as the specification states it, fails in two places.  A bound
    twelve hours in the past is not in the future and lies [d = 0] whole
    days back, so the stated token is that of the last case, [y0]; the
    code emits none.  And a bound at the epoch, whose stored value 0 the
    builder takes for "not set", is thousands of days back, so the stated
    token is [y55]; the URL has no [dateRestrict] at all. *)
Lemma C8_counterexample :
  let fresh := GoogleSearchBind "rust" "key" "cx" default_filters in
  let now := 1704110400 in
  let midnight := 1704067200000000 in
  let bd := set_date_from fresh midnight in
  let epoch := set_date_from fresh 0 in
  (midnight < now * 1000000 /\ elapsed_days now midnight = 0 /\
   spec_date_token now midnight = "y0" /\
   TimestampToDateRestrict now midnight 0 = "" /\
   BuildGoogleSearchUrl now bd 1 "" false
   = BuildGoogleSearchUrl now (without_date_filter bd) 1 "" false) /\
  (has_date_filter epoch = true /\ elapsed_days now 0 = 19723 /\
   spec_date_token now 0 = "y55" /\
   BuildGoogleSearchUrl now epoch 1 "" false
   = BuildGoogleSearchUrl now (without_date_filter epoch) 1 "" false).
Proof. vm_compute. repeat split. Qed.

(** C8, amended.  For a date lower bound with a non-zero timestamp value
    and [d] whole days between it and the clock: for [d <= 0] (a bound in
    the future, or less than a day old) no [dateRestrict] parameter is
    written; for [1 <= d <= 7] the token is [d<d>]; for [8 <= d <= 31] it
    is [w<ceil(d/7)>]; for [32 <= d <= 365] it is [m<ceil(d/30)>]; for
    [d > 365] it is [y<ceil(d/365)>]; and for [d >= 1] the URL is the URL of
    the request without its date bound with [&dateRestrict=<token>]
    inserted. *)
Theorem C8_date_restrict_token (now : Z) (bd : GoogleSearchBindData) (start : Z)
    (site_filter : string) (use_or_sites : bool) :
  has_date_filter bd = true -> date_from bd <> 0 ->
  let d := elapsed_days now (date_from bd) in
  let token := TimestampToDateRestrict now (date_from bd) (date_to bd) in
  let url := BuildGoogleSearchUrl now bd start site_filter use_or_sites in
  let bare := BuildGoogleSearchUrl now (without_date_filter bd) start site_filter use_or_sites in
  (d <= 0 -> token = "" /\ url = bare) /\
  (1 <= d <= 7 -> token = "d" +:+ pretty d) /\
  (8 <= d <= 31 ->
   exists weeks, token = "w" +:+ pretty weeks /\ 7 * (weeks - 1) < d <= 7 * weeks) /\
  (32 <= d <= 365 ->
   exists months, token = "m" +:+ pretty months /\ 30 * (months - 1) < d <= 30 * months) /\
  (365 < d ->
   exists years, token = "y" +:+ pretty years /\ 365 * (years - 1) < d <= 365 * years) /\
  (1 <= d ->
   exists head tail,
     bare = head +:+ tail /\
     url = head +:+ "&dateRestrict=" +:+ token +:+ tail).
Proof.
  intros Hhas Hfrom d token url bare.
  destruct (elapsed_token now (date_from bd) (date_to bd))
    as (Hnone & Hd & Hw & Hm & Hy & Hsafe).
  fold d token in Hnone, Hd, Hw, Hm, Hy, Hsafe.
  assert (bare = url_through_site_search bd start site_filter use_or_sites
                 +:+ url_named_filters (filters bd)) as Hbare.
  { unfold bare. rewrite BuildGoogleSearchUrl_parts. reflexivity. }
  assert (url = url_through_site_search bd start site_filter use_or_sites
                +:+ (if negb (Str.empty token) then "&dateRestrict=" +:+ UrlEncode token
                     else "")
                +:+ url_named_filters (filters bd)) as Hurl.
  { unfold url. rewrite BuildGoogleSearchUrl_parts. unfold date_param. rewrite Hhas.
    destruct (Z.eqb_spec (date_from bd) 0); [contradiction | reflexivity]. }
  split; [|repeat split; try assumption].
  - intros Hle. split; [now apply Hnone|]. rewrite Hurl, Hbare, (Hnone Hle). reflexivity.
  - intros Hge. destruct (Hsafe Hge) as [Hne Henc].
    exists (url_through_site_search bd start site_filter use_or_sites),
           (url_named_filters (filters bd)).
    split; [exact Hbare|]. rewrite Hurl, Henc.
    destruct token; [contradiction|]. simpl. now rewrite !app_assoc_s.
Qed.

Lemma C8_witness :
  let bd := set_date_from (GoogleSearchBind "rust" "key" "cx" default_filters)
                          1704067200000000 in
  let now := 1704067200 + 40 * 86400 + 5 in
  has_date_filter bd = true /\ date_from bd <> 0 /\
  elapsed_days now (date_from bd) = 40 /\
  exists months,
    TimestampToDateRestrict now (date_from bd) (date_to bd) = "m" +:+ pretty months /\
    30 * (months - 1) < elapsed_days now (date_from bd) <= 30 * months.
Proof.
  intros bd now.
  assert (has_date_filter bd = true) as H1 by reflexivity.
  assert (date_from bd <> 0) as H2 by (simpl; lia).
  split; [exact H1|]. split; [exact H2|]. split; [reflexivity|].
  apply (C8_date_restrict_token now bd 1 "" false H1 H2).
  change (elapsed_days now (date_from bd)) with 40. lia.
Defined.

(* ===================================================================== *)
(** * Part III: further properties of the code                            *)
(* ===================================================================== *)

(** ** The scan as a whole *)

Section ScanBounds.

Variable w : Transport.
Variable yyjson_read : string -> option JsonDoc.
Variable bind_data : GoogleSearchBindData.

Local Abbreviation n_sites := (length (site_includes bind_data)).
Local Abbreviation scan := (GoogleSearchInitGlobal w yyjson_read bind_data).

Lemma push_items_capped (items : list JsonItem) (max_ : Z) : forall res,
  (length res <= Z.to_nat max_)%nat ->
  (length (push_items items res max_) <= Z.to_nat max_)%nat.
Proof.
  induction items as [|item items IH]; intros res Hres; simpl; [exact Hres|].
  destruct (Z.geb_spec (Z.of_nat (length res)) max_); [exact Hres|].
  apply IH. rewrite length_app. simpl. lia.
Qed.

Lemma Parse_capped (body_ : string) (st st' : GoogleSearchGlobalState) (nxt : Z) :
  (length (results st) <= Z.to_nat (max_results bind_data))%nat ->
  ParseGoogleSearchResponse yyjson_read bind_data body_ st = inr (st', nxt) ->
  (length (results st') <= Z.to_nat (max_results bind_data))%nat.
Proof.
  intros Hres Hparse.
  apply Parse_inr in Hparse as (_ & _ & _ & _ & [[-> _]|(item & items & ->)]);
    [exact Hres | now apply push_items_capped].
Qed.

Lemma scan_capped :
  (length (results_of scan) <= Z.to_nat (max_results bind_data))%nat.
Proof.
  destruct scan as [tr st t|tr e|tr] eqn:Hscan; simpl; try lia.
  revert Hscan. unfold GoogleSearchInitGlobal, FetchGoogleSearchResults.
  destruct (use_per_site_queries bind_data).
  - apply run_loop_Done
      with (Inv := fun (_ : list PageFetch) st =>
                     (length (results st) <= Z.to_nat (max_results bind_data))%nat).
    + intros tr0 st0 t0 req st' t' Hres Hs.
      apply per_site_step_Continue in Hs as [_ Hs].
      destruct Hs as (b & st1 & nxt & Hparse & _ & -> & _).
      now apply Parse_capped in Hparse.
    + intros tr0 st0 t0 st' t' Hres Hs.
      apply per_site_step_Finished in Hs as (-> & _). exact Hres.
    + simpl. lia.
  - apply run_loop_Done
      with (Inv := fun (_ : list PageFetch) st =>
                     (length (results st) <= Z.to_nat (max_results bind_data))%nat).
    + intros tr0 st0 t0 req st' t' Hres Hs.
      apply combined_step_Continue in Hs as [_ Hs].
      destruct Hs as (b & st1 & nxt & Hparse & _ & ->).
      apply Parse_capped in Hparse; [|exact Hres]. now destruct (_ || _).
    + intros tr0 st0 t0 st' t' Hres Hs. now apply combined_step_Finished in Hs as ->.
    + simpl. lia.
Qed.

Lemma scan_requests_bounded : (length (trace_of scan) <= request_budget bind_data)%nat.
Proof.
  unfold request_budget, GoogleSearchInitGlobal, FetchGoogleSearchResults.
  destruct (use_per_site_queries bind_data) eqn:Hmode.
  - apply run_loop_trace
      with (Inv := fun tr st =>
                     per_site_inv bind_data st /\
                     (length tr + per_site_measure bind_data st
                      <= Z.to_nat (max_results bind_data) + n_sites)%nat).
    + intros tr st [_ H]. lia.
    + intros tr st t req st' t' [HI Hlen] Hs.
      destruct (per_site_step_decreases _ _ _ _ _ _ _ _ HI Hs) as [HI' Hdec].
      split; [exact HI'|]. rewrite length_app. simpl. lia.
    + intros tr st t req e [HI Hlen] Hs. apply per_site_step_Thrown in Hs as [Hreq _].
      destruct Hreq as (Hlt & _). rewrite length_app. simpl.
      unfold per_site_measure in Hlen. lia.
    + intros tr st t st' t' [[Hl Hc] Hlen] Hs.
      apply per_site_step_Finished in Hs as (Hres & Hss & Hidx).
      unfold per_site_inv, per_site_measure in *. rewrite Hres, Hss.
      repeat split; try assumption.
      destruct Hidx as [->| ->]; [exact Hc | now apply next_site_lt].
    + split; [now apply per_site_initial|]. unfold per_site_measure. simpl.
      pose proof (active_sites_le (resize_site_states [] n_sites)) as Hle.
      rewrite length_resize in Hle. lia.
  - apply run_loop_trace
      with (Inv := fun tr st =>
                     (length tr + combined_measure bind_data st
                      <= Z.to_nat (max_results bind_data))%nat).
    + intros tr st H. lia.
    + intros tr st t req st' t' Hlen Hs.
      destruct (combined_step_decreases _ _ _ _ _ _ _ _ _ Logic.I Hs) as [_ Hdec].
      rewrite length_app. simpl. lia.
    + intros tr st t req e Hlen Hs. apply combined_step_Thrown in Hs as [Hreq _].
      destruct Hreq as (Hlt & Hfc & _). rewrite length_app. simpl.
      unfold combined_measure in Hlen. rewrite Hfc in Hlen. lia.
    + intros tr st t st' t' Hlen Hs. now apply combined_step_Finished in Hs as ->.
    + unfold combined_measure. simpl. lia.
Qed.

End ScanBounds.

(** X1.  A scan never keeps more records than its row cap, whatever the
    server sends: the cap is enforced inside a page. *)
Theorem X1_records_within_cap (w : Transport) (yyjson_read : string -> option JsonDoc)
    (bind_data : GoogleSearchBindData) :
  Z.of_nat (length (results_of (GoogleSearchInitGlobal w yyjson_read bind_data)))
  <= Z.max 0 (max_results bind_data).
Proof. pose proof (scan_capped w yyjson_read bind_data). lia. Qed.

(** X2.  A scan issues at most as many page requests as its row cap in the
    single-query mode, and at most the cap plus the number of sites in the
    per-site mode, whatever the server sends; it always ends. *)
Theorem X2_requests_within_budget (w : Transport) (yyjson_read : string -> option JsonDoc)
    (bind_data : GoogleSearchBindData) :
  let scan := GoogleSearchInitGlobal w yyjson_read bind_data in
  (length (trace_of scan) <= request_budget bind_data)%nat /\
  (use_per_site_queries bind_data = false ->
   Z.of_nat (length (trace_of scan)) <= Z.max 0 (max_results bind_data)) /\
  (exists trace, (exists st tick, scan = Done trace st tick) \/ (exists e, scan = Failed trace e)).
Proof.
  intros scan. pose proof (scan_requests_bounded w yyjson_read bind_data) as Hb.
  split; [exact Hb|]. split.
  - intros Hmode. unfold request_budget in Hb. rewrite Hmode in Hb. fold scan in Hb. lia.
  - pose proof (FetchGoogleSearchResults_terminates w yyjson_read bind_data) as Hterm.
    fold scan in Hterm. destruct scan as [tr st t|tr e|tr]; [| |now destruct (Hterm tr)];
      exists tr; [left | right]; eauto.
Qed.

Section CombinedChain.

Variable w : Transport.
Variable yyjson_read : string -> option JsonDoc.
Variable bind_data : GoogleSearchBindData.

(** X3.  In the single-query mode the first request starts at 1 and every
    later request starts at the next start index the response before it
    carried; all requests but the last start below 100 and were answered
    with a next start, and the last one either was so too, or threw, or
    exhausted the cursor. *)
Theorem X3_requests_follow_tokens :
  use_per_site_queries bind_data = false ->
  exists chain cursor,
    token_chain 1 chain cursor /\
    (trace_of (GoogleSearchInitGlobal w yyjson_read bind_data) = chain \/
     exists r, trace_of (GoogleSearchInitGlobal w yyjson_read bind_data) = chain ++ [r] /\
               pf_start r = cursor /\ (pf_next_start r = None \/ exhausting r)).
Proof.
  intros Hmode. unfold GoogleSearchInitGlobal, FetchGoogleSearchResults. rewrite Hmode.
  set (Good := fun tr : list PageFetch =>
         exists chain cursor,
           token_chain 1 chain cursor /\
           (tr = chain \/
            exists r, tr = chain ++ [r] /\ pf_start r = cursor /\
                      (pf_next_start r = None \/ exhausting r))).
  change (Good (trace_of (run_loop
            (combined_step w yyjson_read bind_data
               (negb (length (site_includes bind_data) =? 0)%nat))
            (fetch_fuel bind_data) [] initial_state 0))).
  apply run_loop_trace
    with (Inv := fun tr st =>
            (fetch_complete st = false /\ token_chain 1 tr (next_start st)) \/
            (fetch_complete st = true /\
             exists chain cursor r,
               tr = chain ++ [r] /\ token_chain 1 chain cursor /\
               pf_start r = cursor /\ exhausting r)).
  - intros tr st [[_ Hchain]|[_ (chain & cursor & r & -> & Hchain & Hstart & Hex)]].
    + exists tr, (next_start st). split; [exact Hchain | now left].
    + exists chain, cursor. split; [exact Hchain|]. right. exists r. auto.
  - intros tr st t req st' t' HInv Hs.
    apply combined_step_Continue in Hs as [Hreq Hs].
    destruct Hs as (b & st1 & nxt & Hparse & Hnxt & ->).
    destruct Hreq as (_ & Hfc & _ & Hstart & _).
    destruct HInv as [[_ Hchain]|[Hfc' _]]; [|congruence].
    apply Parse_inr in Hparse as (_ & _ & Hns & Hfc1 & _).
    destruct ((nxt <? 0) || (next_start st >=? 100)) eqn:Hex.
    + right. split; [reflexivity|]. exists tr, (next_start st), req.
      repeat split; try assumption. exists nxt. split; [exact Hnxt|].
      rewrite Hstart. apply orb_true_iff in Hex as [Hex|Hex]; [left | right]; lia.
    + left. simpl. split; [congruence|].
      apply orb_false_iff in Hex as [Hneg Hlt].
      apply chain_snoc with (cursor := next_start st); try assumption; lia.
  - intros tr st t req e HInv Hs. apply combined_step_Thrown in Hs as [Hreq Hnone].
    destruct Hreq as (_ & Hfc & _ & Hstart & _).
    destruct HInv as [[_ Hchain]|[Hfc' _]]; [|congruence].
    exists tr, (next_start st). split; [exact Hchain|]. right. exists req. auto.
  - intros tr st t st' t' HInv Hs. now apply combined_step_Finished in Hs as ->.
  - left. split; [reflexivity | constructor].
Qed.

End CombinedChain.

Lemma X3_witness :
  let w := scripted [answer 200 "a1" ""; answer 200 "a2" ""] 0 in
  use_per_site_queries rust_programming_15 = false /\
  exists chain cursor,
    token_chain 1 chain cursor /\
    (trace_of (GoogleSearchInitGlobal w example_reader rust_programming_15) = chain \/
     exists r, trace_of (GoogleSearchInitGlobal w example_reader rust_programming_15)
               = chain ++ [r] /\
               pf_start r = cursor /\ (pf_next_start r = None \/ exhausting r)).
Proof.
  intros w.
  assert (use_per_site_queries rust_programming_15 = false) as H by reflexivity.
  split; [exact H|]. exact (X3_requests_follow_tokens w example_reader rust_programming_15 H).
Defined.

(** ** Draining the results *)

Section Draining.

Variable V : nat.

Lemma scan_rows_spec (remaining : nat) : forall st out,
  let chunk := take remaining (drop (current_idx st) (results st)) in
  scan_rows remaining st out
  = (out ++ List.map row_of chunk,
     mkState (results st) (current_idx st + length chunk) (site_states st)
             (current_site_idx st) (next_start st) (fetch_complete st)).
Proof.
  induction remaining as [|remaining IH]; intros st out; simpl.
  - rewrite app_nil_r, Nat.add_0_r. now destruct st.
  - destruct (results st !! current_idx st) as [r|] eqn:Hlook.
    + rewrite IH. simpl.
      rewrite (drop_S _ _ _ Hlook). simpl. rewrite <- app_assoc. simpl.
      do 2 f_equal. lia.
    + apply lookup_ge_None in Hlook. rewrite drop_ge by lia. simpl.
      rewrite app_nil_r, Nat.add_0_r. now destruct st.
Qed.

Lemma GoogleSearchScan_spec (st : GoogleSearchGlobalState) :
  let chunk := take V (drop (current_idx st) (results st)) in
  GoogleSearchScan V st
  = (List.map row_of chunk,
     mkState (results st) (current_idx st + length chunk) (site_states st)
             (current_site_idx st) (next_start st) (fetch_complete st)).
Proof. unfold GoogleSearchScan. now rewrite scan_rows_spec. Qed.

Lemma scan_calls_spec (calls : nat) : forall st,
  (current_idx st <= length (results st))%nat ->
  let rows := take (calls * V) (drop (current_idx st) (results st)) in
  concat (fst (scan_calls V calls st)) = List.map row_of rows /\
  Forall (fun chunk => (length chunk <= V)%nat) (fst (scan_calls V calls st)) /\
  results (snd (scan_calls V calls st)) = results st /\
  current_idx (snd (scan_calls V calls st)) = (current_idx st + length rows)%nat.
Proof.
  induction calls as [|calls IH]; intros st Hidx; simpl.
  - repeat split; [constructor | lia].
  - rewrite GoogleSearchScan_spec.
    set (chunk := take V (drop (current_idx st) (results st))).
    set (st' := mkState _ _ _ _ _ _).
    assert (length chunk <= V)%nat as Hchunk by (unfold chunk; rewrite length_take; lia).
    assert (current_idx st' <= length (results st'))%nat as Hidx'.
    { unfold st', chunk. simpl. rewrite length_take, length_drop. lia. }
    destruct (IH st' Hidx') as (Hrows & Hall & Hres & Hcur).
    destruct (scan_calls V calls st') as [chunks st''] eqn:Hcalls. simpl in *.
    assert (take (V + calls * V) (drop (current_idx st) (results st))
            = chunk ++ take (calls * V)
                         (drop (current_idx st + length chunk) (results st))) as Hsplit.
    { unfold chunk. rewrite <- drop_drop.
      generalize (drop (current_idx st) (results st)). intros l.
      destruct (le_lt_dec V (length l)) as [Hle|Hlt].
      - rewrite length_take, Nat.min_l by exact Hle. symmetry. apply take_take_drop.
      - rewrite !take_ge by lia. rewrite drop_all, take_nil. now rewrite app_nil_r. }
    repeat split.
    + rewrite Hrows, Hsplit, map_app. reflexivity.
    + constructor; [now rewrite length_map | exact Hall].
    + exact Hres.
    + rewrite Hcur, Hsplit, length_app. lia.
Qed.

End Draining.

(** X4.  Successive calls of [GoogleSearchScan] hand out the records in
    their order, each once, in chunks of at most [STANDARD_VECTOR_SIZE]
    rows; once all are handed out the next call returns an empty chunk, and
    the records themselves are never changed. *)
Theorem X4_scan_drains_in_order (V calls : nat) (st : GoogleSearchGlobalState) :
  current_idx st = 0%nat -> (length (results st) <= calls * V)%nat ->
  let chunks := fst (scan_calls V calls st) in
  let st' := snd (scan_calls V calls st) in
  concat chunks = List.map row_of (results st) /\
  Forall (fun chunk => (length chunk <= V)%nat) chunks /\
  results st' = results st /\
  fst (GoogleSearchScan V st') = [].
Proof.
  intros Hidx Hlen chunks st'.
  destruct (scan_calls_spec V calls st) as (Hrows & Hall & Hres & Hcur); [lia|].
  fold chunks in Hrows, Hall. fold st' in Hres, Hcur.
  rewrite Hidx in Hrows, Hcur. simpl in Hrows, Hcur.
  rewrite take_ge in Hrows, Hcur by exact Hlen.
  repeat split; try assumption.
  rewrite GoogleSearchScan_spec. simpl. rewrite Hres, Hcur. simpl.
  now rewrite drop_all, take_nil.
Qed.

Lemma X4_witness :
  let st := mkState (List.map result_of_item (List.map (item_on "a.com") (seq 0 5)))
                    0 [] 0 1 false in
  current_idx st = 0%nat /\ (length (results st) <= 3 * 2)%nat /\
  List.map (@length _) (fst (scan_calls 2 3 st)) = [2; 2; 1]%nat /\
  concat (fst (scan_calls 2 3 st)) = List.map row_of (results st).
Proof.
  intros st.
  assert (current_idx st = 0%nat) as H1 by reflexivity.
  assert (length (results st) <= 3 * 2)%nat as H2 by (vm_compute; lia).
  split; [exact H1|]. split; [exact H2|]. split; [vm_compute; reflexivity|].
  exact (proj1 (X4_scan_drains_in_order 2 3 st H1 H2)).
Defined.

(** X5.  The date of a fetched record is never filled in, so every row that
    [GoogleSearchScan] produces from the records of a scan has NULL in its
    date column (the thirteenth), and its site column is the site derived
    from its link column. *)
Theorem X5_date_column_is_null (w : Transport) (yyjson_read : string -> option JsonDoc)
    (bind_data : GoogleSearchBindData) (V : nat) (st : GoogleSearchGlobalState) :
  results st = results_of (GoogleSearchInitGlobal w yyjson_read bind_data) ->
  Forall (fun row => row !! 12%nat = Some None /\
                     exists link_, row !! 1%nat = Some (Some link_) /\
                                   row !! 11%nat = Some (Some (ExtractDomain link_)))
         (fst (GoogleSearchScan V st)).
Proof.
  intros Hres. rewrite GoogleSearchScan_spec. simpl.
  assert (Forall (fun r => date r = "" /\ site r = ExtractDomain (link r)) (results st))
    as Hall.
  { rewrite Hres. apply scan_results. intros item. now split. }
  apply Forall_forall. intros row Hrow.
  apply list_elem_of_In, in_map_iff in Hrow as (r & <- & Hr).
  apply list_elem_of_In in Hr.
  assert (r ∈ results st) as Hin.
  { apply (subseteq_drop (current_idx st)), (subseteq_take V). exact Hr. }
  rewrite Forall_forall in Hall. destruct (Hall r Hin) as [Hdate Hsite].
  split; [simpl; now rewrite Hdate|].
  exists (link r). simpl. now rewrite Hsite.
Qed.

Lemma X5_witness :
  let w := scripted [answer 200 "a1" ""; answer 200 "a2" ""] 0 in
  let fetched_ := results_of (GoogleSearchInitGlobal w example_reader rust_programming_15) in
  let st := mkState fetched_ 0 [] 0 1 false in
  results st = fetched_ /\
  length (fst (GoogleSearchScan 2048 st)) = 15%nat /\
  Forall (fun row => row !! 12%nat = Some None /\
                     exists link_, row !! 1%nat = Some (Some link_) /\
                                   row !! 11%nat = Some (Some (ExtractDomain link_)))
         (fst (GoogleSearchScan 2048 st)).
Proof.
  intros w fetched_ st.
  assert (results st = fetched_) as H by reflexivity.
  split; [exact H|]. split; [vm_compute; reflexivity|].
  exact (X5_date_column_is_null w example_reader rust_programming_15 2048 st H).
Defined.

(** ** [UrlEncode] *)

Lemma UrlEncode_cons (c : ascii) (rest : string) :
  UrlEncode (String c rest)
  = (if unreserved c then String c EmptyString else percent_encode c) +:+ UrlEncode rest.
Proof. reflexivity. Qed.

Lemma UrlEncode_app (a b : string) : UrlEncode (a +:+ b) = UrlEncode a +:+ UrlEncode b.
Proof.
  induction a as [|c a IH]; [reflexivity|].
  now rewrite app_cons, !UrlEncode_cons, IH, app_assoc_s.
Qed.

Lemma UrlDecode_encoded_char (c : ascii) (rest : string) :
  UrlDecode ((if unreserved c then String c EmptyString else percent_encode c) +:+ rest)
  = String c (UrlDecode rest).
Proof. destruct c as [[] [] [] [] [] [] [] []]; reflexivity. Qed.

Lemma encoded_char_safe (c : ascii) :
  all_chars (fun x => unreserved x || Ascii.eqb x "%")
            (if unreserved c then String c EmptyString else percent_encode c) = true /\
  (1 <= String.length (if unreserved c then String c EmptyString else percent_encode c) <= 3)%nat.
Proof. destruct c as [[] [] [] [] [] [] [] []]; (split; [vm_compute; reflexivity | vm_compute; lia]). Qed.

Lemma all_chars_app (p : ascii -> bool) (a b : string) :
  all_chars p (a +:+ b) = all_chars p a && all_chars p b.
Proof.
  induction a as [|c a IH]; [reflexivity|]. rewrite app_cons. simpl.
  now rewrite IH, andb_assoc.
Qed.

(** X6.  [UrlEncode] writes nothing but letters, digits, [-], [_], [.], [~]
    and [%]; it keeps a string of unreserved characters as it is, encodes
    piece by piece, and writes between one and three characters for each
    character it reads. *)
Theorem X6_UrlEncode_output (s : string) :
  all_chars (fun c => unreserved c || Ascii.eqb c "%") (UrlEncode s) = true /\
  (all_chars unreserved s = true -> UrlEncode s = s) /\
  (forall t, UrlEncode (s +:+ t) = UrlEncode s +:+ UrlEncode t) /\
  (String.length s <= String.length (UrlEncode s) <= 3 * String.length s)%nat.
Proof.
  split; [|split; [|split]].
  - induction s as [|c s IH]; [reflexivity|].
    rewrite UrlEncode_cons, all_chars_app, IH, andb_true_r. apply encoded_char_safe.
  - induction s as [|c s IH]; [reflexivity|]. simpl all_chars.
    intros H. apply andb_true_iff in H as [Hc Hs].
    rewrite UrlEncode_cons, Hc, (IH Hs). reflexivity.
  - intros t. apply UrlEncode_app.
  - induction s as [|c s IH]; [simpl; lia|].
    rewrite UrlEncode_cons, length_app_s.
    change (String.length (String c s)) with (S (String.length s)).
    pose proof (encoded_char_safe c) as [_ Hlen]. lia.
Qed.

(** X7.  Decoding the percent escapes of [UrlEncode s] gives [s] back, so
    two different strings never get the same encoding. *)
Theorem X7_UrlEncode_injective (s t : string) :
  UrlDecode (UrlEncode s) = s /\ (UrlEncode s = UrlEncode t -> s = t).
Proof.
  assert (forall x, UrlDecode (UrlEncode x) = x) as Hround.
  { induction x as [|c x IH]; [reflexivity|].
    now rewrite UrlEncode_cons, UrlDecode_encoded_char, IH. }
  split; [apply Hround|]. intros H. rewrite <- (Hround s), <- (Hround t). now rewrite H.
Qed.

(** ** [Fetch] *)

Section FetchFacts.

Variable w : Transport.
Variable url : string.
Variable config : RetryConfig.
Variable tick : nat.

(** Among the first [n] attempts either all are retryable failures or there
    is a first one that is not. *)
Lemma first_stop (n : nat) :
  (forall j, (j < n)%nat -> retryable_failure (attempt_response w tick url j)) \/
  (exists k, (k < n)%nat /\
     (forall j, (j < k)%nat -> retryable_failure (attempt_response w tick url j)) /\
     ~ retryable_failure (attempt_response w tick url k)).
Proof.
  induction n as [|n [IH|(k & Hk & Hfail & Hstop)]].
  - left. intros j Hj. lia.
  - assert (retryable_failure (attempt_response w tick url n) \/
            ~ retryable_failure (attempt_response w tick url n)) as [Hn|Hn].
    { unfold retryable_failure.
      destruct (success _), (IsRetryable _); intuition congruence. }
    + left. intros j Hj. destruct (decide (j = n)) as [->|]; [exact Hn | apply IH; lia].
    + right. exists n. split; [lia|]. split; [exact IH | exact Hn].
  - right. exists k. split; [lia|]. split; assumption.
Qed.

Lemma Fetch_cases :
  0 <= max_retries config ->
  exists k,
    Z.of_nat k <= max_retries config /\
    (forall j, (j < k)%nat -> retryable_failure (attempt_response w tick url j)) /\
    gets (Fetch w tick url config) = S k /\
    sleeps (Fetch w tick url config) = waits w tick url config k /\
    ((~ retryable_failure (attempt_response w tick url k) /\
      fetched (Fetch w tick url config) = attempt_response w tick url k) \/
     (Z.of_nat k = max_retries config /\
      retryable_failure (attempt_response w tick url k) /\
      fetched (Fetch w tick url config)
      = with_error (attempt_response w tick url k)
                   ("Max retries exceeded for URL: " +:+ url))).
Proof.
  intros Hpos.
  destruct (first_stop (S (Z.to_nat (max_retries config))))
    as [Hall|(k & Hk & Hfail & Hstop)].
  - exists (Z.to_nat (max_retries config)).
    rewrite Fetch_exhausts by (try assumption; intros j Hj; apply Hall; lia). simpl.
    split; [lia|]. split; [intros j Hj; apply Hall; lia|].
    split; [reflexivity|]. split; [reflexivity|]. right.
    split; [lia|]. split; [apply Hall; lia | reflexivity].
  - exists k. rewrite (Fetch_stops w url config tick k) by (try assumption; lia). simpl.
    split; [lia|]. split; [exact Hfail|]. split; [reflexivity|]. split; [reflexivity|].
    left. split; [exact Hstop | reflexivity].
Qed.

Lemma Fetch_without_attempt :
  max_retries config < 0 ->
  Fetch w tick url config
  = mkFetchRun (mkResponse 0 "" "" "" "Unexpected error in HTTP fetch" false) 0 [].
Proof.
  intros Hneg. unfold Fetch.
  replace (Z.to_nat (max_retries config + 1)) with 0%nat by lia. reflexivity.
Qed.

Lemma wait_time_le (r : HttpResponse) (a : Z) : wait_time w config r a <= max_backoff_ms config.
Proof. unfold wait_time. lia. Qed.

Lemma wait_time_nonneg (r : HttpResponse) (a : Z) :
  0 <= max_backoff_ms config -> 0 <= exponential_backoff w config a ->
  0 <= wait_time w config r a.
Proof.
  intros Hb Hbackoff. unfold wait_time.
  destruct (_ && _); [|lia].
  destruct (Z.leb_spec (ParseRetryAfter (retry_after r)) 0); lia.
Qed.

Lemma waits_length (k : nat) : length (waits w tick url config k) = k.
Proof. unfold waits. now rewrite length_map, length_seq. Qed.

Lemma waits_Forall (P : Z -> Prop) (k : nat) :
  (forall r a, P (wait_time w config r a)) -> Forall P (waits w tick url config k).
Proof. intros HP. unfold waits. apply Forall_map, Forall_forall. intros j _. apply HP. Qed.

Lemma sum_bounded (bound : Z) (l : list Z) :
  Forall (fun ms => ms <= bound) l -> foldr Z.add 0 l <= Z.of_nat (length l) * bound.
Proof. induction 1 as [|x l Hx _ IH]; simpl foldr; simpl length; lia. Qed.

(** X8.  Whatever the server answers, [Fetch] makes at most
    [max_retries + 1] GETs, sleeps once between two GETs and never after
    the last, never sleeps longer than [max_backoff_ms] at a time, hence at
    most [max_retries * max_backoff_ms] in all; a wait is negative only
    when [max_backoff_ms] is, or when the backoff computed for that
    attempt is. *)
Theorem X8_Fetch_effort :
  let run := Fetch w tick url config in
  (gets run <= Z.to_nat (max_retries config + 1))%nat /\
  length (sleeps run) = pred (gets run) /\
  Forall (fun ms => ms <= max_backoff_ms config) (sleeps run) /\
  (0 <= max_backoff_ms config ->
   slept_ms run <= Z.max 0 (max_retries config) * max_backoff_ms config) /\
  (0 <= max_backoff_ms config ->
   (forall a, 0 <= a < max_retries config -> 0 <= exponential_backoff w config a) ->
   Forall (fun ms => 0 <= ms) (sleeps run)).
Proof.
  intros run. unfold run, slept_ms.
  destruct (Z.lt_ge_cases (max_retries config) 0) as [Hneg|Hpos].
  - rewrite Fetch_without_attempt by exact Hneg. simpl.
    repeat split; try constructor; lia.
  - destruct (Fetch_cases Hpos) as (k & Hk & _ & -> & -> & _).
    assert (Forall (fun ms => ms <= max_backoff_ms config) (waits w tick url config k))
      as Hle by (apply waits_Forall; intros; apply wait_time_le).
    split; [lia|]. split; [apply waits_length|]. split; [exact Hle|].
    split.
    + intros Hb. apply sum_bounded in Hle. rewrite waits_length in Hle. nia.
    + intros Hb Hbackoff. unfold waits. apply Forall_map, Forall_forall. intros j Hj.
      apply list_elem_of_In, in_seq in Hj.
      apply wait_time_nonneg; [exact Hb | apply Hbackoff; lia].
Qed.

(** X10.  With [max_retries >= 0], [Fetch] ends at the first GET that is
    not a retryable failure, or at GET number [max_retries + 1] when all
    are; every earlier GET was a retryable failure followed by its wait, so
    a retryable failure with a retry left is always followed by another
    GET.  What it returns is the response of its last GET: as it is when
    that is not a retryable failure, and with the error message replaced
    and all other fields kept when it is. *)
Theorem X10_Fetch_returns_last_response :
  0 <= max_retries config ->
  let run := Fetch w tick url config in
  exists k,
    gets run = S k /\ Z.of_nat k <= max_retries config /\
    (forall j, (j < k)%nat -> retryable_failure (attempt_response w tick url j)) /\
    sleeps run = waits w tick url config k /\
    let last := attempt_response w tick url k in
    ((~ retryable_failure last /\ fetched run = last) \/
     (Z.of_nat k = max_retries config /\ retryable_failure last /\
      fetched run = with_error last ("Max retries exceeded for URL: " +:+ url))) /\
    status_code (fetched run) = status_code last /\
    body (fetched run) = body last /\
    content_type (fetched run) = content_type last /\
    retry_after (fetched run) = retry_after last /\
    success (fetched run) = success last.
Proof.
  intros Hpos run. unfold run.
  destruct (Fetch_cases Hpos) as (k & Hk & Hfail & Hgets & Hsleeps & Hres).
  exists k. split; [exact Hgets|]. split; [exact Hk|]. split; [exact Hfail|].
  split; [exact Hsleeps|]. cbv zeta. split; [exact Hres|].
  destruct Hres as [[_ ->]|(_ & _ & ->)]; repeat split; reflexivity.
Qed.

(** X11.  The result of [Fetch] is a success exactly when one of the first
    [max_retries + 1] GETs succeeds after retryable failures only; the
    result then has a status from 200 to 299 and an empty error message. *)
Theorem X11_Fetch_success :
  0 <= max_retries config ->
  let run := Fetch w tick url config in
  (success (fetched run) = true <->
   exists k, Z.of_nat k <= max_retries config /\
     (forall j, (j < k)%nat -> retryable_failure (attempt_response w tick url j)) /\
     success (attempt_response w tick url k) = true) /\
  (success (fetched run) = true ->
   200 <= status_code (fetched run) < 300 /\ error (fetched run) = "").
Proof.
  intros Hpos run. unfold run.
  assert (forall k, success (attempt_response w tick url k) = true ->
            200 <= status_code (attempt_response w tick url k) < 300 /\
            error (attempt_response w tick url k) = "") as Hok.
  { intros k. unfold attempt_response.
    destruct (http_get w (tick + k) url); simpl; try discriminate.
    intros H. apply andb_true_iff in H. split; [lia | reflexivity]. }
  split; [split|].
  - destruct (Fetch_cases Hpos) as (k & Hk & Hfail & _ & _ & Hres). intros Hsucc.
    exists k. split; [exact Hk|]. split; [exact Hfail|].
    destruct Hres as [[_ Heq]|(_ & [Hlast _] & Heq)]; rewrite Heq in Hsucc;
      [exact Hsucc | simpl in Hsucc; congruence].
  - intros (k & Hk & Hfail & Hsucc).
    rewrite (Fetch_stops w url config tick k);
      [exact Hsucc | exact Hk | exact Hfail | intros [Hno _]; congruence].
  - destruct (Fetch_cases Hpos) as (k & _ & _ & _ & _ & Hres). intros Hsucc.
    destruct Hres as [[_ Heq]|(_ & [Hlast _] & Heq)]; rewrite Heq in Hsucc |- *;
      [now apply Hok | simpl in Hsucc; congruence].
Qed.

Lemma connection_failure_response (o : HttpOutcome) :
  connection_failure o = true ->
  retryable_failure (ExecuteHttpGet o) /\
  status_code (ExecuteHttpGet o) = 0 /\ body (ExecuteHttpGet o) = "" /\
  content_type (ExecuteHttpGet o) = "" /\ retry_after (ExecuteHttpGet o) = "".
Proof. destruct o; simpl; try discriminate; intros _; repeat split. Qed.

End FetchFacts.

(** X9.  With a negative [max_retries], [Fetch] makes no GET at all and
    reports a failure with status 0 and the message "Unexpected error in
    HTTP fetch". *)
Theorem X9_negative_max_retries (w : Transport) (tick : nat) (url : string)
    (config : RetryConfig) :
  max_retries config < 0 ->
  Fetch w tick url config
  = mkFetchRun (mkResponse 0 "" "" "" "Unexpected error in HTTP fetch" false) 0 [].
Proof.
  intros Hneg. unfold Fetch.
  assert (Z.to_nat (max_retries config + 1) = 0%nat) as -> by lia.
  reflexivity.
Qed.

Lemma X9_witness :
  Fetch (scripted [answer 200 "{}" ""] 0) 0 "https://example.org/" (mkRetry (-1) 100 (2 # 1) 10000)
  = mkFetchRun (mkResponse 0 "" "" "" "Unexpected error in HTTP fetch" false) 0 [].
Proof. apply X9_negative_max_retries. simpl. lia. Defined.

Lemma X10_witness :
  let w := scripted [answer 503 "" ""; answer 404 "" ""] 0 in
  let run := Fetch w 0 "https://example.org/" default_retry_config in
  0 <= max_retries default_retry_config /\
  gets run = 2%nat /\ fetched run = ExecuteHttpGet (answer 404 "" "").
Proof.
  intros w run.
  assert (0 <= max_retries default_retry_config) as H0 by (simpl; lia).
  split; [exact H0|].
  destruct (X10_Fetch_returns_last_response w "https://example.org/" default_retry_config 0 H0)
    as (k & Hgets & Hk & Hfail & _ & Hres & _).
  assert (retryable_failure (attempt_response w 0 "https://example.org/" 0)) as Hfirst
    by (vm_compute; split; reflexivity).
  assert (~ retryable_failure (attempt_response w 0 "https://example.org/" 1)) as Hsecond
    by (intros [_ Hretry]; vm_compute in Hretry; discriminate).
  destruct k as [|[|k]].
  - exfalso. destruct Hres as [[Hstop _]|[Hlast _]]; [now apply Hstop | discriminate Hlast].
  - split; [exact Hgets|].
    destruct Hres as [[_ Hsame]|[Hlast _]]; [exact Hsame | discriminate Hlast].
  - exfalso. apply Hsecond, Hfail. lia.
Defined.

Lemma X11_witness :
  let run := Fetch (scripted [answer 503 "" ""; answer 200 "{}" ""] 0) 0
                   "https://example.org/" default_retry_config in
  0 <= max_retries default_retry_config /\
  success (fetched run) = true /\
  200 <= status_code (fetched run) < 300 /\ error (fetched run) = "".
Proof.
  intros run.
  assert (0 <= max_retries default_retry_config) as H0 by (simpl; lia).
  assert (success (fetched run) = true) as Hs by (vm_compute; reflexivity).
  split; [exact H0|]. split; [exact Hs|].
  exact (proj2 (X11_Fetch_success (scripted [answer 503 "" ""; answer 200 "{}" ""] 0)
                  "https://example.org/" default_retry_config 0 H0) Hs).
Defined.

(** X12.  When the HTTP extension cannot be loaded, the query fails or no
    row comes back at every attempt, [Fetch] still makes all
    [max_retries + 1] GETs, waits the capped exponential backoff between
    them, and returns an empty response with status 0 whose error message
    is "Max retries exceeded for URL: ..." in place of the message of the
    failure. *)
Theorem X12_connection_failures_are_retried (w : Transport) (tick : nat) (url : string)
    (config : RetryConfig) :
  0 <= max_retries config ->
  (forall j, Z.of_nat j <= max_retries config ->
             connection_failure (http_get w (tick + j)%nat url) = true) ->
  Fetch w tick url config
  = mkFetchRun
      (mkResponse 0 "" "" "" ("Max retries exceeded for URL: " +:+ url) false)
      (S (Z.to_nat (max_retries config)))
      (List.map (fun j => Z.min (exponential_backoff w config (Z.of_nat j)) (max_backoff_ms config))
                (seq 0 (Z.to_nat (max_retries config)))).
Proof.
  intros Hpos Hfail.
  rewrite Fetch_exhausts
    by (try exact Hpos; intros j Hj; now apply connection_failure_response, Hfail).
  f_equal.
  - destruct (connection_failure_response _ (Hfail (Z.to_nat (max_retries config)) ltac:(lia)))
      as ([Hs _] & Hst & Hb & Hct & Hra).
    unfold attempt_response, with_error. now rewrite Hs, Hst, Hb, Hct, Hra.
  - unfold waits. apply map_ext_in. intros j Hj. apply in_seq in Hj.
    destruct (connection_failure_response _ (Hfail j ltac:(lia))) as (_ & Hst & _).
    unfold wait_time, attempt_response. now rewrite Hst.
Qed.

Lemma X12_witness :
  Fetch (scripted [LoadFailed; LoadFailed; LoadFailed; LoadFailed] 0) 0
        "https://example.org/" default_retry_config
  = mkFetchRun
      (mkResponse 0 "" "" "" "Max retries exceeded for URL: https://example.org/" false)
      4 [100; 200; 400].
Proof.
  apply (X12_connection_failures_are_retried
           (scripted [LoadFailed; LoadFailed; LoadFailed; LoadFailed] 0) 0
           "https://example.org/" default_retry_config).
  - simpl. lia.
  - intros [|[|[|[|j]]]] Hj; try reflexivity. simpl in Hj. lia.
Defined.

(** ** The predicate absorber *)

Lemma in_list_values_nonempty (c : Expression) (rest : list Expression) (vs : list string) :
  in_list_values (c :: rest) = Some vs -> vs <> [].
Proof.
  destruct c as [| v | | | | |]; simpl; try discriminate.
  destruct (type_id v); try discriminate.
  destruct (in_list_values rest); simpl; [|discriminate]. intros [= <-]. discriminate.
Qed.

Lemma fold_push_site_include (sites : list string) (bd : GoogleSearchBindData) :
  fold_left push_site_include sites bd
  = mkBind (query bd) (api_key bd) (cx bd) (max_results bd) (column_names bd)
           (site_includes bd ++ sites) (site_excludes bd) (date_from bd) (date_to bd)
           (has_date_filter bd) (filters bd).
Proof.
  revert bd. induction sites as [|s sites IH]; intros bd; simpl.
  - rewrite app_nil_r. now destruct bd.
  - rewrite IH. simpl. now rewrite <- app_assoc.
Qed.

Section AbsorberEffects.

Variable FromString : string -> option Z.
Variable FromDatetime : Z -> option Z.

Local Arguments in_list_values : simpl never.

Local Abbreviation absorb := (absorb_filter FromString FromDatetime).
Local Abbreviation Pushdown := (GoogleSearchPushdownComplexFilter FromString FromDatetime).
Local Abbreviation lower_bound := (stored_bound FromString FromDatetime true).
Local Abbreviation upper_bound := (stored_bound FromString FromDatetime false).
Local Abbreviation fails := (conversion_fails FromString FromDatetime).

Local Ltac kept := cbn; unfold same_search; cbn; rewrite ?orb_false_r, ?orb_true_r;
  repeat split; reflexivity.
Local Ltac removed s :=
  cbn; unfold same_search; cbn;
  split; [repeat split; reflexivity|]; do 3 (split; [reflexivity|]);
  split; [|reflexivity];
  exists [s]; split; [discriminate|];
  first [left; split; reflexivity | right; split; reflexivity].

Lemma absorb_filter_effect (bd : GoogleSearchBindData) (filter : Expression) :
  filter_effect FromString FromDatetime bd filter (absorb bd filter).
Proof.
  destruct filter as [name idx|v|fname children|ty children|ty l r|i lo up|];
    try solve [kept].
  - destruct children as [|c0 [|c1 rest]]; try solve [kept]. simpl.
    destruct (String.eqb fname "suffix");
      [destruct (site_constant c0 c1) as [s|]; [removed s | kept]|].
    destruct (String.eqb fname "prefix");
      [destruct (site_constant c0 c1) as [s|]; [removed s | kept]|].
    kept.
  - destruct children as [|[name idx|v|f c|t c|t l r|i lo up|] [|c1 rest]];
      try solve [kept]. simpl.
    destruct (String.eqb name "site"); [|kept].
    destruct (in_list_values (c1 :: rest)) as [vs|] eqn:Hvs; [|kept].
    rewrite fold_push_site_include. cbn; unfold same_search; cbn.
    split; [repeat split; reflexivity|]. do 3 (split; [reflexivity|]).
    split; [|reflexivity].
    exists vs. split; [now apply in_list_values_nonempty in Hvs|]. left. now split.
  - destruct l as [name idx| | | | | |], r as [|v| | | | |];
      try solve [destruct ty; kept].
    destruct ty; try solve [kept];
      unfold filter_effect, conversion_fails, stored_bound, date_constant; cbn;
      try (destruct (String.eqb name "site"); [|kept];
           destruct (type_id v); solve [kept | removed (ToString v)]);
      (destruct (String.eqb name "timestamp"), (String.eqb name "date"); cbn;
       try solve [kept]; destruct (ts_value FromString FromDatetime v); kept).
Qed.

Lemma removed_no_date (bd bd' : GoogleSearchBindData) (filter : Expression) :
  absorb bd filter = Removed bd' ->
  lower_bound filter = None /\ upper_bound filter = None /\ fails filter = false.
Proof.
  intros Habs. pose proof (absorb_filter_effect bd filter) as Heff.
  rewrite Habs in Heff. destruct Heff as (_ & _ & _ & _ & _ & Hnone).
  unfold stored_bound, conversion_fails. rewrite Hnone.
  destruct filter as [| | | |ty l r| |]; try (repeat split; reflexivity).
  repeat split; reflexivity || (now destruct (date_bound_type _ ty)).
Qed.

Lemma site_predicate_no_date (filter : Expression) :
  site_predicate filter = true ->
  lower_bound filter = None /\ upper_bound filter = None /\ fails filter = false.
Proof.
  intros Hsite.
  pose proof (absorb_filter_class FromString FromDatetime
                (GoogleSearchBind "" "" "" default_filters) filter) as Hclass.
  destruct (absorb _ filter) as [bd'| |] eqn:Habs.
  - eapply removed_no_date, Habs.
  - destruct Hclass. congruence.
  - congruence.
Qed.

(** The loop raises exactly when it meets a date predicate whose constant
    cannot be converted. *)
Lemma absorb_loop_None (filters_ : list Expression) :
  forall i bd acc,
    absorb_loop FromString FromDatetime i filters_ bd acc = None <->
    Exists (fun f => fails f = true) filters_.
Proof.
  induction filters_ as [|f rest IH]; intros i bd acc; simpl.
  - split; [discriminate | intros H; inversion H].
  - rewrite Exists_cons. pose proof (absorb_filter_effect bd f) as Heff.
    destruct (absorb bd f) as [bd1|bd1|] eqn:Habs.
    + destruct (removed_no_date _ _ _ Habs) as (_ & _ & Hf). rewrite IH.
      split; [now right | intros [H|H]; [congruence | exact H]].
    + destruct Heff as (_ & _ & _ & _ & _ & _ & Hf). rewrite IH.
      split; [now right | intros [H|H]; [congruence | exact H]].
    + split; [now left | reflexivity].
Qed.

Lemma default_last (d : Z) (o : option Z) (l : list Z) :
  default (default d o) (last l) = default d (last (from_option (fun x => [x]) [] o ++ l)).
Proof.
  destruct o as [x|]; simpl; [|reflexivity].
  rewrite last_cons. now destruct (last l).
Qed.

Lemma omap_cons_option (g : Expression -> option Z) (f : Expression) (rest : list Expression) :
  omap g (f :: rest) = from_option (fun x => [x]) [] (g f) ++ omap g rest.
Proof. simpl. now destruct (g f). Qed.

(** What the loop has done to the bind data when it returns. *)
Lemma absorb_loop_effect (filters_ : list Expression) :
  forall i bd acc bd' to_remove,
    absorb_loop FromString FromDatetime i filters_ bd acc = Some (bd', to_remove) ->
    same_search bd bd' /\
    site_includes bd `prefix_of` site_includes bd' /\
    site_excludes bd `prefix_of` site_excludes bd' /\
    (length (filter (fun f => site_predicate f = true) filters_)
     + length (site_includes bd) + length (site_excludes bd)
     <= length (site_includes bd') + length (site_excludes bd'))%nat /\
    (Forall (fun f => site_predicate f = false) filters_ ->
     site_includes bd' = site_includes bd /\ site_excludes bd' = site_excludes bd) /\
    date_from bd' = default (date_from bd) (last (omap lower_bound filters_)) /\
    date_to bd' = default (date_to bd) (last (omap upper_bound filters_)) /\
    has_date_filter bd' =
      has_date_filter bd
      || existsb (fun f => has_bound (lower_bound f) || has_bound (upper_bound f)) filters_.
Proof.
  induction filters_ as [|f rest IH]; intros i bd acc bd' to_remove.
  - simpl. intros [= <- <-]. unfold same_search. rewrite orb_false_r.
    repeat split; try reflexivity; lia.
  - cbn [absorb_loop]. rewrite !omap_cons_option, <- !default_last, filter_cons.
    cbn [existsb].
    pose proof (absorb_filter_effect bd f) as Heff.
    pose proof (absorb_filter_class FromString FromDatetime bd f) as Hclass.
    destruct (absorb bd f) as [bd1|bd1|] eqn:Habs; [| |discriminate]; intros Hloop;
      apply IH in Hloop as (Hsame & Hinc & Hexc & Hcount & Hnone & Hfrom & Hto & Hhas).
    + destruct Hclass as [Hsite _].
      destruct (removed_no_date _ _ _ Habs) as (Hlo & Hup & _).
      destruct Heff as (Hsame1 & Hfrom1 & Hto1 & Hhas1 & (more & Hmore & Hlists) & _).
      rewrite Hlo, Hup. cbn [default has_bound orb].
      rewrite Hfrom1 in Hfrom. rewrite Hto1 in Hto. rewrite Hhas1 in Hhas.
      rewrite decide_True by exact Hsite. cbn [length].
      assert (1 <= length more)%nat by (destruct more; [congruence | simpl; lia]).
      split; [unfold same_search in *; intuition congruence|].
      destruct Hlists as [[Hi He]|[Hi He]]; rewrite Hi, He in *;
        rewrite ?length_app in Hcount.
      * split; [etrans; [apply prefix_app_r; reflexivity | exact Hinc]|].
        split; [exact Hexc|]. split; [lia|].
        split; [intros HF; apply Forall_cons in HF as [HF _]; congruence|].
        now repeat split.
      * split; [exact Hinc|].
        split; [etrans; [apply prefix_app_r; reflexivity | exact Hexc]|].
        split; [lia|].
        split; [intros HF; apply Forall_cons in HF as [HF _]; congruence|].
        now repeat split.
    + destruct Hclass as [Hsite _].
      destruct Heff as (Hsame1 & Hi & He & Hfrom1 & Hto1 & Hhas1 & _).
      rewrite decide_False by congruence.
      rewrite Hi, He in *. rewrite Hfrom1 in Hfrom. rewrite Hto1 in Hto.
      rewrite Hhas1 in Hhas.
      split; [unfold same_search in *; intuition congruence|].
      split; [exact Hinc|]. split; [exact Hexc|]. split; [exact Hcount|].
      split; [intros HF; apply Forall_cons in HF as [_ HF]; now apply Hnone|].
      split; [exact Hfrom|]. split; [exact Hto|].
      rewrite Hhas. now rewrite !orb_assoc.
Qed.

Lemma filter_site_length (filters_ : list Expression) :
  length filters_
  = (length (filter (fun f => site_predicate f = true) filters_)
     + length (filter (fun f => site_predicate f = false) filters_))%nat.
Proof.
  induction filters_ as [|f rest IH]; [reflexivity|]. rewrite !filter_cons.
  destruct (site_predicate f); simpl; lia.
Qed.

Lemma filter_keeps_dates (g : Expression -> option Z) (filters_ : list Expression) :
  (forall f, site_predicate f = true -> g f = None) ->
  omap g (filter (fun f => site_predicate f = false) filters_) = omap g filters_.
Proof.
  intros Hg. induction filters_ as [|f rest IH]; [reflexivity|]. rewrite filter_cons.
  destruct (site_predicate f) eqn:Hf.
  - rewrite decide_False by discriminate. rewrite omap_cons_option, (Hg f Hf). exact IH.
  - rewrite decide_True by reflexivity. now rewrite !omap_cons_option, IH.
Qed.

Lemma filter_keeps_bounds (g : Expression -> bool) (filters_ : list Expression) :
  (forall f, site_predicate f = true -> g f = false) ->
  existsb g (filter (fun f => site_predicate f = false) filters_) = existsb g filters_.
Proof.
  intros Hg. induction filters_ as [|f rest IH]; [reflexivity|]. rewrite filter_cons.
  destruct (site_predicate f) eqn:Hf; simpl.
  - now rewrite (Hg f Hf).
  - now rewrite IH.
Qed.

Lemma filter_site_twice (filters_ : list Expression) :
  filter (fun f => site_predicate f = false)
         (filter (fun f => site_predicate f = false) filters_)
  = filter (fun f => site_predicate f = false) filters_.
Proof.
  induction filters_ as [|f rest IH]; [reflexivity|]. rewrite filter_cons.
  destruct (site_predicate f) eqn:Hf; simpl; [exact IH|].
  rewrite filter_cons, Hf. simpl. now rewrite IH.
Qed.

Lemma Pushdown_loop (bd : GoogleSearchBindData) (filters_ : list Expression) :
  Pushdown bd filters_
  = match absorb_loop FromString FromDatetime 0 filters_ bd [] with
    | Some (bd', to_remove) => Some (bd', erase_reversed to_remove filters_)
    | None => None
    end.
Proof. reflexivity. Qed.

(** X13.  The absorber raises an error exactly when one of the filters is
    a lower or upper bound on a column named "timestamp" or "date" whose
    DATE or VARCHAR constant cannot be converted to a timestamp; the bind
    data and the other filters play no part. *)
Theorem X13_absorber_raises (bd : GoogleSearchBindData) (filters_ : list Expression) :
  Pushdown bd filters_ = None <->
  Exists (fun f => conversion_fails FromString FromDatetime f = true) filters_.
Proof.
  rewrite Pushdown_loop, <- (absorb_loop_None filters_ 0 bd []).
  destruct (absorb_loop _ _ 0 filters_ bd []) as [[bd' to_remove]|]; split; congruence.
Qed.

(** X14.  When the absorber returns, query, credentials, row cap, columns
    and named filters of the bind data are as before, both site lists have
    only grown at their end, and every filter that was removed has added
    at least one pattern to a site list. *)
Theorem X14_absorber_appends (bd bd' : GoogleSearchBindData)
    (filters_ residual : list Expression) :
  Pushdown bd filters_ = Some (bd', residual) ->
  same_search bd bd' /\
  site_includes bd `prefix_of` site_includes bd' /\
  site_excludes bd `prefix_of` site_excludes bd' /\
  (length filters_ + length (site_includes bd) + length (site_excludes bd)
   <= length residual + length (site_includes bd') + length (site_excludes bd'))%nat.
Proof.
  intros Hpush.
  destruct (Pushdown_residual _ _ _ _ _ _ Hpush) as [-> _].
  rewrite Pushdown_loop in Hpush.
  destruct (absorb_loop _ _ 0 filters_ bd []) as [[bd1 to_remove]|] eqn:Hloop; [|discriminate].
  injection Hpush as <- _.
  apply absorb_loop_effect in Hloop as (Hsame & Hinc & Hexc & Hcount & _).
  split; [exact Hsame|]. split; [exact Hinc|]. split; [exact Hexc|].
  rewrite (filter_site_length filters_). lia.
Qed.

(** X16.  Of several lower bounds on the date the one that comes last in
    the filters is stored as [date_from], whatever the timestamps; without
    a lower bound [date_from] stays as it was.  The same holds for upper
    bounds and [date_to], and [has_date_filter] is switched on by any
    bound that converts and never switched off. *)
Theorem X16_last_date_bound_wins (bd bd' : GoogleSearchBindData)
    (filters_ residual : list Expression) :
  Pushdown bd filters_ = Some (bd', residual) ->
  date_from bd' = default (date_from bd) (last (omap lower_bound filters_)) /\
  date_to bd' = default (date_to bd) (last (omap upper_bound filters_)) /\
  has_date_filter bd' =
    has_date_filter bd
    || existsb (fun f => has_bound (lower_bound f) || has_bound (upper_bound f)) filters_.
Proof.
  rewrite Pushdown_loop.
  destruct (absorb_loop _ _ 0 filters_ bd []) as [[bd1 to_remove]|] eqn:Hloop; [|discriminate].
  intros [= <- _]. now apply absorb_loop_effect in Hloop as (_ & _ & _ & _ & _ & H).
Qed.

(** X17.  Running the absorber again on what it has left changes nothing:
    no filter is removed, no pattern is added and the date bounds stay. *)
Theorem X17_absorber_is_stable (bd bd' : GoogleSearchBindData)
    (filters_ residual : list Expression) :
  Pushdown bd filters_ = Some (bd', residual) ->
  Pushdown bd' residual = Some (bd', residual).
Proof.
  intros Hpush.
  destruct (Pushdown_residual _ _ _ _ _ _ Hpush) as [Hres _].
  destruct (Pushdown bd' residual) as [[bd2 residual2]|] eqn:Hagain.
  - destruct (Pushdown_residual _ _ _ _ _ _ Hagain) as [Hres2 _].
    rewrite Hres, filter_site_twice, <- Hres in Hres2. subst residual2.
    rewrite Pushdown_loop in Hpush, Hagain.
    destruct (absorb_loop _ _ 0 filters_ bd []) as [[b1 r1]|] eqn:Hloop1; [|discriminate].
    destruct (absorb_loop _ _ 0 residual bd' []) as [[b2 r2]|] eqn:Hloop2; [|discriminate].
    injection Hpush as <- _. injection Hagain as <- _.
    apply absorb_loop_effect in Hloop1 as (_ & _ & _ & _ & _ & Hfrom1 & Hto1 & Hhas1).
    apply absorb_loop_effect in Hloop2
      as (Hsame & _ & _ & _ & Hsites & Hfrom2 & Hto2 & Hhas2).
    destruct Hsites as [Hi He].
    { rewrite Hres. apply Forall_forall. intros f Hf.
      now apply list_elem_of_filter in Hf as [Hf _]. }
    rewrite Hres in Hfrom2, Hto2, Hhas2.
    rewrite filter_keeps_dates in Hfrom2 by (intros f Hf; now apply site_predicate_no_date).
    rewrite filter_keeps_dates in Hto2 by (intros f Hf; now apply site_predicate_no_date).
    rewrite filter_keeps_bounds in Hhas2
      by (intros f Hf; destruct (site_predicate_no_date f Hf) as (-> & -> & _); reflexivity).
    assert (date_from b2 = date_from b1) as Hfrom.
    { rewrite Hfrom2, Hfrom1. now destruct (last (omap lower_bound filters_)). }
    assert (date_to b2 = date_to b1) as Hto.
    { rewrite Hto2, Hto1. now destruct (last (omap upper_bound filters_)). }
    assert (has_date_filter b2 = has_date_filter b1) as Hhas.
    { rewrite Hhas2, Hhas1. now destruct (has_date_filter bd), (existsb _ _). }
    destruct Hsame as (Hq & Hk & Hc & Hm & Hn & Hf).
    clear Hfrom1 Hfrom2 Hto1 Hto2 Hhas1 Hhas2.
    destruct b1, b2. simpl in *. now subst.
  - exfalso. rewrite Pushdown_loop in Hpush, Hagain.
    destruct (absorb_loop _ _ 0 residual bd' []) as [[b2 r2]|] eqn:Hloop2; [discriminate|].
    apply absorb_loop_None in Hloop2. apply Exists_exists in Hloop2 as (f & Hin & Hf).
    rewrite Hres in Hin. apply list_elem_of_filter in Hin as [_ Hin].
    destruct (absorb_loop _ _ 0 filters_ bd []) as [[b1 r1]|] eqn:Hloop1; [|discriminate].
    assert (absorb_loop FromString FromDatetime 0 filters_ bd [] = None) as Hnone
      by (apply absorb_loop_None, Exists_exists; eauto).
    congruence.
Qed.

End AbsorberEffects.

Lemma example_pushdown :
  GoogleSearchPushdownComplexFilter example_FromString example_FromDatetime
    example_bind example_filters
  = Some (example_absorbed, example_residual).
Proof. vm_compute. reflexivity. Qed.

Lemma X14_witness :
  GoogleSearchPushdownComplexFilter example_FromString example_FromDatetime
    example_bind example_filters
  = Some (example_absorbed, example_residual) /\
  site_includes example_bind `prefix_of` site_includes example_absorbed /\
  (5 + 0 + 0 <= 3 + 1 + 1)%nat.
Proof.
  split; [exact example_pushdown|].
  pose proof (X14_absorber_appends example_FromString example_FromDatetime
                example_bind example_absorbed example_filters example_residual
                example_pushdown) as (_ & Hinc & _ & Hcount).
  split; [exact Hinc | exact Hcount].
Defined.

Lemma X16_witness :
  GoogleSearchPushdownComplexFilter example_FromString example_FromDatetime
    example_bind example_filters
  = Some (example_absorbed, example_residual) /\
  date_from example_absorbed = 1672531200000000.
Proof.
  split; [exact example_pushdown|].
  exact (proj1 (X16_last_date_bound_wins example_FromString example_FromDatetime
                  example_bind example_absorbed example_filters example_residual
                  example_pushdown)).
Defined.

Lemma X17_witness :
  GoogleSearchPushdownComplexFilter example_FromString example_FromDatetime
    example_bind example_filters
  = Some (example_absorbed, example_residual) /\
  GoogleSearchPushdownComplexFilter example_FromString example_FromDatetime
    example_absorbed example_residual
  = Some (example_absorbed, example_residual).
Proof.
  split; [exact example_pushdown|].
  exact (X17_absorber_is_stable example_FromString example_FromDatetime
           example_bind example_absorbed example_filters example_residual
           example_pushdown).
Defined.

Lemma in_list_values_constants (values : list Value) :
  Forall (fun v => type_id v = VARCHAR) values ->
  in_list_values (List.map BoundConstant values) = Some (List.map ToString values).
Proof.
  induction 1 as [|v values Hv _ IH]; simpl; [reflexivity|]. now rewrite Hv, IH.
Qed.

(** X15.  An operator over the site column and one or more VARCHAR
    constants is absorbed whatever its type is: [site NOT IN ('a', 'b')]
    is removed from the filters and adds [a] and [b] to the included
    sites, just as [site IN ('a', 'b')] does. *)
Theorem X15_operator_type_is_not_read (FromString : string -> option Z)
    (FromDatetime : Z -> option Z) (bd : GoogleSearchBindData) (ty : ExpressionType)
    (column_index : nat) (values : list Value) :
  values <> [] ->
  Forall (fun v => type_id v = VARCHAR) values ->
  GoogleSearchPushdownComplexFilter FromString FromDatetime bd
    [BoundOperator ty (BoundColumnRef "site" column_index :: List.map BoundConstant values)]
  = Some (mkBind (query bd) (api_key bd) (cx bd) (max_results bd) (column_names bd)
                 (site_includes bd ++ List.map ToString values) (site_excludes bd)
                 (date_from bd) (date_to bd) (has_date_filter bd) (filters bd),
          []).
Proof.
  intros Hne Hall. apply in_list_values_constants in Hall.
  destruct values as [|v values]; [contradiction|].
  unfold GoogleSearchPushdownComplexFilter.
  cbn [absorb_loop absorb_filter List.map String.eqb Ascii.eqb Bool.eqb] in *.
  rewrite Hall, fold_push_site_include. reflexivity.
Qed.

Lemma X15_witness :
  GoogleSearchPushdownComplexFilter example_FromString example_FromDatetime example_bind
    [BoundOperator COMPARE_NOT_IN [BoundColumnRef "site" 11; varchar "a.example"; varchar "b.example"]]
  = Some (fold_left push_site_include ["a.example"; "b.example"] example_bind, []).
Proof.
  apply (X15_operator_type_is_not_read example_FromString example_FromDatetime example_bind
           COMPARE_NOT_IN 11 [mkValue VARCHAR "a.example" 0; mkValue VARCHAR "b.example" 0]).
  - discriminate.
  - repeat constructor.
Defined.

(** ** The plan rewrites *)

Local Abbreviation Limit := OptimizeGoogleSearchLimitPushdown.
Local Abbreviation OrderBy := OptimizeGoogleSearchOrderByPushdown.

Lemma skip_update_get (f : GoogleSearchBindData -> GoogleSearchBindData) (op : LogicalOperator) :
  skip_projections (update_get f op) = update_get f (skip_projections op).
Proof. induction op; simpl; auto. Qed.

Lemma update_get_twice (f g : GoogleSearchBindData -> GoogleSearchBindData)
    (op : LogicalOperator) :
  update_get f (update_get g op) = update_get (fun bd => f (g bd)) op.
Proof. induction op; simpl; congruence. Qed.

Lemma update_get_ext (f g : GoogleSearchBindData -> GoogleSearchBindData)
    (op : LogicalOperator) :
  (forall bd, f bd = g bd) -> update_get f op = update_get g op.
Proof. intros Hfg. induction op; simpl; congruence. Qed.

Lemma update_get_shape (f : GoogleSearchBindData -> GoogleSearchBindData)
    (op : LogicalOperator) :
  (forall name bd children, skip_projections op = LOGICAL_GET name bd children ->
                            name = "google_search") ->
  plan_shape (update_get f op) = plan_shape op.
Proof.
  induction op as [| c IH | | name bd children |]; simpl; intros Hname;
    try reflexivity.
  - f_equal. apply IH. exact Hname.
  - now rewrite (Hname name bd children eq_refl).
Qed.

Lemma map_fixed (f : LogicalOperator -> LogicalOperator) (l : list LogicalOperator) :
  Forall (fun c => f c = c) l -> List.map f l = l.
Proof. induction 1 as [|c l Hc _ IH]; simpl; congruence. Qed.

Lemma map_shape (f : LogicalOperator -> LogicalOperator) (l : list LogicalOperator) :
  Forall (fun c => plan_shape (f c) = plan_shape c) l ->
  List.map plan_shape (List.map f l) = List.map plan_shape l.
Proof. induction 1 as [|c l Hc _ IH]; simpl; congruence. Qed.

Lemma map_twice (f : LogicalOperator -> LogicalOperator) (l : list LogicalOperator) :
  Forall (fun c => f (f c) = f c) l -> List.map f (List.map f l) = List.map f l.
Proof. induction 1 as [|c l Hc _ IH]; simpl; congruence. Qed.

Lemma Limit_skip (op : LogicalOperator) :
  skip_projections (Limit op) = Limit (skip_projections op).
Proof.
  induction op as [lv c _| c IH | | |]; simpl; try reflexivity; [|exact IH].
  destruct (skip_projections c); try reflexivity.
  destruct (negb _); [reflexivity|]. destruct lv; reflexivity.
Qed.

Lemma OrderBy_skip (op : LogicalOperator) :
  skip_projections (OrderBy op) = OrderBy (skip_projections op).
Proof.
  induction op as [| c IH | o c _ | |]; simpl; try reflexivity; [exact IH|].
  destruct (skip_projections c); try reflexivity.
  destruct (negb _); [reflexivity|]. destruct (sort_param_of _ _); reflexivity.
Qed.

Lemma Limit_of_limit (lv : LimitNode) (c : LogicalOperator) :
  exists c', Limit (LOGICAL_LIMIT lv c) = LOGICAL_LIMIT lv c'.
Proof.
  simpl. destruct (skip_projections c); eauto.
  destruct (negb _); eauto. destruct lv; eauto.
Qed.

Lemma OrderBy_of_order (o : list OrderNode) (c : LogicalOperator) :
  exists c', OrderBy (LOGICAL_ORDER_BY o c) = LOGICAL_ORDER_BY o c'.
Proof.
  simpl. destruct (skip_projections c); eauto.
  destruct (negb _); eauto. destruct (sort_param_of _ _); eauto.
Qed.

Lemma with_max_results_twice (bd : GoogleSearchBindData) (m : Z) :
  with_max_results (with_max_results bd m) m = with_max_results bd m.
Proof. reflexivity. Qed.

Lemma set_sort_if_empty_twice (s : string) (bd : GoogleSearchBindData) :
  set_sort_if_empty s (set_sort_if_empty s bd) = set_sort_if_empty s bd.
Proof.
  unfold set_sort_if_empty. destruct (Str.empty (sort (filters bd))) eqn:Hs; [|now rewrite Hs].
  simpl. destruct (Str.empty s); reflexivity.
Qed.

Lemma sort_param_of_set_sort (s : string) (bd : GoogleSearchBindData) (o : list OrderNode) :
  sort_param_of (set_sort_if_empty s bd) o = sort_param_of bd o.
Proof. unfold set_sort_if_empty. now destruct (Str.empty _). Qed.

Lemma Limit_twice (op : LogicalOperator) : Limit (Limit op) = Limit op.
Proof.
  induction op as [lv c IH|c IH|o c IH|name bd cs IH|cs IH]
    using LogicalOperator_children_ind;
    try (simpl; f_equal; first [exact IH | now apply map_twice]).
  cbn [OptimizeGoogleSearchLimitPushdown].
  destruct (skip_projections c) as [lv' c'|c'|o' c'|name bd cs|cs] eqn:Hskip.
  - cbn [OptimizeGoogleSearchLimitPushdown]. rewrite Limit_skip, Hskip.
    destruct (Limit_of_limit lv' c') as [c'' ->]. now rewrite IH.
  - cbn [OptimizeGoogleSearchLimitPushdown]. rewrite Limit_skip, Hskip. simpl. now rewrite IH.
  - cbn [OptimizeGoogleSearchLimitPushdown]. rewrite Limit_skip, Hskip. simpl. now rewrite IH.
  - destruct (negb (String.eqb name "google_search")) eqn:Hname.
    + cbn [OptimizeGoogleSearchLimitPushdown]. rewrite Limit_skip, Hskip. simpl.
      rewrite Hname. now rewrite IH.
    + destruct lv as [|L| | |].
      * cbn [OptimizeGoogleSearchLimitPushdown]. now rewrite Hskip, Hname.
      * cbn [OptimizeGoogleSearchLimitPushdown].
        rewrite skip_update_get, Hskip. simpl. rewrite Hname.
        now rewrite update_get_twice.
      * cbn [OptimizeGoogleSearchLimitPushdown]. rewrite Limit_skip, Hskip. simpl.
        rewrite Hname. now rewrite IH.
      * cbn [OptimizeGoogleSearchLimitPushdown]. rewrite Limit_skip, Hskip. simpl.
        rewrite Hname. now rewrite IH.
      * cbn [OptimizeGoogleSearchLimitPushdown]. rewrite Limit_skip, Hskip. simpl.
        rewrite Hname. now rewrite IH.
  - cbn [OptimizeGoogleSearchLimitPushdown]. rewrite Limit_skip, Hskip. simpl. now rewrite IH.
Qed.

Lemma OrderBy_twice (op : LogicalOperator) : OrderBy (OrderBy op) = OrderBy op.
Proof.
  induction op as [lv c IH|c IH|o c IH|name bd cs IH|cs IH]
    using LogicalOperator_children_ind;
    try (simpl; f_equal; first [exact IH | now apply map_twice]).
  cbn [OptimizeGoogleSearchOrderByPushdown].
  destruct (skip_projections c) as [lv' c'|c'|o' c'|name bd cs|cs] eqn:Hskip.
  - cbn [OptimizeGoogleSearchOrderByPushdown]. rewrite OrderBy_skip, Hskip. simpl. now rewrite IH.
  - cbn [OptimizeGoogleSearchOrderByPushdown]. rewrite OrderBy_skip, Hskip. simpl. now rewrite IH.
  - cbn [OptimizeGoogleSearchOrderByPushdown]. rewrite OrderBy_skip, Hskip.
    destruct (OrderBy_of_order o' c') as [c'' ->]. now rewrite IH.
  - destruct (negb (String.eqb name "google_search")) eqn:Hname.
    + cbn [OptimizeGoogleSearchOrderByPushdown]. rewrite OrderBy_skip, Hskip. simpl.
      rewrite Hname. now rewrite IH.
    + destruct (sort_param_of bd o) as [s|] eqn:Hsort.
      * cbn [OptimizeGoogleSearchOrderByPushdown].
        rewrite skip_update_get, Hskip. simpl. rewrite Hname.
        rewrite sort_param_of_set_sort, Hsort, update_get_twice.
        f_equal. apply update_get_ext, set_sort_if_empty_twice.
      * cbn [OptimizeGoogleSearchOrderByPushdown]. rewrite OrderBy_skip, Hskip. simpl.
        rewrite Hname, Hsort. now rewrite IH.
  - cbn [OptimizeGoogleSearchOrderByPushdown]. rewrite OrderBy_skip, Hskip. simpl. now rewrite IH.
Qed.

(** X19.  Each of the two rewrites does all its work in one run: running
    it again on its result changes nothing. *)
Theorem X19_rewrites_are_idempotent (op : LogicalOperator) :
  OptimizeGoogleSearchLimitPushdown (OptimizeGoogleSearchLimitPushdown op)
  = OptimizeGoogleSearchLimitPushdown op /\
  OptimizeGoogleSearchOrderByPushdown (OptimizeGoogleSearchOrderByPushdown op)
  = OptimizeGoogleSearchOrderByPushdown op.
Proof. split; [apply Limit_twice | apply OrderBy_twice]. Qed.

Lemma Limit_shape (op : LogicalOperator) : plan_shape (Limit op) = plan_shape op.
Proof.
  induction op as [lv c IH|c IH|o c IH|name bd cs IH|cs IH]
    using LogicalOperator_children_ind;
    try (simpl; f_equal; first [exact IH | now apply map_shape]).
  cbn [OptimizeGoogleSearchLimitPushdown].
  destruct (skip_projections c) as [lv' c'|c'|o' c'|name bd cs|cs] eqn:Hskip;
    try (simpl; now rewrite IH).
  destruct (negb (String.eqb name "google_search")) eqn:Hname; [simpl; now rewrite IH|].
  destruct lv; try reflexivity; try (simpl; now rewrite IH).
  simpl. f_equal. apply update_get_shape. intros name' bd' cs'. rewrite Hskip.
  intros [= <- _ _]. apply negb_false_iff, String.eqb_eq in Hname. exact Hname.
Qed.

Lemma OrderBy_shape (op : LogicalOperator) : plan_shape (OrderBy op) = plan_shape op.
Proof.
  induction op as [lv c IH|c IH|o c IH|name bd cs IH|cs IH]
    using LogicalOperator_children_ind;
    try (simpl; f_equal; first [exact IH | now apply map_shape]).
  cbn [OptimizeGoogleSearchOrderByPushdown].
  destruct (skip_projections c) as [lv' c'|c'|o' c'|name bd cs|cs] eqn:Hskip;
    try (simpl; now rewrite IH).
  destruct (negb (String.eqb name "google_search")) eqn:Hname; [simpl; now rewrite IH|].
  destruct (sort_param_of bd o); [|simpl; now rewrite IH].
  simpl. f_equal. apply update_get_shape. intros name' bd' cs'. rewrite Hskip.
  intros [= <- _ _]. apply negb_false_iff, String.eqb_eq in Hname. exact Hname.
Qed.

(** X20.  The two rewrites never add, remove or reorder an operator, never
    change a limit or an order, and never touch the scan of another table
    function: apart from the bind data of [google_search] scans the plan
    they return is the plan they were given. *)
Theorem X20_rewrites_keep_the_plan (op : LogicalOperator) :
  plan_shape (OptimizeGoogleSearchLimitPushdown op) = plan_shape op /\
  plan_shape (OptimizeGoogleSearchOrderByPushdown op) = plan_shape op.
Proof. split; [apply Limit_shape | apply OrderBy_shape]. Qed.

Lemma Limit_projections_get (k : nat) (name : string) (bd : GoogleSearchBindData)
    (children : list LogicalOperator) :
  Limit (projections k (LOGICAL_GET name bd children))
  = projections k (LOGICAL_GET name bd (List.map Limit children)).
Proof. induction k as [|k IH]; simpl; [reflexivity | now rewrite IH]. Qed.

(** X21.  Only projections may stand between a limit and the scan it caps:
    below an ORDER BY, or below any other operator such as a filter, the
    scan keeps its row cap, so [ORDER BY date LIMIT 5] still lets the scan
    fetch up to its old cap. *)
Theorem X21_limit_stops_at_other_operators (limit_val : LimitNode) (k j : nat)
    (orders : list OrderNode) (bd : GoogleSearchBindData) :
  let scan := LOGICAL_GET "google_search" bd [] in
  OptimizeGoogleSearchLimitPushdown
    (LOGICAL_LIMIT limit_val (projections k (LOGICAL_ORDER_BY orders (projections j scan))))
  = LOGICAL_LIMIT limit_val (projections k (LOGICAL_ORDER_BY orders (projections j scan))) /\
  OptimizeGoogleSearchLimitPushdown
    (LOGICAL_LIMIT limit_val (projections k (LOGICAL_OTHER [projections j scan])))
  = LOGICAL_LIMIT limit_val (projections k (LOGICAL_OTHER [projections j scan])).
Proof.
  intros scan.
  assert (forall inner i, Limit (projections i inner) = projections i (Limit inner)) as Hproj.
  { intros inner i. induction i as [|i IH]; simpl; [reflexivity | now rewrite IH]. }
  split; cbn [OptimizeGoogleSearchLimitPushdown]; rewrite skip_projections_projections;
    cbn [skip_projections]; rewrite Hproj; simpl; unfold scan;
    now rewrite Limit_projections_get.
Qed.

Lemma url_named_filters_sort (f : GoogleSearchFilters) :
  url_named_filters f
  = add_param (url_filters_before_sort f) "&sort=" (sort f)
    +:+ "&fields=" +:+ UrlEncode response_fields.
Proof. reflexivity. Qed.

(** X18.  For [ORDER BY] on the single column that the scan calls "date",
    directly above a [google_search] scan (projections apart), the rewrite
    keeps the order node and hands the scan the sort token [date:d] for a
    descending order and [date:a] for any other, unless a sort was given as
    a named parameter, which stays.  The request of the rewritten scan is
    the old request with [&sort=date%3Ad] (or [date%3Aa]) put before the
    field list. *)
Theorem X18_order_by_date_becomes_sort (ot : OrderType) (name_ : string) (idx k : nat)
    (bd : GoogleSearchBindData) (children : list LogicalOperator) :
  column_names bd !! idx = Some "date" ->
  let plan b := LOGICAL_ORDER_BY [mkOrder ot (BoundColumnRef name_ idx)]
                  (projections k (LOGICAL_GET "google_search" b children)) in
  let sorted := with_filters bd (set_sort (filters bd) (date_sort_token ot)) in
  (sort (filters bd) <> "" -> OptimizeGoogleSearchOrderByPushdown (plan bd) = plan bd) /\
  (sort (filters bd) = "" ->
   OptimizeGoogleSearchOrderByPushdown (plan bd) = plan sorted /\
   forall now start site_filter use_or_sites,
   exists request,
     BuildGoogleSearchUrl now bd start site_filter use_or_sites
     = request +:+ "&fields=" +:+ UrlEncode response_fields /\
     BuildGoogleSearchUrl now sorted start site_filter use_or_sites
     = request +:+ (if ot is DESCENDING then "&sort=date%3Ad" else "&sort=date%3Aa")
       +:+ "&fields=" +:+ UrlEncode response_fields).
Proof.
  intros Hcol plan sorted.
  assert (OrderBy (plan bd) = plan (set_sort_if_empty (date_sort_token ot) bd)) as Hrewrite.
  { unfold plan. cbn [OptimizeGoogleSearchOrderByPushdown].
    rewrite skip_projections_projections. cbn [skip_projections]. simpl negb. cbv iota.
    unfold sort_param_of. cbn [expression order_type]. rewrite Hcol. simpl String.eqb.
    cbv iota. fold (date_sort_token ot). now rewrite update_get_projections. }
  split.
  - intros Hsort. rewrite Hrewrite. unfold set_sort_if_empty.
    destruct (sort (filters bd)); [congruence | reflexivity].
  - intros Hsort. split.
    + rewrite Hrewrite. unfold set_sort_if_empty. now rewrite Hsort.
    + intros now start site_filter use_or_sites.
      exists (url_through_site_search bd start site_filter use_or_sites
              +:+ date_param now bd +:+ url_filters_before_sort (filters bd)).
      rewrite !BuildGoogleSearchUrl_parts, !url_named_filters_sort.
      change (url_through_site_search sorted start site_filter use_or_sites)
        with (url_through_site_search bd start site_filter use_or_sites).
      change (date_param now sorted) with (date_param now bd).
      change (url_filters_before_sort (filters sorted))
        with (url_filters_before_sort (filters bd)).
      rewrite Hsort. change (sort (filters sorted)) with (date_sort_token ot).
      split; [unfold add_param; cbn [Str.empty]; now rewrite !app_assoc_s|].
      destruct ot; unfold add_param; cbn [date_sort_token Str.empty];
        rewrite !app_assoc_s; reflexivity.
Qed.

Lemma X18_witness :
  let bd := GoogleSearchBind "rust" "key" "cx" default_filters in
  let plan b := LOGICAL_ORDER_BY [mkOrder DESCENDING (BoundColumnRef "date" 12)]
                  (projections 1 (LOGICAL_GET "google_search" b [])) in
  column_names bd !! 12%nat = Some "date" /\
  OptimizeGoogleSearchOrderByPushdown (plan bd)
  = plan (with_filters bd (set_sort (filters bd) "date:d")).
Proof.
  intros bd plan.
  assert (column_names bd !! 12%nat = Some "date") as Hcol by reflexivity.
  split; [exact Hcol|].
  exact (proj1 (proj2 (X18_order_by_date_becomes_sort DESCENDING "date" 12 1 bd [] Hcol)
                  eq_refl)).
Defined.

(** ** Scans that fail *)

Section LoopShape.

Variable step : GoogleSearchGlobalState -> nat -> Step.
Variable Went : PageFetch -> Prop.
Variable Threw : PageFetch -> Exception -> Prop.

Hypothesis step_went : forall st t req st' t', step st t = Continue req st' t' -> Went req.
Hypothesis step_threw : forall st t req e, step st t = Thrown req e -> Threw req e.

Lemma run_loop_shape (fuel : nat) : forall tr st t,
  Forall Went tr ->
  match run_loop step fuel tr st t with
  | Done tr' _ _ | OutOfFuel tr' => Forall Went tr'
  | Failed tr' e => exists good bad, tr' = good ++ [bad] /\ Forall Went good /\ Threw bad e
  end.
Proof.
  induction fuel as [|fuel IH]; intros tr st t Htr; simpl; [exact Htr|].
  destruct (step st t) as [st' t'|req e|req st' t'] eqn:Hs.
  - exact Htr.
  - exists tr, req. split; [reflexivity|]. split; [exact Htr|]. eapply step_threw, Hs.
  - apply IH. apply Forall_app. split; [exact Htr|].
    constructor; [|constructor]. eapply step_went, Hs.
Qed.

End LoopShape.

Section FailingScans.

Variable w : Transport.
Variable yyjson_read : string -> option JsonDoc.
Variable bind_data : GoogleSearchBindData.

Lemma Parse_raises (body_ : string) (st : GoogleSearchGlobalState) (e : Exception) :
  ParseGoogleSearchResponse yyjson_read bind_data body_ st = inl e -> raised_by_page e.
Proof.
  unfold ParseGoogleSearchResponse, raised_by_page.
  destruct (yyjson_read body_) as [doc|]; [|intros [= <-]; auto].
  destruct (doc_error doc) as [message|]; [intros [= <-]; eauto|].
  destruct (doc_items doc) as [[|item items]|]; discriminate.
Qed.

Lemma per_site_step_raises (st : GoogleSearchGlobalState) (t : nat) (req : PageFetch)
    (e : Exception) :
  per_site_step w yyjson_read bind_data st t = Thrown req e -> raised_by_page e.
Proof.
  unfold per_site_step.
  destruct (negb _); [discriminate|].
  destruct (active_sites (site_states st) =? 0)%nat; [discriminate|].
  destruct (exhausted_at _ _); [discriminate|].
  destruct (success _) eqn:Hsucc; simpl.
  - destruct (ParseGoogleSearchResponse _ _ _ _) as [e'|[st1 nxt]] eqn:HP; [|discriminate].
    intros [= _ <-]. eapply Parse_raises, HP.
  - intros [= _ <-]. left. eauto.
Qed.

Lemma combined_step_raises (has_sites : bool) (st : GoogleSearchGlobalState) (t : nat)
    (req : PageFetch) (e : Exception) :
  combined_step w yyjson_read bind_data has_sites st t = Thrown req e -> raised_by_page e.
Proof.
  unfold combined_step.
  destruct (negb _); [discriminate|].
  destruct (success _) eqn:Hsucc; simpl.
  - destruct (ParseGoogleSearchResponse _ _ _ _) as [e'|[st1 nxt]] eqn:HP; [|discriminate].
    intros [= _ <-]. eapply Parse_raises, HP.
  - intros [= _ <-]. left. eauto.
Qed.

Lemma per_site_step_went (st : GoogleSearchGlobalState) (t : nat) (req : PageFetch)
    (st' : GoogleSearchGlobalState) (t' : nat) :
  per_site_step w yyjson_read bind_data st t = Continue req st' t' ->
  is_Some (pf_next_start req).
Proof.
  intros Hs. apply per_site_step_Continue in Hs as (_ & _ & _ & nxt & _ & Hn & _).
  rewrite Hn. eauto.
Qed.

Lemma combined_step_went (has_sites : bool) (st : GoogleSearchGlobalState) (t : nat)
    (req : PageFetch) (st' : GoogleSearchGlobalState) (t' : nat) :
  combined_step w yyjson_read bind_data has_sites st t = Continue req st' t' ->
  is_Some (pf_next_start req).
Proof.
  intros Hs. apply combined_step_Continue in Hs as (_ & _ & _ & nxt & _ & Hn & _).
  rewrite Hn. eauto.
Qed.

Lemma per_site_step_threw (st : GoogleSearchGlobalState) (t : nat) (req : PageFetch)
    (e : Exception) :
  per_site_step w yyjson_read bind_data st t = Thrown req e ->
  pf_next_start req = None /\ raised_by_page e.
Proof.
  intros Hs. split; [eapply per_site_step_Thrown, Hs | eapply per_site_step_raises, Hs].
Qed.

Lemma combined_step_threw (has_sites : bool) (st : GoogleSearchGlobalState) (t : nat)
    (req : PageFetch) (e : Exception) :
  combined_step w yyjson_read bind_data has_sites st t = Thrown req e ->
  pf_next_start req = None /\ raised_by_page e.
Proof.
  intros Hs. split; [eapply combined_step_Thrown, Hs | eapply combined_step_raises, Hs].
Qed.

(** X22.  A scan ends at the first page that fails: when the fetch
    returns, every request has been answered with a page that was parsed;
    when it raises, that holds for every request but the last one, and the
    exception is the failure of that last request, a body that is not JSON,
    or the error object of the body. *)
Theorem X22_first_failure_ends_the_scan :
  match GoogleSearchInitGlobal w yyjson_read bind_data with
  | Done trace _ _ => Forall (fun r => is_Some (pf_next_start r)) trace
  | Failed trace e =>
      exists good bad,
        trace = good ++ [bad] /\
        Forall (fun r => is_Some (pf_next_start r)) good /\
        pf_next_start bad = None /\ raised_by_page e
  | OutOfFuel _ => False
  end.
Proof.
  pose proof (FetchGoogleSearchResults_terminates w yyjson_read bind_data) as Hends.
  unfold GoogleSearchInitGlobal, FetchGoogleSearchResults in *.
  destruct (use_per_site_queries bind_data);
    match goal with |- match run_loop ?s ?f ?tr ?st0 ?t0 with _ => _ end =>
      first
        [ pose proof (run_loop_shape s _ _ per_site_step_went per_site_step_threw
                        f tr st0 t0 (Forall_nil_2 _)) as Hshape
        | pose proof (run_loop_shape s _ _ (combined_step_went _) (combined_step_threw _)
                        f tr st0 t0 (Forall_nil_2 _)) as Hshape ];
      destruct (run_loop s f tr st0 t0) as [tr' st' t'|tr' e|tr']
    end;
    try exact Hshape; try (now apply (Hends tr'));
    destruct Hshape as (good & bad & Htr & Hgood & Hbad & He); eauto 10.
Qed.

End FailingScans.

Lemma first_url_key (w : Transport) (bind_data : GoogleSearchBindData) :
  exists rest,
    first_url w bind_data
    = "https://www.googleapis.com/customsearch/v1"
      +:+ ("?key=" +:+ UrlEncode (api_key bind_data)) +:+ rest.
Proof.
  unfold first_url. rewrite BuildGoogleSearchUrl_parts. unfold url_through_site_search.
  cbn [Str.empty negb]. eexists. rewrite !app_assoc_s. reflexivity.
Qed.

(** X23.  When the first request of a scan in the single-query mode is
    answered by four retryable failures in a row, the scan raises an
    IOException whose message quotes the whole request URL, the API key
    included, and the status of the last answer. *)
Theorem X23_exhausted_retries_quote_the_url (w : Transport)
    (yyjson_read : string -> option JsonDoc) (bind_data : GoogleSearchBindData) :
  use_per_site_queries bind_data = false ->
  0 < max_results bind_data ->
  (forall j, (j <= 3)%nat ->
             retryable_failure (attempt_response w 0 (first_url w bind_data) j)) ->
  let status := status_code (attempt_response w 0 (first_url w bind_data) 3) in
  let message :=
    "Google Search API error: "
    +:+ ("Max retries exceeded for URL: " +:+ first_url w bind_data)
    +:+ " (status " +:+ pretty status +:+ ")" in
  GoogleSearchInitGlobal w yyjson_read bind_data
  = Failed [mkPageFetch None 1 "" (negb (Nat.eqb (length (site_includes bind_data)) 0)) None]
           (IOException message) /\
  contains ("?key=" +:+ UrlEncode (api_key bind_data)) message.
Proof.
  intros Hmode Hcap Hfail status message. split.
  - unfold GoogleSearchInitGlobal, FetchGoogleSearchResults. rewrite Hmode.
    unfold fetch_fuel. cbn [run_loop]. unfold combined_step.
    cbn [results initial_state length fetch_complete next_start negb].
    destruct (Z.ltb_spec (Z.of_nat 0) (max_results bind_data)) as [_|Hle]; [|simpl in Hle; lia].
    cbn [andb negb]. fold (first_url w bind_data).
    rewrite Fetch_exhausts by (try (simpl; lia); intros j Hj; apply Hfail; simpl in Hj; lia).
    cbn [fetched max_retries default_retry_config Z.to_nat Pos.to_nat Pos.iter_op Init.Nat.add].
    destruct (Hfail 3%nat) as [Hsucc Hretry]; [lia|].
    change (Z.to_nat 3) with 3%nat.
    unfold with_error at 1. cbn [success]. rewrite Hsucc. cbn [negb app].
    f_equal. unfold http_failure, with_error. cbn [status_code error]. fold status.
    apply IsRetryable_iff in Hretry. fold status in Hretry.
    destruct (Z.eqb_spec status 401); [lia|].
    destruct (Z.eqb_spec status 403); [lia|].
    destruct (Z.eqb_spec status 400); [lia|]. reflexivity.
  - destruct (first_url_key w bind_data) as [rest Hurl]. unfold message. rewrite Hurl.
    exists ("Google Search API error: Max retries exceeded for URL: https://www.googleapis.com/customsearch/v1"),
           (rest +:+ " (status " +:+ pretty status +:+ ")").
    rewrite !app_assoc_s. reflexivity.
Qed.

Lemma X23_witness :
  let w := scripted [answer 503 "" ""; answer 503 "" ""; answer 503 "" ""; answer 503 "" ""] 0 in
  use_per_site_queries rust_programming_15 = false /\
  0 < max_results rust_programming_15 /\
  contains "?key=key"
    ("Google Search API error: "
     +:+ ("Max retries exceeded for URL: " +:+ first_url w rust_programming_15)
     +:+ " (status " +:+ pretty 503 +:+ ")").
Proof.
  intros w.
  assert (use_per_site_queries rust_programming_15 = false) as Hmode by reflexivity.
  assert (0 < max_results rust_programming_15) as Hcap by (vm_compute; reflexivity).
  split; [exact Hmode|]. split; [exact Hcap|].
  refine (proj2 (X23_exhausted_retries_quote_the_url w example_reader rust_programming_15
                   Hmode Hcap _)).
  intros [|[|[|[|j]]]] Hj; try lia; vm_compute; split; reflexivity.
Defined.

(** ** The request URL *)

Lemma all_chars_mono (p q : ascii -> bool) (s : string) :
  (forall c, p c = true -> q c = true) -> all_chars p s = true -> all_chars q s = true.
Proof.
  intros Hpq. induction s as [|c s IH]; [reflexivity|]. simpl.
  intros H. apply andb_true_iff in H as [Hc Hs]. now rewrite (Hpq c Hc), IH.
Qed.

Lemma UrlEncode_url_chars (s : string) : all_chars url_char (UrlEncode s) = true.
Proof.
  apply all_chars_mono with (p := fun c => unreserved c || Ascii.eqb c "%").
  - intros c. unfold url_char. destruct (unreserved c); [reflexivity|]. simpl.
    intros Hc. apply Ascii.eqb_eq in Hc as ->. reflexivity.
  - induction s as [|c s IH]; [reflexivity|].
    rewrite UrlEncode_cons, all_chars_app, IH, andb_true_r. apply encoded_char_safe.
Qed.

Lemma pretty_N_go_url_chars (x : N) : forall s,
  all_chars url_char s = true -> all_chars url_char (pretty_N_go x s) = true.
Proof.
  induction (N.lt_wf_0 x) as [x _ IH]. intros s Hs.
  destruct (N.eq_dec x 0%N) as [->|Hx]; [now rewrite pretty_N_go_0|].
  rewrite pretty_N_go_step by lia. apply IH; [apply N.div_lt; lia|].
  simpl. rewrite Hs, andb_true_r. unfold url_char, unreserved.
  now rewrite pretty_N_char_alnum.
Qed.

Lemma pretty_Z_url_chars (z : Z) : all_chars url_char (pretty z) = true.
Proof.
  destruct z as [|p|p]; [reflexivity| |].
  - change (pretty (Z.pos p)) with (pretty_N_go (N.pos p) "").
    now apply pretty_N_go_url_chars.
  - change (pretty (Z.neg p)) with ("-" +:+ pretty_N_go (N.pos p) "").
    rewrite all_chars_app. simpl. now apply pretty_N_go_url_chars.
Qed.

Lemma add_param_url_chars (url name value : string) :
  all_chars url_char url = true -> all_chars url_char name = true ->
  all_chars url_char (add_param url name value) = true.
Proof.
  intros Hu Hn. unfold add_param. destruct (Str.empty value); [exact Hu|].
  now rewrite !all_chars_app, Hu, Hn, UrlEncode_url_chars.
Qed.

Lemma url_char_no_quote (s : string) :
  all_chars url_char s = true -> Str.mem "'" s = false /\ Str.mem " " s = false.
Proof.
  induction s as [|c s IH]; [now split|]. simpl. intros H.
  apply andb_true_iff in H as [Hc Hs]. destruct (IH Hs) as [-> ->].
  destruct (Ascii.eqb_spec c "'") as [->|_]; [discriminate|].
  destruct (Ascii.eqb_spec c " ") as [->|_]; [discriminate|]. now split.
Qed.

(** X25.  Whatever the query, the credentials, the sites and the named
    parameters hold, a request URL is made of letters, digits, [-_.~],
    percent escapes and the separators [: / ? & =] of the builder: no
    space and no quote gets into it, so the quote doubling of
    [ExecuteHttpGet] finds nothing to double. *)
Theorem X25_url_is_escaped (now : Z) (bd : GoogleSearchBindData) (start : Z)
    (site_filter : string) (use_or_sites : bool) :
  let url := BuildGoogleSearchUrl now bd start site_filter use_or_sites in
  all_chars url_char url = true /\ Str.mem "'" url = false /\ Str.mem " " url = false.
Proof.
  intros url.
  assert (all_chars url_char url = true) as Hurl.
  { unfold url. rewrite BuildGoogleSearchUrl_parts, !all_chars_app.
    apply andb_true_iff. split; [|apply andb_true_iff; split].
    - unfold url_through_site_search. cbv zeta.
      destruct (negb (Str.empty site_filter)); rewrite !all_chars_app;
        repeat rewrite UrlEncode_url_chars; rewrite pretty_Z_url_chars; reflexivity.
    - unfold date_param. destruct (_ && _); [|reflexivity].
      destruct (negb _); [|reflexivity].
      now rewrite all_chars_app, UrlEncode_url_chars.
    - unfold url_named_filters. cbv zeta. rewrite !all_chars_app, UrlEncode_url_chars.
      cbn [all_chars url_char unreserved isalnum Str.mem Ascii.eqb Bool.eqb orb andb].
      rewrite !andb_true_r. repeat (apply add_param_url_chars; [|reflexivity]). reflexivity. }
  split; [exact Hurl|]. now apply url_char_no_quote.
Qed.

(** X24.  The upper bound on the date is never sent: storing one changes
    no request, whether or not a lower bound is stored as well. *)
Theorem X24_upper_bound_is_not_sent (now : Z) (bd : GoogleSearchBindData) (ts start : Z)
    (site_filter : string) (use_or_sites : bool) :
  date_from bd = 0 \/ has_date_filter bd = true ->
  BuildGoogleSearchUrl now (set_date_to bd ts) start site_filter use_or_sites
  = BuildGoogleSearchUrl now bd start site_filter use_or_sites.
Proof.
  intros Hbd. rewrite !BuildGoogleSearchUrl_parts.
  change (url_through_site_search (set_date_to bd ts) start site_filter use_or_sites)
    with (url_through_site_search bd start site_filter use_or_sites).
  change (filters (set_date_to bd ts)) with (filters bd).
  f_equal. f_equal. unfold date_param.
  change (has_date_filter (set_date_to bd ts)) with true.
  change (date_from (set_date_to bd ts)) with (date_from bd).
  change (TimestampToDateRestrict now (date_from bd) (date_to (set_date_to bd ts)))
    with (TimestampToDateRestrict now (date_from bd) (date_to bd)).
  destruct Hbd as [-> | ->]; [|reflexivity].
  change (negb (0 =? 0)) with false. now rewrite !andb_false_r.
Qed.

Lemma X24_witness :
  (date_from example_bind = 0 \/ has_date_filter example_bind = true) /\
  BuildGoogleSearchUrl 1767225600 (set_date_to example_bind 1704067200000000) 1 "" false
  = BuildGoogleSearchUrl 1767225600 example_bind 1 "" false.
Proof.
  assert (date_from example_bind = 0 \/ has_date_filter example_bind = true) as H
    by (left; reflexivity).
  split; [exact H|].
  exact (X24_upper_bound_is_not_sent 1767225600 example_bind 1704067200000000 1 "" false H).
Defined.

(** ** [ExtractLikePattern] *)





(** ** The annotation file writer *)

Lemma XmlEscape_cons (c : ascii) (rest : string) :
  XmlEscape (String c rest) = xml_entity c +:+ XmlEscape rest.
Proof. reflexivity. Qed.

Lemma XmlUnescape_entity (c : ascii) (rest : string) :
  XmlUnescape (xml_entity c +:+ rest) = String c (XmlUnescape rest).
Proof. destruct c as [[] [] [] [] [] [] [] []]; reflexivity. Qed.

Lemma xml_entity_plain (c : ascii) :
  all_chars (fun x => negb (xml_special x)) (xml_entity c) = true /\
  (1 <= String.length (xml_entity c) <= 6)%nat /\
  (xml_special c || Ascii.eqb c "&" = false -> xml_entity c = String c EmptyString).
Proof.
  destruct c as [[] [] [] [] [] [] [] []];
    (split; [vm_compute; reflexivity | split; [vm_compute; lia | vm_compute; congruence]]).
Qed.

(** X27.  [XmlEscape] leaves no [<], [>], double or single quote in its
    result, changes nothing in a text without these and without [&], and
    loses nothing: replacing the five entities by their characters gives
    the text back, so different texts stay different.  It works piece by
    piece and writes at most six characters for one. *)
Theorem X27_XmlEscape (s : string) :
  all_chars (fun c => negb (xml_special c)) (XmlEscape s) = true /\
  (all_chars (fun c => negb (xml_special c || Ascii.eqb c "&")) s = true -> XmlEscape s = s) /\
  XmlUnescape (XmlEscape s) = s /\
  (forall t, XmlEscape s = XmlEscape t -> s = t) /\
  (forall t, XmlEscape (s +:+ t) = XmlEscape s +:+ XmlEscape t) /\
  (String.length s <= String.length (XmlEscape s) <= 6 * String.length s)%nat.
Proof.
  assert (forall x, XmlUnescape (XmlEscape x) = x) as Hround.
  { induction x as [|c x IH]; [reflexivity|].
    now rewrite XmlEscape_cons, XmlUnescape_entity, IH. }
  split; [|split; [|split; [|split; [|split]]]].
  - induction s as [|c s IH]; [reflexivity|].
    rewrite XmlEscape_cons, all_chars_app, IH, andb_true_r. apply xml_entity_plain.
  - induction s as [|c s IH]; [reflexivity|]. simpl all_chars. intros H.
    apply andb_true_iff in H as [Hc Hs]. apply negb_true_iff in Hc.
    rewrite XmlEscape_cons, (IH Hs).
    destruct (xml_entity_plain c) as (_ & _ & Hplain). now rewrite (Hplain Hc).
  - apply Hround.
  - intros t H. rewrite <- (Hround s), <- (Hround t). now rewrite H.
  - intros t. induction s as [|c s IH]; [reflexivity|].
    now rewrite app_cons, !XmlEscape_cons, IH, app_assoc_s.
  - induction s as [|c s IH]; [simpl; lia|].
    rewrite XmlEscape_cons, length_app_s.
    change (String.length (String c s)) with (S (String.length s)).
    destruct (xml_entity_plain c) as (_ & Hlen & _). lia.
Qed.

(** X28.  [AnnotationCopyBind] accepts exactly three lists of column
    types: two VARCHAR columns; three VARCHAR columns; three VARCHAR columns
    and a DOUBLE, FLOAT, DECIMAL or INTEGER column.  A score column is
    therefore accepted only after a comment column: two VARCHAR columns and
    a numeric third one are refused. *)
Theorem X28_AnnotationCopyBind_accepts (sql_types : list SqlTypeId) :
  ((exists bdata, AnnotationCopyBind sql_types = inr bdata) <->
   sql_types = [SQL_VARCHAR; SQL_VARCHAR] \/
   sql_types = [SQL_VARCHAR; SQL_VARCHAR; SQL_VARCHAR] \/
   exists t, sql_types = [SQL_VARCHAR; SQL_VARCHAR; SQL_VARCHAR; t] /\ numeric_type t = true) /\
  (forall bdata, AnnotationCopyBind sql_types = inr bdata ->
     has_comment bdata = (3 <=? length sql_types)%nat /\
     has_score bdata = (length sql_types =? 4)%nat /\
     (has_score bdata = true -> has_comment bdata = true)) /\
  (forall t, numeric_type t = true ->
     AnnotationCopyBind [SQL_VARCHAR; SQL_VARCHAR; t]
     = inl (BinderException "Third column (comment) must be VARCHAR")).
Proof.
  split; [split|split].
  - intros [bdata H].
    destruct sql_types as [|a [|b [|c [|d [|e rest]]]]]; try discriminate H.
    + destruct a, b; try discriminate H. now left.
    + destruct a, b, c; try discriminate H. right. now left.
    + destruct a, b, c, d; try discriminate H; right; right; eauto.
  - intros [->|[->|(t & -> & Ht)]]; [eexists; reflexivity | eexists; reflexivity|].
    destruct t; try discriminate Ht; eexists; reflexivity.
  - intros bdata. unfold AnnotationCopyBind.
    destruct (_ || _); [discriminate|].
    destruct (negb _); [discriminate|]. destruct (negb _); [discriminate|].
    destruct (_ && _); [discriminate|]. destruct (_ && _); [discriminate|].
    intros [= <-]. cbn [has_comment has_score]. split; [reflexivity|]. split; [reflexivity|].
    intros H4. apply Nat.eqb_eq in H4. now rewrite H4.
  - intros t Ht. destruct t; try discriminate Ht; reflexivity.
Qed.

Section SinkFacts.

Variable Lower : string -> string.
Variable snprintf : string -> double -> string.
Variable bdata : AnnotationCopyBindData.

Local Abbreviation row_step := (sink_row Lower snprintf bdata).
Local Abbreviation Sink := (AnnotationCopySink Lower snprintf bdata).
Local Abbreviation Sinks := (sink_chunks Lower snprintf bdata).

Lemma sink_row_cases (state : AnnotationCopyGlobalState) (row : AnnotationRow) :
  match row_step state row with
  | inl _ => True
  | inr state' =>
      annotation_count state < MAX_ANNOTATIONS /\
      (state' = state /\ has_annotation row = false \/
       has_annotation row = true /\
       exists xml,
         state' = mkAnnotationState (handle state +:+ xml) (annotation_count state + 1)
                    (bytes_written state + Z.of_nat (String.length xml)) /\
         bytes_written state + Z.of_nat (String.length xml) + 15 <= MAX_FILE_SIZE_BYTES)
  end.
Proof.
  unfold sink_row, has_annotation.
  destruct (Z.geb_spec (annotation_count state) MAX_ANNOTATIONS) as [|Hcount]; [exact Logic.I|].
  destruct (row_url_pattern row) as [url_pattern|]; [|now split; [|left]].
  destruct (row_action row) as [action_|]; [|now split; [|left]].
  destruct (negb _ && negb _); [exact Logic.I|].
  match goal with |- match match ?attr with _ => _ end with _ => _ end =>
    destruct attr as [e|score_attr]; [exact Logic.I|]
  end.
  match goal with |- context [?a >? MAX_FILE_SIZE_BYTES] =>
    destruct (Z.gtb_spec a MAX_FILE_SIZE_BYTES) as [|Hsize]; [exact Logic.I|]
  end.
  split; [exact Hcount|]. right. split; [reflexivity|]. eexists. split; [reflexivity|]. lia.
Qed.

Lemma sink_row_inv (state state' : AnnotationCopyGlobalState) (row : AnnotationRow) :
  sink_inv state -> row_step state row = inr state' -> sink_inv state'.
Proof.
  intros (Hcount & Hbytes & Hsize & annotations & Hhandle) Hrow.
  pose proof (sink_row_cases state row) as Hcases. rewrite Hrow in Hcases.
  destruct Hcases as [Hlt [[-> _]|(_ & xml & -> & Hfits)]].
  - repeat split; try assumption; try lia. now exists annotations.
  - unfold sink_inv. simpl. rewrite length_app_s, Hbytes.
    repeat split; try lia. exists (annotations +:+ xml). now rewrite Hhandle, app_assoc_s.
Qed.

Lemma Sink_inv (input : list AnnotationRow) : forall state,
  sink_inv state -> sink_inv (fst (Sink state input)).
Proof.
  induction input as [|row rest IH]; intros state Hinv; simpl; [exact Hinv|].
  destruct (row_step state row) as [e|state'] eqn:Hrow; [exact Hinv|].
  apply IH. eapply sink_row_inv; eassumption.
Qed.

Lemma Sinks_inv (chunks : list (list AnnotationRow)) : forall state,
  sink_inv state -> sink_inv (fst (Sinks state chunks)).
Proof.
  induction chunks as [|input rest IH]; intros state Hinv; simpl; [exact Hinv|].
  pose proof (Sink_inv input state Hinv) as Hnext.
  destruct (Sink state input) as [state' [e|]]; [exact Hnext | now apply IH].
Qed.

Lemma initial_sink_inv : sink_inv AnnotationCopyInitializeGlobal.
Proof.
  unfold sink_inv. simpl. split; [vm_compute; split; discriminate|].
  split; [reflexivity|]. split; [vm_compute; discriminate|].
  exists "". now rewrite app_empty_r.
Qed.

(** X29.  However a COPY ends, with all its chunks written or with an
    exception on the way, the file holds at most 5000 annotations, the
    byte count kept by the sink is the size of what was written, the file
    begins with the XML header, and closing it gives a file of at most
    30720 bytes. *)
Theorem X29_file_within_limits (chunks : list (list AnnotationRow)) :
  let state := fst (Sinks AnnotationCopyInitializeGlobal chunks) in
  0 <= annotation_count state <= 5000 /\
  bytes_written state = Z.of_nat (String.length (handle state)) /\
  (exists annotations, handle state = annotation_header +:+ annotations) /\
  Z.of_nat (String.length (AnnotationCopyFinalize state)) <= 30720.
Proof.
  intros state.
  destruct (Sinks_inv chunks _ initial_sink_inv) as (Hcount & Hbytes & Hsize & Hhead).
  fold state in Hcount, Hbytes, Hsize, Hhead.
  split; [exact Hcount|]. split; [exact Hbytes|]. split; [exact Hhead|].
  unfold AnnotationCopyFinalize. rewrite length_app_s.
  change (String.length annotation_footer) with 15%nat.
  change MAX_FILE_SIZE_BYTES with 30720 in Hsize. lia.
Qed.

Lemma Sink_app (a b : list AnnotationRow) : forall state,
  Sink state (a ++ b)
  = match Sink state a with
    | (state', None) => Sink state' b
    | thrown => thrown
    end.
Proof.
  induction a as [|row a IH]; intros state; simpl; [reflexivity|].
  destruct (row_step state row) as [e|state']; [reflexivity | apply IH].
Qed.

Lemma Sink_count (input : list AnnotationRow) : forall state state',
  Sink state input = (state', None) ->
  annotation_count state'
  = annotation_count state + Z.of_nat (length (filter (fun r => has_annotation r = true) input)).
Proof.
  induction input as [|row rest IH]; intros state state'; simpl.
  - intros [= <-]. lia.
  - pose proof (sink_row_cases state row) as Hcases. rewrite filter_cons.
    destruct (row_step state row) as [e|state1]; [discriminate|].
    intros Hrest. apply IH in Hrest. rewrite Hrest.
    destruct Hcases as [_ [[-> ->]|(-> & xml & -> & _)]]; simpl; lia.
Qed.

(** X30.  The file does not depend on how the rows are cut into chunks:
    sinking the chunks one after the other is sinking all rows at once.
    When that succeeds the annotations written are as many as the rows
    whose pattern and action are both not NULL; the other rows are
    skipped, yet once 5000 annotations are written every further row,
    NULL or not, raises the limit error. *)
Theorem X30_chunks_do_not_matter (state : AnnotationCopyGlobalState)
    (chunks : list (list AnnotationRow)) :
  Sinks state chunks = Sink state (concat chunks) /\
  (forall state',
     Sinks state chunks = (state', None) ->
     annotation_count state'
     = annotation_count state
       + Z.of_nat (length (filter (fun r => has_annotation r = true) (concat chunks)))) /\
  (forall row rest,
     MAX_ANNOTATIONS <= annotation_count state ->
     Sink state (row :: rest)
     = (state, Some (InvalidInputException
          "Google PSE annotation limit exceeded: maximum 5000 annotations allowed"))).
Proof.
  assert (forall cs st, Sinks st cs = Sink st (concat cs)) as Hconcat.
  { induction cs as [|input rest IH]; intros st; simpl; [reflexivity|].
    rewrite Sink_app. destruct (Sink st input) as [st' [e|]]; [reflexivity | apply IH]. }
  split; [apply Hconcat|]. split.
  - intros state'. rewrite Hconcat. apply Sink_count.
  - intros row rest Hfull. simpl. unfold sink_row.
    destruct (Z.geb_spec (annotation_count state) MAX_ANNOTATIONS); [reflexivity | lia].
Qed.

End SinkFacts.
